(** * FBPIC: GPU utilities ([fbpic/utils/cuda.py]) and the PIC cycle of the
    simulation driver ([fbpic/main.py]).

    The development embeds the launch-geometry helpers, the host/device
    residency functions and their context manager, the MPI device
    selection, the kernel specialisation cache of [compile_cupy],
    [Simulation.deposit] and [Simulation.step], and proves the properties
    the specification states about them, together with further properties
    of the code: its edge cases, what it keeps invariant, and what it does
    when a call fails. *)

From stdpp Require Import gmap strings list.
From Stdlib Require Import ZArith Lia.

Set Default Proof Using "Type".

(** ** Python results

    A Python call either returns a value or raises.  Only the exception
    classes that occur in the embedded code, or that the external
    libraries are documented to raise, are distinguished. *)

Inductive exception : Type :=
  | ZeroDivisionError (msg : string)
  | OverflowError (msg : string)
  | ValueError (msg : string)
  | TypeError (msg : string)
  | IndexError (msg : string)
  | ExternalError (origin msg : string).

Inductive result (A : Type) : Type :=
  | Ok (a : A)
  | Raise (e : exception).
Arguments Ok {A} a.
Arguments Raise {A} e.

(** ** Stateful Python code

    A computation over a mutable state [St] returns or raises, and in both
    cases leaves a state behind: an exception does not roll anything back. *)

Definition M (St A : Type) : Type := St → result A * St.

Global Instance M_ret {St} : MRet (M St) := λ A a s, (Ok a, s).
Global Instance M_bind {St} : MBind (M St) := λ A B f m s,
  match m s with
  | (Ok a, s') => f a s'
  | (Raise e, s') => (Raise e, s')
  end.

Definition raise {St A} (e : exception) : M St A := λ s, (Raise e, s).
Definition get {St} : M St St := λ s, (Ok s, s).
Definition modify {St} (f : St → St) : M St unit := λ s, (Ok (), f s).

(** [for x in l: body(x)] *)
Fixpoint for_each {St A} (body : A → M St unit) (l : list A) : M St unit :=
  match l with
  | [] => mret ()
  | x :: l' => body x ;; for_each body l'
  end.

(** [for i, x in enumerate(l): body(i, x)], counting from [i]. *)
Fixpoint for_enumerate {St A} (body : nat → A → M St unit) (i : nat) (l : list A)
    : M St unit :=
  match l with
  | [] => mret ()
  | x :: l' => body i x ;; for_enumerate body (S i) l'
  end.

(** [l[i]] on a list. *)
Definition getitem {St A} (l : list A) (i : nat) : M St A :=
  match l !! i with
  | Some x => mret x
  | None => raise (IndexError "list index out of range")
  end.

(** The values a context manager's [__exit__] may return, and their truth
    value. *)
Inductive pyobject : Type :=
  | PyNone
  | PyBool (b : bool).

Definition truthy (v : pyobject) : bool :=
  match v with
  | PyNone => false
  | PyBool b => b
  end.

(** The [with] statement: [__exit__] runs on both exits of the body, and an
    exception of the body is swallowed only when [__exit__] returns a true
    value; an exception of [__exit__] itself replaces it. *)
Definition with_statement {St} (enter : M St unit)
    (exit : option exception → M St pyobject) (body : M St unit) : M St unit :=
  λ s,
    match enter s with
    | (Raise e, s1) => (Raise e, s1)
    | (Ok _, s1) =>
        match body s1 with
        | (Ok _, s2) =>
            match exit None s2 with
            | (Ok _, s3) => (Ok (), s3)
            | (Raise e', s3) => (Raise e', s3)
            end
        | (Raise e, s2) =>
            match exit (Some e) s2 with
            | (Ok v, s3) => if truthy v then (Ok (), s3) else (Raise e, s3)
            | (Raise e', s3) => (Raise e', s3)
            end
        end
    end.

(** ** Binary64 arithmetic, as far as the launch geometry needs it

    [cuda.py] is Python 3 source (it unpacks [*a.shape] inside a list
    display), so [x/TPB] on two [int]s is true division: the quotient
    correctly rounded to the nearest binary64 value, ties to even.  A
    finite float is represented exactly by a mantissa and an exponent. *)

Module Float64.
Local Open Scope Z_scope.

Record float : Type := Dyadic { mant : Z; expo : Z }.

Definition prec : Z := 53.
Definition emin : Z := -1074.
Definition huge : Z := 2 ^ 1024.

(** Nearest integer to [n/d] for [d > 0], ties to the even neighbour. *)
Definition rne_div (n d : Z) : Z :=
  let q := n / d in
  let r := n mod d in
  if 2 * r <? d then q
  else if d <? 2 * r then q + 1
  else if Z.even q then q else q + 1.

(** [floor (log2 (n/d))] for positive [n] and [d]. *)
Definition ilog2_ratio (n d : Z) : Z :=
  let s := Z.log2 n - Z.log2 d in
  if d * 2 ^ Z.max s 0 <=? n * 2 ^ Z.max (- s) 0 then s else s - 1.

(** The rational [n/d] ([d > 0]) rounded to binary64: the exponent is that
    of the 53-bit mantissa, bounded below by the subnormal exponent. *)
Definition round_ratio (n d : Z) : float :=
  if n =? 0 then Dyadic 0 0
  else
    let e := Z.max (ilog2_ratio (Z.abs n) d - (prec - 1)) emin in
    Dyadic (rne_div (n * 2 ^ Z.max (- e) 0) (d * 2 ^ Z.max e 0)) e.

(** Whether the rounded value is beyond the largest finite binary64. *)
Definition overflows (f : float) : bool :=
  huge <=? Z.abs (mant f) * 2 ^ Z.max (expo f) 0.

(** [int.__truediv__]. *)
Definition int_truediv (a b : Z) : result float :=
  if b =? 0 then Raise (ZeroDivisionError "division by zero")
  else
    let q := round_ratio (a * Z.sgn b) (Z.abs b) in
    if overflows q
    then Raise (OverflowError "integer division result too large for a float")
    else Ok q.

(** [float.__add__] with an [int] operand that converts exactly. *)
Definition add_int (f : float) (k : Z) : float :=
  round_ratio (mant f * 2 ^ Z.max (expo f) 0 + k * 2 ^ Z.max (- expo f) 0)
              (2 ^ Z.max (- expo f) 0).

(** [int(f)]: truncation towards zero; an infinite operand raises. *)
Definition to_int (f : float) : result Z :=
  if overflows f
  then Raise (OverflowError "cannot convert float infinity to integer")
  else Ok (Z.quot (mant f * 2 ^ Z.max (expo f) 0) (2 ^ Z.max (- expo f) 0)).

End Float64.

(** ** CUDA grid utilities *)

Section Grid.
Local Open Scope Z_scope.

(** [BPG = int(x/TPB + 1)]; returns [(BPG, TPB)]. *)
Definition cuda_tpb_bpg_1d (x TPB : Z) : result (Z * Z) :=
  match Float64.int_truediv x TPB with
  | Raise e => Raise e
  | Ok q =>
      match Float64.to_int (Float64.add_int q 1) with
      | Raise e => Raise e
      | Ok BPG => Ok (BPG, TPB)
      end
  end.

(** The same rule on each axis; returns [((BPGx, BPGy), (TPBx, TPBy))]. *)
Definition cuda_tpb_bpg_2d (x y TPBx TPBy : Z) : result ((Z * Z) * (Z * Z)) :=
  match Float64.int_truediv x TPBx with
  | Raise e => Raise e
  | Ok qx =>
      match Float64.to_int (Float64.add_int qx 1) with
      | Raise e => Raise e
      | Ok BPGx =>
          match Float64.int_truediv y TPBy with
          | Raise e => Raise e
          | Ok qy =>
              match Float64.to_int (Float64.add_int qy 1) with
              | Raise e => Raise e
              | Ok BPGy => Ok ((BPGx, BPGy), (TPBx, TPBy))
              end
          end
      end
  end.

End Grid.

(** ** CUDA memory management

    A data-owning object (the [Fields] structure, a [Particles] species)
    carries its [use_cuda] switch and its [data_is_on_gpu] flag.  The two
    counters are ghost state: how many bulk transfers the object has made
    in each direction. *)

Record aggregate : Type := Aggregate {
  use_cuda : bool;
  data_is_on_gpu : bool;
  to_device : nat;
  to_host : nat
}.

(** Modelled from the spec: the bulk transfer of one aggregate to the device
    ([Fields.send_fields_to_gpu], [Particles.send_particles_to_gpu], whose
    bodies are not part of the two source files).  An aggregate whose flag
    is false is transferred and its flag set; one that is already resident
    is left untouched. *)
Definition send_to_gpu (a : aggregate) : aggregate :=
  if data_is_on_gpu a then a
  else {| use_cuda := use_cuda a; data_is_on_gpu := true;
          to_device := S (to_device a); to_host := to_host a |}.

(** Modelled from the spec: the inverse transfer
    ([Fields.receive_fields_from_gpu], [Particles.receive_particles_from_gpu]). *)
Definition receive_from_gpu (a : aggregate) : aggregate :=
  if data_is_on_gpu a
  then {| use_cuda := use_cuda a; data_is_on_gpu := false;
          to_device := to_device a; to_host := S (to_host a) |}
  else a.

(** Species are objects: [simulation.ptcl] is a list of references, and the
    same object may be listed twice. *)
Definition loc : Type := positive.

Record simulation : Type := Simulation {
  sim_use_cuda : bool;
  fld : aggregate;
  ptcl : list loc;
  species : gmap loc aggregate
}.

Definition set_fld (f : aggregate → aggregate) (s : simulation) : simulation :=
  {| sim_use_cuda := sim_use_cuda s; fld := f (fld s);
     ptcl := ptcl s; species := species s |}.

Definition set_species (f : gmap loc aggregate → gmap loc aggregate)
    (s : simulation) : simulation :=
  {| sim_use_cuda := sim_use_cuda s; fld := fld s;
     ptcl := ptcl s; species := f (species s) |}.

Definition send_fields_to_gpu : simulation → simulation := set_fld send_to_gpu.
Definition receive_fields_from_gpu : simulation → simulation :=
  set_fld receive_from_gpu.
Definition send_particles_to_gpu (l : loc) : simulation → simulation :=
  set_species (alter send_to_gpu l).
Definition receive_particles_from_gpu (l : loc) : simulation → simulation :=
  set_species (alter receive_from_gpu l).

(** Attribute reads through a reference. *)
Definition species_use_cuda (s : simulation) (l : loc) : bool :=
  from_option use_cuda false (species s !! l).
Definition species_on_gpu (s : simulation) (l : loc) : bool :=
  from_option data_is_on_gpu false (species s !! l).

Definition send_data_to_gpu (sim : simulation) : simulation :=
  send_fields_to_gpu
    (foldl (λ s l, if species_use_cuda s l then send_particles_to_gpu l s else s)
           sim (ptcl sim)).

Definition receive_data_from_gpu (sim : simulation) : simulation :=
  receive_fields_from_gpu
    (foldl (λ s l, if species_use_cuda s l
                   then receive_particles_from_gpu l s else s)
           sim (ptcl sim)).

(** The context manager.  The object keeps what it recorded at construction
    and a reference to the simulation; the simulation it reads in
    [__enter__] and [__exit__] is the current one. *)
Module GpuMemoryManager.

Record t : Type := Build {
  fields_were_on_gpu : bool;
  species_were_on_gpu : list bool
}.

Definition __init__ (sim : simulation) : t :=
  {| fields_were_on_gpu := data_is_on_gpu (fld sim);
     species_were_on_gpu := species_on_gpu sim <$> ptcl sim |}.

Definition __enter__ (self : t) : M simulation unit :=
  sim ← get;
  if sim_use_cuda sim then
    (if negb (fields_were_on_gpu self)
     then modify send_fields_to_gpu else mret ());;
    for_enumerate
      (λ i l, were ← getitem (species_were_on_gpu self) i;
              if negb were then modify (send_particles_to_gpu l) else mret ())
      0 (ptcl sim)
  else mret ().

Definition __exit__ (self : t) (exc : option exception) : M simulation pyobject :=
  sim ← get;
  (if sim_use_cuda sim then
     (if negb (fields_were_on_gpu self)
      then modify receive_fields_from_gpu else mret ());;
     for_enumerate
       (λ i l, were ← getitem (species_were_on_gpu self) i;
               if negb were then modify (receive_particles_from_gpu l)
               else mret ())
       0 (ptcl sim)
   else mret ());;
  mret PyNone.

End GpuMemoryManager.

(** [with GpuMemoryManager(simulation): body] *)
Definition with_GpuMemoryManager (body : M simulation unit) : M simulation unit :=
  λ s,
    let mgr := GpuMemoryManager.__init__ s in
    with_statement (GpuMemoryManager.__enter__ mgr)
                   (GpuMemoryManager.__exit__ mgr) body s.

(** What an observer sees of residency: the switches, the species list and
    every object's flag. *)
Definition residency (s : simulation)
    : bool * bool * list loc * gmap loc bool :=
  (sim_use_cuda s, data_is_on_gpu (fld s), ptcl s,
   data_is_on_gpu <$> species s).


(** [GpuMemoryManager.__exit__] with the two receiving methods left open.
    They are methods of the [Fields] and [Particles] classes, and a
    transfer is a call into the device runtime, which may raise; with the
    transfers above, which always complete, this is [__exit__]. *)
Definition exit_with (receive_fields : M simulation unit)
    (receive_particles : loc → M simulation unit)
    (self : GpuMemoryManager.t) (exc : option exception)
    : M simulation pyobject :=
  sim ← get;
  (if sim_use_cuda sim then
     (if negb (GpuMemoryManager.fields_were_on_gpu self)
      then receive_fields else mret ());;
     for_enumerate
       (λ i l, were ← getitem (GpuMemoryManager.species_were_on_gpu self) i;
               if negb were then receive_particles l else mret ())
       0 (ptcl sim)
   else mret ());;
  mret PyNone.
(** ** CUDA MPI management

    What [mpi_select_gpus] does to the calling process: the devices it
    selects and the collective barriers it joins.  The number of visible devices
    ([len(cuda.gpus)]) and the rank ([mpi.COMM_WORLD.rank]) are read from the
    environment, so they are the function's inputs here. *)

Section Device.
Local Open Scope Z_scope.

(** The calls of [cuda.select_device] a process has made, in order, and the
    number of barriers it has joined. *)
Record cuda_process : Type := CudaProcess {
  selected : list Z;
  barriers : nat
}.

Definition fresh_process : cuda_process :=
  {| selected := []; barriers := 0%nat |}.

(** The device bound to the process: the last one selected. *)
Definition current_device (p : cuda_process) : option Z := last (selected p).

(** [cuda.select_device(i)] *)
Definition select_device (i : Z) : M cuda_process unit :=
  modify (λ p, {| selected := selected p ++ [i]; barriers := barriers p |}).

(** [mpi.COMM_WORLD.barrier()] *)
Definition barrier : M cuda_process unit :=
  modify (λ p, {| selected := selected p; barriers := S (barriers p) |}).

(** [a % b] on [int]s: the sign follows the divisor, as [Z.modulo] does. *)
Definition py_mod {St} (a b : Z) : M St Z :=
  if b =? 0 then raise (ZeroDivisionError "integer division or modulo by zero")
  else mret (a mod b).

(** [range(n)] *)
Definition range (n : Z) : list Z := Z.of_nat <$> seq 0 (Z.to_nat n).

Definition mpi_select_gpus (n_gpus rank : Z) : M cuda_process unit :=
  for_each
    (λ i_gpu,
       r ← py_mod rank n_gpus;
       (if r =? i_gpu then select_device i_gpu else mret ());;
       barrier)
    (range n_gpus).

(** The device a process of the given rank ends up bound to. *)
Definition assigned_device (n_gpus rank : Z) : option Z :=
  current_device (mpi_select_gpus n_gpus rank fresh_process).2.

End Device.

(** *** The call, reads included

    [mpi_select_gpus(mpi)] first asks Numba for the visible devices
    ([len(cuda.gpus)]), then reads [mpi.COMM_WORLD.rank], then runs the
    loop above. *)

Section DeviceEnvironment.
Local Open Scope Z_scope.




End DeviceEnvironment.
(** ** CUDA kernel decorator

    Kernel arguments are Python scalars, CuPy arrays, or any other object:
    the code only ever asks [isinstance(a, cupy.ndarray)]. *)

Inductive dtype : Type :=
  | bool_ | int32 | int64 | uint32 | uint64
  | float32 | float64 | complex64 | complex128.

Definition itemsize (d : dtype) : Z :=
  match d with
  | bool_ => 1
  | int32 | uint32 | float32 => 4
  | int64 | uint64 | float64 | complex64 => 8
  | complex128 => 16
  end.

(** A CuPy array: the device allocation it refers to, its element type, and
    its shape and strides tuples. *)
Record ndarray : Type := NdArray {
  data : loc;
  array_dtype : dtype;
  shape : list Z;
  strides : list Z
}.

Definition ndim (a : ndarray) : Z := Z.of_nat (length (shape a)).
Definition array_size (a : ndarray) : Z := foldr Z.mul 1%Z (shape a).

(** Python classes, as [type(a)] returns them. *)
Inductive pytype : Type :=
  | py_float | py_int | py_complex | py_bool
  | py_class (name : string).

Inductive pyvalue : Type :=
  | VFloat (x : Float64.float)
  | VInt (n : Z)
  | VComplex (re im : Float64.float)
  | VBool (b : bool)
  | VObject (cls : string) (id : loc)
  | VArray (a : ndarray).

Definition type_of (v : pyvalue) : pytype :=
  match v with
  | VFloat _ => py_float
  | VInt _ => py_int
  | VComplex _ _ => py_complex
  | VBool _ => py_bool
  | VObject cls _ => py_class cls
  | VArray _ => py_class "cupy.ndarray"
  end.

(** The scalar kinds the docstring of [call_kernel] lists. *)
Definition recognized_scalar (v : pyvalue) : bool :=
  match v with
  | VFloat _ | VInt _ | VComplex _ _ | VBool _ => true
  | VObject _ _ | VArray _ => false
  end.

Definition is_array (v : pyvalue) : bool :=
  match v with VArray _ => true | _ => false end.

(** The entries of the [types] list of [get_args_hash]. *)
Inductive type_entry : Type :=
  | EDtype (d : dtype)
  | ENdim (n : Z)
  | EType (t : pytype).

(** The loop of [get_args_hash], before hashing. *)
Definition arg_types (args : list pyvalue) : list type_entry :=
  foldl (λ types a,
           match a with
           | VArray arr => (types ++ [EDtype (array_dtype arr)]) ++ [ENdim (ndim arr)]
           | _ => types ++ [EType (type_of a)]
           end)
        [] args.

(** An argument's signature in the words of the data model: the scalar kind,
    or the element kind and rank of an array. *)
Inductive arg_signature : Type :=
  | SigScalar (t : pytype)
  | SigArray (d : dtype) (rank : Z).

Definition signature_of (v : pyvalue) : arg_signature :=
  match v with
  | VArray arr => SigArray (array_dtype arr) (ndim arr)
  | _ => SigScalar (type_of v)
  end.

Definition signature (args : list pyvalue) : list arg_signature :=
  signature_of <$> args.

(** The type entries a signature stands for. *)
Definition signature_types (sig : list arg_signature) : list type_entry :=
  concat ((λ σ, match σ with
                | SigScalar t => [EType t]
                | SigArray d n => [EDtype d; ENdim n]
                end) <$> sig).

(** The loop of [call_kernel] that prepares the arguments of the CuPy
    kernel. *)
Definition kernel_args (args : list pyvalue) : list pyvalue :=
  foldl (λ kernel_args a,
           match a with
           | VArray arr =>
               kernel_args ++
                 ([VInt 0; VInt 0; VInt (array_size arr);
                   VInt (itemsize (array_dtype arr)); VArray arr]
                  ++ (VInt <$> shape arr) ++ (VInt <$> strides arr))
           | _ => kernel_args ++ [a]
           end)
        [] args.

(** The marshalled form of one argument, in the words of the specification. *)
Definition marshalled (a : pyvalue) : list pyvalue :=
  match a with
  | VArray arr =>
      [VInt 0; VInt 0] ++ [VInt (array_size arr)] ++ [VInt (itemsize (array_dtype arr))]
      ++ [VArray arr] ++ (VInt <$> shape arr) ++ (VInt <$> strides arr)
  | _ => [a]
  end.

(** Launch geometry: [(blocks_per_grid, threads_per_block)], each a tuple. *)
Definition geometry : Type := list Z * list Z.

Section KernelCache.

(** What lies outside the two files: the compiled code Numba produces, the
    device memory kernels work on, Python's built-in [hash] on the tuple of
    types, the compilation [cuda.jit()(python_func).specialize( *args)] of the
    decorated function, and the execution of a loaded kernel. *)
Context {kernel_code memory : Type}.
Variable py_hash : list type_entry → Z.
Variable jit_specialize : list pyvalue → result kernel_code.
Variable run_kernel :
  kernel_code → geometry → list pyvalue → memory → result memory.

Definition get_args_hash (args : list pyvalue) : Z := py_hash (arg_types args).

(** The CuPy function object [module.get_function] returns: a new object
    for every module loaded. *)
Record handle : Type := Handle {
  handle_id : nat;
  handle_code : kernel_code
}.

(** A [compile_cupy] object with the device it launches on.  The counter
    and the two logs are ghost state. *)
Record compile_cupy : Type := CompileCupy {
  kernel_dict : gmap Z handle;
  compilations : nat;
  modules : nat;
  launches : list (handle * geometry * list pyvalue);
  device_memory : memory
}.

Definition new_kernel (m : memory) : compile_cupy :=
  {| kernel_dict := ∅; compilations := 0; modules := 0;
     launches := []; device_memory := m |}.

(** [cuda.jit()(self.python_func).specialize( *args)] *)
Definition compile (args : list pyvalue) : M compile_cupy kernel_code :=
  λ self,
    let self' := {| kernel_dict := kernel_dict self;
                    compilations := S (compilations self);
                    modules := modules self;
                    launches := launches self;
                    device_memory := device_memory self |} in
    match jit_specialize args with
    | Ok code => (Ok code, self')
    | Raise e => (Raise e, self')
    end.

(** [module.load(...)] and [self.kernel_dict[hash] = module.get_function(...)] *)
Definition load_and_cache (hash : Z) (code : kernel_code) : M compile_cupy unit :=
  modify (λ self,
    {| kernel_dict := <[hash := Handle (modules self) code]> (kernel_dict self);
       compilations := compilations self;
       modules := S (modules self);
       launches := launches self;
       device_memory := device_memory self |}).

(** [self.kernel_dict[hash](bt[0], bt[1], kernel_args)] *)
Definition launch (hash : Z) (bt : geometry) (kargs : list pyvalue)
    : M compile_cupy unit :=
  λ self,
    match kernel_dict self !! hash with
    | None => (Raise (ExternalError "KeyError" "hash"), self)
    | Some h =>
        let issued := {| kernel_dict := kernel_dict self;
                         compilations := compilations self;
                         modules := modules self;
                         launches := launches self ++ [(h, bt, kargs)];
                         device_memory := device_memory self |} in
        match run_kernel (handle_code h) bt kargs (device_memory self) with
        | Raise e => (Raise e, issued)
        | Ok m => (Ok (), {| kernel_dict := kernel_dict self;
                             compilations := compilations self;
                             modules := modules self;
                             launches := launches issued;
                             device_memory := m |})
        end
    end.

(** [kernel[bt]( *args)] *)
Definition call_kernel (bt : geometry) (args : list pyvalue) : M compile_cupy unit :=
  let hash := get_args_hash args in
  self ← get;
  (if decide (is_Some (kernel_dict self !! hash)) then mret ()
   else code ← compile args; load_and_cache hash code);;
  launch hash bt (kernel_args args).

(** A sequence of invocations of one decorated function; an exception ends
    it. *)
Definition call_sequence (calls : list (geometry * list pyvalue))
    : M compile_cupy unit :=
  for_each (λ c, call_kernel c.1 c.2) calls.

(** Handles are numbered as their modules are loaded, so in a cache that
    was filled by [call_kernel] no two keys hold the same handle. *)
Definition cache_wf (self : compile_cupy) : Prop :=
  ∀ k h, kernel_dict self !! k = Some h →
    (handle_id h < modules self)%nat
    ∧ ∀ k' h', kernel_dict self !! k' = Some h' →
        handle_id h' = handle_id h → k' = k.

(** The handles that served the calls, in order. *)
Definition served (self : compile_cupy) : list handle :=
  (λ l, l.1.1) <$> launches self.

End KernelCache.

(** ** [Simulation.deposit]

    The work [deposit] dispatches is done by the field, particle, antenna
    and communicator objects, whose classes are outside the two files: each
    dispatched operation is handed to [perform], which stands for them. *)

Inductive operation : Type :=
  | Erase (fieldtype : string)
  | SpeciesDeposit (species : nat) (fieldtype : string)
  | AntennaDeposit (antenna : nat) (fieldtype : string)
  | DivideByVolume (fieldtype : string)
  | ExchangeFields (fieldtype : string)
  | Interp2Spect (fieldtype : string)
  | FilterSpect (fieldtype : string).

Section Deposit.

Context {field_state : Type}.
Variable perform : operation → M field_state unit.
(** [len(self.ptcl)], [len(self.laser_antennas)], [self.filter_currents] *)
Variable n_species n_antennas : nat.
Variable filter_currents : bool.

Definition deposit (fieldtype : string) : M field_state unit :=
  (if decide (fieldtype = "rho_prev" ∨ fieldtype = "rho_next") then
     perform (Erase "rho");;
     for_each (λ i, perform (SpeciesDeposit i "rho")) (seq 0 n_species);;
     for_each (λ i, perform (AntennaDeposit i "rho")) (seq 0 n_antennas);;
     perform (DivideByVolume "rho");;
     perform (ExchangeFields "rho")
   else if decide (fieldtype = "J") then
     perform (Erase "J");;
     for_each (λ i, perform (SpeciesDeposit i "J")) (seq 0 n_species);;
     for_each (λ i, perform (AntennaDeposit i "rho")) (seq 0 n_antennas);;
     perform (DivideByVolume "J");;
     perform (ExchangeFields "J")
   else raise (ValueError ("Unknown fieldtype: " +:+ fieldtype)));;
  perform (Interp2Spect fieldtype);;
  if filter_currents then perform (FilterSpect fieldtype) else mret ().

End Deposit.

(** The operations a call of [deposit] dispatches, in order. *)
Definition record_operation (op : operation) : M (list operation) unit :=
  modify (λ log, log ++ [op]).

Definition dispatched (n_species n_antennas : nat) (filter_currents : bool)
    (fieldtype : string) : list operation :=
  (deposit record_operation n_species n_antennas filter_currents fieldtype []).2.

(** ** Sample data

    Concrete objects on which the statements below are exercised. *)

Definition host_aggregate (cuda : bool) : aggregate :=
  {| use_cuda := cuda; data_is_on_gpu := false; to_device := 0; to_host := 0 |}.

Definition device_aggregate : aggregate :=
  {| use_cuda := true; data_is_on_gpu := true; to_device := 1; to_host := 0 |}.

(** A simulation on the GPU with three species: one on the host, one
    already on the device, and one that does not use CUDA. *)
Definition sample_simulation : simulation :=
  {| sim_use_cuda := true;
     fld := host_aggregate true;
     ptcl := [1; 2; 3]%positive;
     species := <[1%positive := host_aggregate true]>
                  (<[2%positive := device_aggregate]>
                     (<[3%positive := host_aggregate false]> ∅)) |}.

(** A guarded body that fails. *)
Definition failing_body : M simulation unit :=
  raise (ValueError "diagnostic failed").

Section SampleKernels.
Local Open Scope Z_scope.

(** A stand-in for Python's [hash] on the tuple of types: a polynomial
    hash of the entries, reduced to the range of [Py_hash_t]. *)
Definition entry_code (e : type_entry) : Z :=
  match e with
  | EDtype d => 16 + itemsize d * 8
                + match d with
                  | bool_ => 0 | int32 | int64 => 1 | uint32 | uint64 => 2
                  | float32 | float64 => 3 | complex64 | complex128 => 4
                  end
  | ENdim n => 256 + n
  | EType t => match t with
               | py_float => 1 | py_int => 2 | py_complex => 3 | py_bool => 4
               | py_class name => 5 + Z.of_nat (String.length name)
               end
  end.

Definition sample_hash (types : list type_entry) : Z :=
  (foldl (λ acc e, acc * 1000003 + entry_code e) 0 types
   + 2 ^ 63) mod 2 ^ 64 - 2 ^ 63.

(** A compiler that, like Numba, cannot type an arbitrary object, and
    produces the list of argument types as the compiled code. *)
Definition sample_jit (args : list pyvalue) : result (list type_entry) :=
  if forallb (λ a, recognized_scalar a || is_array a) args
  then Ok (arg_types args)
  else Raise (ExternalError "numba" "cannot determine Numba type of argument").

(** A compiler and a device on which nothing fails; the device memory is not
    looked at. *)
Definition lenient_jit (args : list pyvalue) : result (list type_entry) :=
  Ok (arg_types args).

Definition idle_run (code : list type_entry) (bt : geometry)
    (kargs : list pyvalue) (m : unit) : result unit := Ok m.

(** Some arguments: arrays of 1000 and 500 [float64] elements, a 10 by 10
    array of the same element type, and a string. *)
Definition array_1000 : ndarray :=
  {| data := 1%positive; array_dtype := float64; shape := [1000]; strides := [8] |}.
Definition array_500 : ndarray :=
  {| data := 2%positive; array_dtype := float64; shape := [500]; strides := [8] |}.
Definition array_10x10 : ndarray :=
  {| data := 3%positive; array_dtype := float64;
     shape := [10; 10]; strides := [80; 8] |}.
Definition a_string : pyvalue := VObject "str" 4%positive.

Definition launch_4x256 : geometry := ([4], [256]).

(** The end-to-end scenario: the same kernel on the three arrays. *)
Definition sample_calls : list (geometry * list pyvalue) :=
  [(launch_4x256, [VArray array_1000; VInt 1000]);
   (launch_4x256, [VArray array_500; VInt 500]);
   (launch_4x256, [VArray array_10x10; VInt 100])].

(** Many arguments: 65 one-dimensional arrays whose element types spell the
    bits of [i], [float64] for a set bit and [float32] for a clear one. *)
Definition bit_array (b : bool) (k : Z) : ndarray :=
  {| data := Z.to_pos (k + 1);
     array_dtype := if b then float64 else float32;
     shape := [16]; strides := [if b then 8 else 4] |}.

Definition bit_arguments (i : Z) : list pyvalue :=
  (λ k, VArray (bit_array (Z.testbit i k) k)) <$> range 65.

End SampleKernels.

(** ** Further sample data *)

(** A simulation whose data all sit on the host: the fields and two CUDA
    species, one of them listed twice. *)
Definition host_simulation : simulation :=
  {| sim_use_cuda := true;
     fld := host_aggregate true;
     ptcl := [1; 2; 1]%positive;
     species := <[1%positive := host_aggregate true]>
                  (<[2%positive := host_aggregate true]> ∅) |}.

(** The same simulation built without CUDA. *)
Definition cpu_simulation : simulation :=
  {| sim_use_cuda := false;
     fld := host_aggregate false;
     ptcl := [1; 2]%positive;
     species := <[1%positive := host_aggregate false]>
                  (<[2%positive := host_aggregate false]> ∅) |}.

(** A guarded body that adds a species to the simulation. *)
Definition adding_body : M simulation unit :=
  modify (λ s, {| sim_use_cuda := sim_use_cuda s; fld := fld s;
                  ptcl := ptcl s ++ [9%positive];
                  species := <[9%positive := host_aggregate true]> (species s) |}).

(** A device on which every launch fails. *)
Definition faulty_run (code : list type_entry) (bt : geometry)
    (kargs : list pyvalue) (m : unit) : result unit :=
  Raise (ExternalError "cupy" "CUDA_ERROR_LAUNCH_FAILED").

(** A guarded body that adds a species and then fails. *)
Definition growing_failing_body : M simulation unit :=
  adding_body;; failing_body.

(** A transfer from the device that fails. *)
Definition failing_receive : M simulation unit :=
  raise (ExternalError "cupy" "cudaErrorIllegalAddress").
(** ** Traces of [deposit] *)

(** The operations [deposit] dispatches when the field type is one it
    knows, in order: on the grid named [rho] or [J], then to the spectral
    field [fieldtype]. *)
Definition deposit_ops (n_species n_antennas : nat) (filter_currents : bool)
    (fieldtype : string) : list operation :=
  let grid := if decide (fieldtype = "J") then "J" else "rho" in
  [Erase grid]
  ++ ((λ i, SpeciesDeposit i grid) <$> seq 0 n_species)
  ++ ((λ i, AntennaDeposit i "rho") <$> seq 0 n_antennas)
  ++ [DivideByVolume grid; ExchangeFields grid; Interp2Spect fieldtype]
  ++ (if filter_currents then [FilterSpect fieldtype] else []).

(** ** [Simulation.step]

    A PIC cycle is a fixed sequence of calls on the collaborators of the
    simulation: the field and particle objects, the boundary communicator,
    the diagnostics, the external fields and the terminal.  As for
    [deposit], each call is handed to [perform]; the calls that [deposit]
    also makes ([comm.exchange_fields], [fld.interp2spect]) are the same
    operations.  [main.py] is Python 2 source ([xrange], the form of its
    [except] clause). *)

Inductive pic_operation (T : Type) : Type :=
  | SendDataToGpu
  | ReceiveDataFromGpu
  | ProgressionBar (i_step N : Z)
  | DiagWrite (diag : nat) (iteration : Z)
  | DampGuardEB
  | MoveGrids (dt time : T)
  | ExchangeParticles (species : nat) (time : T)
  | Gather (species : nat)
  | ApplyExpression (ext_field : nat) (time : T)
  | PushP (species : nat)
  | HalfpushX (species : nat)
  | FieldOp (op : operation)
  | CorrectCurrents
  | FieldPush (ptcl_feedback use_true_rho : bool)
  | Spect2Interp (fieldtype : string)
  | PrintDuration.
Arguments SendDataToGpu {T}.
Arguments ReceiveDataFromGpu {T}.
Arguments ProgressionBar {T} i_step N.
Arguments DiagWrite {T} diag iteration.
Arguments DampGuardEB {T}.
Arguments MoveGrids {T} dt time.
Arguments ExchangeParticles {T} species time.
Arguments Gather {T} species.
Arguments ApplyExpression {T} ext_field time.
Arguments PushP {T} species.
Arguments HalfpushX {T} species.
Arguments FieldOp {T} op.
Arguments CorrectCurrents {T}.
Arguments FieldPush {T} ptcl_feedback use_true_rho.
Arguments Spect2Interp {T} fieldtype.
Arguments PrintDuration {T}.

(** What [step] itself updates, [self.iteration] and [self.time], and the
    state of the collaborators, which only their own methods change. *)
Record pic_state (T W : Type) : Type := PicState {
  iteration : Z;
  time : T;
  collaborators : W
}.
Arguments PicState {T W} iteration time collaborators.
Arguments iteration {T W} p.
Arguments time {T W} p.
Arguments collaborators {T W} p.

(** [sys.maxint] of a 64-bit build, and [xrange(n)], whose argument has to
    fit a C [long]. *)
Definition sys_maxint : Z := 2 ^ 63 - 1.

Definition xrange {St} (n : Z) : M St (list Z) :=
  if (sys_maxint <? n)%Z || (n <? - sys_maxint - 1)%Z
  then raise (OverflowError "Python int too large to convert to C long")
  else mret (range n).

Section Step.

(** Times are floats: [T] with the addition [float_add]. *)
Context {T W : Type}.
Variable float_add : T → T → T.
Variable perform : pic_operation T → M W unit.
(** [self.comm.exchange_period], [self.comm.moving_win is not None] and
    [self.comm.rank], read from the communicator. *)
Variable exchange_period : W → Z.
Variable moving_win : W → bool.
Variable rank : W → Z.
(** [self.use_cuda], [self.dt], [self.filter_currents] and the lengths of
    [self.ptcl], [self.laser_antennas], [self.diags] and
    [self.external_fields]. *)
Variable self_use_cuda : bool.
Variable dt : T.
Variable filter_currents : bool.
Variable n_species n_antennas n_diags n_external_fields : nat.

(** A call on a collaborator. *)
Definition act (op : pic_operation T) : M (pic_state T W) unit :=
  λ s,
    match perform op (collaborators s) with
    | (r, w) => (r, {| iteration := iteration s; time := time s;
                       collaborators := w |})
    end.

(** [self.deposit(fieldtype)] *)
Definition self_deposit (fieldtype : string) : M (pic_state T W) unit :=
  deposit (λ op, act (FieldOp op)) n_species n_antennas filter_currents fieldtype.

(** The body of the loop over timesteps. *)
Definition pic_cycle (N : Z)
    (ptcl_feedback correct_currents use_true_rho move_positions move_momenta
       show_progress : bool)
    (i_step : Z) : M (pic_state T W) unit :=
  (if show_progress then act (ProgressionBar i_step N) else mret ());;
  for_each (λ d, self ← get; act (DiagWrite d (iteration self))) (seq 0 n_diags);;
  act (FieldOp (ExchangeFields "EB"));;
  self ← get;
  r ← py_mod (iteration self) (exchange_period (collaborators self));
  (if (r =? 0)%Z then
     (self ← get;
      if moving_win (collaborators self) then
        act DampGuardEB;;
        (self ← get; act (MoveGrids dt (time self)));;
        act (FieldOp (ExchangeFields "EB"))
      else mret ());;
     for_each (λ i, self ← get; act (ExchangeParticles i (time self)))
       (seq 0 n_species);;
     self_deposit "rho_prev"
   else mret ());;
  for_each (λ i, act (Gather i)) (seq 0 n_species);;
  for_each (λ j, self ← get; act (ApplyExpression j (time self)))
    (seq 0 n_external_fields);;
  (if move_momenta then for_each (λ i, act (PushP i)) (seq 0 n_species)
   else mret ());;
  (if move_positions then for_each (λ i, act (HalfpushX i)) (seq 0 n_species)
   else mret ());;
  self_deposit "J";;
  (if move_positions then for_each (λ i, act (HalfpushX i)) (seq 0 n_species)
   else mret ());;
  self_deposit "rho_next";;
  (if correct_currents then act CorrectCurrents else mret ());;
  act DampGuardEB;;
  act (FieldOp (Interp2Spect "E"));;
  act (FieldOp (Interp2Spect "B"));;
  act (FieldPush ptcl_feedback use_true_rho);;
  act (Spect2Interp "E");;
  act (Spect2Interp "B");;
  modify (λ self, {| iteration := iteration self;
                     time := float_add (time self) dt;
                     collaborators := collaborators self |});;
  modify (λ self, {| iteration := iteration self + 1;
                     time := time self;
                     collaborators := collaborators self |}).

Definition step (N : Z)
    (ptcl_feedback correct_currents use_true_rho move_positions move_momenta
       show_progress : bool) : M (pic_state T W) unit :=
  (if self_use_cuda then act SendDataToGpu else mret ());;
  steps ← xrange N;
  for_each (pic_cycle N ptcl_feedback correct_currents use_true_rho
              move_positions move_momenta show_progress) steps;;
  (if self_use_cuda then act ReceiveDataFromGpu else mret ());;
  self ← get;
  if show_progress && (rank (collaborators self) =? 0)%Z
  then act PrintDuration else mret ().

End Step.

(** Collaborators that log each call; those calls for which [fails] names
    an exception raise it instead. *)
Definition record_unless {T} (fails : pic_operation T → option exception)
    (op : pic_operation T) : M (list (pic_operation T)) unit :=
  match fails op with
  | Some e => raise e
  | None => modify (λ log, log ++ [op])
  end.

(** Statements about stateful code: started in a state satisfying [P],
    the computation leaves a state satisfying [Q] if it returns and [E] if
    it raises. *)
Definition triple {St A} (P : St → Prop) (m : M St A)
    (Q : A → St → Prop) (E : exception → St → Prop) : Prop :=
  ∀ s, P s →
    match m s with
    | (Ok a, s') => Q a s'
    | (Raise e, s') => E e s'
    end.

(** The clock of a simulation: its iteration number and its time. *)
Definition at_clock {T W} (i : Z) (t : T) (s : pic_state T W) : Prop :=
  iteration s = i ∧ time s = t.

(** How many entries of a log satisfy a test. *)
Definition count_ops {A} (p : A → bool) (log : list A) : nat :=
  length (List.filter p log).

(** The calls that put a charge or current on the spectral grid, and the
    particle calls. *)
Definition is_spectral_deposit {T} (fieldtype : string) (op : pic_operation T)
    : bool :=
  match op with
  | FieldOp (Interp2Spect g) => bool_decide (g = fieldtype)
  | _ => false
  end.

Definition is_halfpush {T} (op : pic_operation T) : bool :=
  match op with HalfpushX _ => true | _ => false end.

Definition is_push_p {T} (op : pic_operation T) : bool :=
  match op with PushP _ => true | _ => false end.

Definition is_receive {T} (op : pic_operation T) : bool :=
  match op with ReceiveDataFromGpu => true | _ => false end.

Definition is_send {T} (op : pic_operation T) : bool :=
  match op with SendDataToGpu => true | _ => false end.

Definition is_particle_exchange {T} (op : pic_operation T) : bool :=
  match op with ExchangeParticles _ _ => true | _ => false end.

Definition counted {T A} (p : A → bool) (k : nat) (s : pic_state T (list A))
    : Prop :=
  count_ops p (collaborators s) = k.

(** The calls one cycle makes when every call returns, for a communicator
    whose [exchange_period] is [period] and whose moving window is set or
    not; [it] and [t] are [self.iteration] and [self.time] at the start of
    the cycle. *)
Definition cycle_ops {T} (dt : T) (period : Z) (window : bool)
    (filter_currents : bool)
    (n_species n_antennas n_diags n_external_fields : nat) (N : Z)
    (ptcl_feedback correct_currents use_true_rho move_positions move_momenta
       show_progress : bool)
    (i_step it : Z) (t : T) : list (pic_operation T) :=
  (if show_progress then [ProgressionBar i_step N] else [])
  ++ ((λ d, DiagWrite d it) <$> seq 0 n_diags)
  ++ [FieldOp (ExchangeFields "EB")]
  ++ (if (it mod period =? 0)%Z then
        (if window
         then [DampGuardEB; MoveGrids dt t; FieldOp (ExchangeFields "EB")]
         else [])
        ++ ((λ i, ExchangeParticles i t) <$> seq 0 n_species)
        ++ (FieldOp <$> deposit_ops n_species n_antennas filter_currents "rho_prev")
      else [])
  ++ (Gather <$> seq 0 n_species)
  ++ ((λ j, ApplyExpression j t) <$> seq 0 n_external_fields)
  ++ (if move_momenta then PushP <$> seq 0 n_species else [])
  ++ (if move_positions then HalfpushX <$> seq 0 n_species else [])
  ++ (FieldOp <$> deposit_ops n_species n_antennas filter_currents "J")
  ++ (if move_positions then HalfpushX <$> seq 0 n_species else [])
  ++ (FieldOp <$> deposit_ops n_species n_antennas filter_currents "rho_next")
  ++ (if correct_currents then [CorrectCurrents] else [])
  ++ [DampGuardEB; FieldOp (Interp2Spect "E"); FieldOp (Interp2Spect "B");
      FieldPush ptcl_feedback use_true_rho; Spect2Interp "E"; Spect2Interp "B"].

(** The calls of the cycles for the given loop indices, one after the
    other. *)
Fixpoint loop_ops {T} (float_add : T → T → T) (dt : T) (period : Z)
    (window : bool) (filter_currents : bool)
    (n_species n_antennas n_diags n_external_fields : nat) (N : Z)
    (ptcl_feedback correct_currents use_true_rho move_positions move_momenta
       show_progress : bool)
    (steps : list Z) (it : Z) (t : T) : list (pic_operation T) :=
  match steps with
  | [] => []
  | i_step :: steps' =>
      cycle_ops dt period window filter_currents n_species n_antennas n_diags
        n_external_fields N ptcl_feedback correct_currents use_true_rho
        move_positions move_momenta show_progress i_step it t
      ++ loop_ops float_add dt period window filter_currents n_species
           n_antennas n_diags n_external_fields N ptcl_feedback correct_currents
           use_true_rho move_positions move_momenta show_progress steps'
           (it + 1)%Z (float_add t dt)
  end.

(** How many of [n] cycles in a row, the first starting at iteration [it],
    start at an iteration number that is a multiple of [period]. *)
Definition exchange_cycles (period it : Z) (n : nat) : nat :=
  length (List.filter (λ j, ((it + Z.of_nat j) mod period =? 0)%Z) (seq 0 n)).

(** Times that are whole numbers of some unit, on which float addition is
    exact, and collaborators that log every call but fail to write the
    diagnostics. *)
Definition failing_diagnostics (op : pic_operation Z) : option exception :=
  match op with
  | DiagWrite _ _ => Some (ExternalError "h5py" "unable to create file")
  | _ => None
  end.

(** Statements about collaborators that log: from any state whose clock
    shows [it] and [t], the computation returns with the calls [l] added to
    the log and the clock at [it'] and [t'], or it raises [e] with the
    calls [l] added and the clock unchanged. *)
Definition logs {T A} (it : Z) (t : T) (m : M (pic_state T (list A)) unit)
    (it' : Z) (t' : T) (l : list A) : Prop :=
  ∀ s, iteration s = it → time s = t →
    m s = (Ok (), {| iteration := it'; time := t';
                     collaborators := collaborators s ++ l |}).

Definition logs_and_raises {T A} (it : Z) (t : T)
    (m : M (pic_state T (list A)) unit) (e : exception) (l : list A) : Prop :=
  ∀ s, iteration s = it → time s = t →
    m s = (Raise e, {| iteration := it; time := t;
                       collaborators := collaborators s ++ l |}).
(** ** The state monad *)

Lemma bind_unfold {St A B} (m : M St A) (f : A → M St B) (s : St) :
  (m ≫= f) s
  = match m s with
    | (Ok a, s') => f a s'
    | (Raise e, s') => (Raise e, s')
    end.
Proof. done. Qed.

(** ** Facts about the rounding model *)

Module Float64Facts.
Import Float64.
Local Open Scope Z_scope.

Lemma rne_div_err n d :
  0 < d → - d ≤ 2 * (n - d * rne_div n d) ≤ d.
Proof.
  intros Hd. unfold rne_div.
  pose proof (Z.div_mod n d ltac:(lia)) as Hdm.
  pose proof (Z.mod_pos_bound n d Hd) as Hr.
  repeat case_match; lia.
Qed.

Lemma rne_div_ge n d z : 0 < d → z * d ≤ n → z ≤ rne_div n d.
Proof. intros Hd Hz. pose proof (rne_div_err n d Hd). nia. Qed.

Lemma rne_div_le n d z : 0 < d → 2 * n < (2 * z + 1) * d → rne_div n d ≤ z.
Proof. intros Hd Hz. pose proof (rne_div_err n d Hd). nia. Qed.

Lemma pow2_pos e : 0 < 2 ^ Z.max e 0.
Proof. apply Z.pow_pos_nonneg; lia. Qed.

Lemma pow2_double e : 0 ≤ e → 2 ^ (e + 1) = 2 * 2 ^ e.
Proof. intros. rewrite Z.pow_add_r by lia. lia. Qed.

Lemma ilog2_ratio_spec n d :
  0 < n → 0 < d →
  d * 2 ^ Z.max (ilog2_ratio n d) 0 ≤ n * 2 ^ Z.max (- ilog2_ratio n d) 0
  ∧ n * 2 ^ Z.max (- ilog2_ratio n d) 0 < 2 * d * 2 ^ Z.max (ilog2_ratio n d) 0.
Proof.
  intros Hn Hd. unfold ilog2_ratio.
  destruct (Z.log2_spec n Hn) as [Hn1 Hn2], (Z.log2_spec d Hd) as [Hd1 Hd2].
  pose proof (Z.log2_nonneg n) as Ha. pose proof (Z.log2_nonneg d) as Hb.
  rewrite <- Z.add_1_r in Hn2, Hd2.
  rewrite pow2_double in Hn2, Hd2 by done.
  set (a := Z.log2 n) in *. set (b := Z.log2 d) in *.
  assert (0 < 2 ^ a ∧ 0 < 2 ^ b) as [Hpa Hpb]
    by (split; apply Z.pow_pos_nonneg; lia).
  destruct (Z_lt_le_dec (a - b) 0) as [Hs|Hs].
  - (* the numerator has fewer bits *)
    assert (2 ^ b = 2 ^ a * 2 ^ (b - a)) as Hab
      by (rewrite <- Z.pow_add_r by lia; f_equal; lia).
    assert (0 < 2 ^ (b - a)) as Hp by (apply Z.pow_pos_nonneg; lia).
    rewrite (Z.max_r (a - b) 0), (Z.max_l (- (a - b)) 0) by lia.
    replace (- (a - b)) with (b - a) by lia.
    destruct (Z.leb_spec (d * 2 ^ 0) (n * 2 ^ (b - a))) as [Ht|Ht].
    + rewrite (Z.max_r (a - b) 0), (Z.max_l (- (a - b)) 0) by lia.
      replace (- (a - b)) with (b - a) by lia.
      rewrite Z.pow_0_r in *. nia.
    + rewrite (Z.max_r (a - b - 1) 0), (Z.max_l (- (a - b - 1)) 0) by lia.
      replace (- (a - b - 1)) with (b - a + 1) by lia.
      rewrite pow2_double by lia. rewrite Z.pow_0_r in *. nia.
  - (* the numerator has at least as many bits *)
    assert (2 ^ a = 2 ^ b * 2 ^ (a - b)) as Hab
      by (rewrite <- Z.pow_add_r by lia; f_equal; lia).
    assert (0 < 2 ^ (a - b)) as Hp by (apply Z.pow_pos_nonneg; lia).
    rewrite (Z.max_l (a - b) 0), (Z.max_r (- (a - b)) 0) by lia.
    destruct (Z.leb_spec (d * 2 ^ (a - b)) (n * 2 ^ 0)) as [Ht|Ht].
    + rewrite (Z.max_l (a - b) 0), (Z.max_r (- (a - b)) 0) by lia.
      rewrite Z.pow_0_r in *. nia.
    + destruct (Z.eq_dec (a - b) 0) as [Hz|Hz].
      * rewrite Hz in *. change (Z.max (0 - 1) 0) with 0.
        change (Z.max (- (0 - 1)) 0) with 1. rewrite Z.pow_0_r in *.
        change (2 ^ 1) with 2. nia.
      * rewrite (Z.max_l (a - b - 1) 0), (Z.max_r (- (a - b - 1)) 0) by lia.
        assert (2 ^ (a - b) = 2 * 2 ^ (a - b - 1)) as Hh
          by (rewrite <- pow2_double by lia; f_equal; lia).
        assert (0 < 2 ^ (a - b - 1)) by (apply Z.pow_pos_nonneg; lia).
        rewrite Z.pow_0_r in *. nia.
Qed.

Lemma ilog2_ratio_lt n d h :
  0 < n → 0 < d → 0 ≤ h → n < d * 2 ^ h → ilog2_ratio n d < h.
Proof.
  intros Hn Hd Hh Hlt. destruct (ilog2_ratio_spec n d Hn Hd) as [Hlo _].
  destruct (Z_lt_le_dec (ilog2_ratio n d) h) as [|Hge]; [done|exfalso].
  rewrite Z.max_l, Z.max_r, Z.pow_0_r in Hlo by lia.
  pose proof (Z.pow_le_mono_r 2 h (ilog2_ratio n d) ltac:(lia) Hge). nia.
Qed.

Lemma ilog2_ratio_ge n d l :
  0 < n → 0 < d → 0 ≤ l → d ≤ n * 2 ^ l → - l ≤ ilog2_ratio n d.
Proof.
  intros Hn Hd Hl Hle. destruct (ilog2_ratio_spec n d Hn Hd) as [_ Hhi].
  destruct (Z_lt_le_dec (ilog2_ratio n d) (- l)) as [Hlt|]; [exfalso|done].
  rewrite (Z.max_r (ilog2_ratio n d)), Z.max_l, Z.pow_0_r in Hhi by lia.
  pose proof (Z.pow_le_mono_r 2 (l + 1) (- ilog2_ratio n d) ltac:(lia) ltac:(lia)) as Hm.
  rewrite pow2_double in Hm by done. nia.
Qed.

(** In the normal range the mantissa is the quotient scaled to 53 bits. *)
Lemma round_ratio_normal n d :
  0 < n → 0 < d → -1022 ≤ ilog2_ratio n d < 52 →
  round_ratio n d =
    Dyadic (rne_div (n * 2 ^ (52 - ilog2_ratio n d)) d) (ilog2_ratio n d - 52).
Proof.
  intros Hn Hd HL. unfold round_ratio, prec, emin.
  destruct (Z.eqb_spec n 0) as [|_]; [lia|].
  rewrite (Z.abs_eq n) by lia. change (53 - 1) with 52.
  rewrite (Z.max_l _ (-1074)) by lia.
  rewrite (Z.max_l (- _) 0), (Z.max_r _ 0), Z.pow_0_r, Z.mul_1_r by lia.
  do 4 f_equal. lia.
Qed.

(** The two roundings of [int(x/T + 1)], with [P] and [P2] the powers of two
    that scale the quotient and the sum to 53 bits: as long as neither is
    below the divisor, no rounding reaches the next integer. *)
Lemma blocks_core x T P P2 :
  0 < x → 0 < T → T < P → T ≤ P2 →
  let m1 := rne_div (x * P) T in
  let m2 := rne_div ((m1 + P) * P2) P in
  (x / T + 1) * P2 ≤ m2 < (x / T + 2) * P2.
Proof.
  intros Hx HT HP HP2 m1 m2.
  pose proof (Z.div_mod x T ltac:(lia)) as Hdm.
  pose proof (Z.mod_pos_bound x T HT) as Hr.
  set (k := x / T) in *. set (r := x mod T) in *.
  assert (0 ≤ k) as Hk by (apply Z.div_pos; lia).
  assert (k * T ≤ x ∧ x ≤ (k + 1) * T - 1) as [Hxlo Hxhi] by lia.
  assert (k * P ≤ m1) as Hm1lo.
  { apply rne_div_ge; [done|].
    replace (k * P * T) with (k * T * P) by lia.
    apply Z.mul_le_mono_nonneg_r; lia. }
  pose proof (rne_div_err (x * P) T HT) as Hm1. fold m1 in Hm1.
  pose proof (rne_div_err ((m1 + P) * P2) P ltac:(lia)) as Hm2. fold m2 in Hm2.
  split.
  - apply rne_div_ge; [lia|].
    replace ((k + 1) * P2 * P) with ((k * P + P) * P2) by lia.
    apply Z.mul_le_mono_nonneg_r; lia.
  - destruct (Z_lt_le_dec m2 ((k + 2) * P2)) as [|Hge]; [done|exfalso].
    assert (x * P ≤ ((k + 1) * T - 1) * P) as HxP
      by (apply Z.mul_le_mono_nonneg_r; lia).
    assert (2 * T * m1 ≤ 2 * ((k + 1) * T - 1) * P + T) as Hup by lia.
    assert ((k + 2) * P2 * P ≤ m2 * P) as HgeP
      by (apply Z.mul_le_mono_nonneg_r; lia).
    assert (2 * P * ((k + 1) * P2) ≤ 2 * m1 * P2 + P) as Hdown by nia.
    assert (2 * T * m1 * P2 ≤ (2 * ((k + 1) * T - 1) * P + T) * P2) as Hup'
      by (apply Z.mul_le_mono_nonneg_r; lia).
    assert (T * (2 * P * ((k + 1) * P2)) ≤ T * (2 * m1 * P2 + P)) as Hdown'
      by (apply Z.mul_le_mono_nonneg_l; lia).
    assert (T * P2 < P * P2) by (apply Z.mul_lt_mono_pos_r; lia).
    assert (T * P ≤ P2 * P) by (apply Z.mul_le_mono_nonneg_r; lia).
    nia.
Qed.

Lemma rne_div_bounds x T P :
  0 < x → 0 < T → T < P →
  x / T * P ≤ rne_div (x * P) T < (x / T + 1) * P.
Proof.
  intros Hx HT HP.
  pose proof (Z.div_mod x T ltac:(lia)) as Hdm.
  pose proof (Z.mod_pos_bound x T HT) as Hr.
  set (k := x / T) in *. set (r := x mod T) in *.
  split.
  - apply rne_div_ge; [done|].
    replace (k * P * T) with (k * T * P) by lia.
    apply Z.mul_le_mono_nonneg_r; lia.
  - assert (x * P ≤ ((k + 1) * T - 1) * P)
      by (apply Z.mul_le_mono_nonneg_r; lia).
    assert (rne_div (x * P) T ≤ (k + 1) * P - 1); [|lia].
    apply rne_div_le; [done|]. lia.
Qed.

End Float64Facts.

(** ** The launch geometry *)

Section GridFacts.
Import Float64 Float64Facts.
Local Open Scope Z_scope.

Lemma overflows_small m e :
  e ≤ 0 → Z.abs m < 2 ^ 1024 → overflows (Dyadic m e) = false.
Proof.
  intros He Hm. unfold overflows, huge. cbn [mant expo].
  rewrite Z.max_r, Z.pow_0_r, Z.mul_1_r by lia. by apply Z.leb_gt.
Qed.

(** Within the stated range the float computation is the integer one. *)
Lemma blocks_exact (x TPB : Z) :
  0 < x → 0 < TPB → x + 2 * TPB ≤ 2 ^ 52 →
  cuda_tpb_bpg_1d x TPB = Ok (x / TPB + 1, TPB).
Proof.
  intros Hx HT Hb.
  pose proof (Z.div_mod x TPB ltac:(lia)) as Hdm.
  pose proof (Z.mod_pos_bound x TPB HT) as Hr.
  assert (0 ≤ x / TPB) as Hk by (apply Z.div_pos; lia).
  assert ((x / TPB + 2) * TPB ≤ 2 ^ 52) as Hk2 by lia.
  assert (x / TPB + 2 ≤ 2 ^ 52) as Hk3 by nia.
  unfold cuda_tpb_bpg_1d, int_truediv.
  destruct (Z.eqb_spec TPB 0) as [|_]; [lia|].
  rewrite Z.sgn_pos, Z.mul_1_r, Z.abs_eq by lia.
  (* the quotient *)
  pose proof (ilog2_ratio_spec x TPB Hx HT) as [HLlo _].
  assert (-52 ≤ ilog2_ratio x TPB < 52) as HL.
  { split; [apply (ilog2_ratio_ge _ _ 52)|apply ilog2_ratio_lt]; lia. }
  rewrite round_ratio_normal by lia.
  set (L := ilog2_ratio x TPB) in *. set (P := 2 ^ (52 - L)).
  assert (0 < P) as HP0 by (apply Z.pow_pos_nonneg; lia).
  assert (TPB < P) as HP.
  { destruct (Z_lt_le_dec L 0).
    - pose proof (Z.pow_le_mono_r 2 52 (52 - L) ltac:(lia) ltac:(lia)).
      unfold P. lia.
    - rewrite Z.max_l, Z.max_r, Z.pow_0_r in HLlo by lia.
      assert (2 ^ 52 = P * 2 ^ L) as HPL
        by (unfold P; rewrite <- Z.pow_add_r by lia; f_equal; lia).
      assert (0 < 2 ^ L) by (apply Z.pow_pos_nonneg; lia). nia. }
  assert (P ≤ 2 ^ 104) as HPhi by (apply Z.pow_le_mono_r; lia).
  pose proof (rne_div_bounds x TPB P Hx HT HP) as Hm1.
  pose proof (blocks_core x TPB P) as Hcore.
  set (m1 := rne_div (x * P) TPB) in *.
  assert (0 ≤ m1 ≤ 2 ^ 52 * 2 ^ 104) as Hm1b by nia.
  rewrite overflows_small by lia.
  (* the sum *)
  unfold add_int. cbn [mant expo].
  rewrite (Z.max_r (L - 52) 0), (Z.max_l (- (L - 52)) 0) by lia.
  replace (- (L - 52)) with (52 - L) by lia. fold P.
  rewrite Z.pow_0_r, Z.mul_1_r, Z.mul_1_l.
  assert (m1 + P < (x / TPB + 2) * P) as Hsum by lia.
  assert ((x / TPB + 2) * P ≤ 2 ^ 52 * P) as Hsum2
    by (apply Z.mul_le_mono_nonneg_r; lia).
  pose proof (ilog2_ratio_spec (m1 + P) P ltac:(lia) HP0) as [HL2lo _].
  assert (0 ≤ ilog2_ratio (m1 + P) P < 52) as HL2.
  { split; [apply (ilog2_ratio_ge _ _ 0)|apply ilog2_ratio_lt]; lia. }
  rewrite round_ratio_normal by lia.
  set (L2 := ilog2_ratio (m1 + P) P) in *. set (P2 := 2 ^ (52 - L2)).
  assert (0 < P2) as HP20 by (apply Z.pow_pos_nonneg; lia).
  assert (TPB ≤ P2) as HP2.
  { rewrite Z.max_l, Z.max_r, Z.pow_0_r, Z.mul_1_r in HL2lo by lia.
    assert (2 ^ 52 = P2 * 2 ^ L2) as HPL
      by (unfold P2; rewrite <- Z.pow_add_r by lia; f_equal; lia).
    assert (0 < 2 ^ L2) by (apply Z.pow_pos_nonneg; lia).
    assert (2 ^ L2 ≤ x / TPB + 2)
      by (apply Z.lt_le_incl, (Z.mul_lt_mono_pos_l P); lia).
    assert (TPB * 2 ^ L2 ≤ TPB * (x / TPB + 2))
      by (apply Z.mul_le_mono_nonneg_l; lia).
    apply (Z.mul_le_mono_pos_r _ _ (2 ^ L2)); lia. }
  assert (P2 ≤ 2 ^ 52) as HP2hi by (apply Z.pow_le_mono_r; lia).
  specialize (Hcore P2 Hx HT HP HP2). cbv zeta in Hcore.
  set (m2 := rne_div ((m1 + P) * P2) P) in *.
  (* the truncation *)
  unfold to_int.
  rewrite overflows_small by nia. cbn [mant expo].
  rewrite (Z.max_r (L2 - 52) 0), (Z.max_l (- (L2 - 52)) 0) by lia.
  replace (- (L2 - 52)) with (52 - L2) by lia. fold P2.
  rewrite Z.pow_0_r, Z.mul_1_r.
  rewrite Z.quot_div_nonneg by lia.
  do 3 f_equal. symmetry.
  apply (Z.div_unique m2 P2 (x / TPB + 1) (m2 - P2 * (x / TPB + 1))); lia.
Qed.

(** C2 (as amended): for positive [x] and [TPB] with [x + 2*TPB <= 2^52],
    [cuda_tpb_bpg_1d x TPB] returns [(floor(x/TPB) + 1, TPB)], so that
    [BPG * TPB >= x]; at an exact multiple this is one block more than the
    ceiling, and [x = 256], [TPB = 256] yields 2 blocks. *)
Theorem cuda_tpb_bpg_1d_floor_plus_one (x TPB : Z) :
  0 < x → 0 < TPB → x + 2 * TPB ≤ 2 ^ 52 →
  cuda_tpb_bpg_1d x TPB = Ok (x / TPB + 1, TPB)
  ∧ x ≤ (x / TPB + 1) * TPB
  ∧ (x mod TPB = 0 → (x / TPB + 1) * TPB = x + TPB)
  ∧ cuda_tpb_bpg_1d 256 256 = Ok (2, 256).
Proof.
  intros Hx HT Hb.
  pose proof (Z.div_mod x TPB ltac:(lia)) as Hdm.
  pose proof (Z.mod_pos_bound x TPB HT) as Hr.
  split; [by apply blocks_exact|].
  split; [lia|]. split; [lia|].
  by vm_compute.
Qed.

Lemma cuda_tpb_bpg_1d_floor_plus_one_witness :
  cuda_tpb_bpg_1d 1000 256 = Ok (1000 / 256 + 1, 256)
  ∧ 1000 ≤ (1000 / 256 + 1) * 256
  ∧ (1000 mod 256 = 0 → (1000 / 256 + 1) * 256 = 1000 + 256)
  ∧ cuda_tpb_bpg_1d 256 256 = Ok (2, 256).
Proof.
  apply (cuda_tpb_bpg_1d_floor_plus_one 1000 256); [lia | lia | by vm_compute].
Defined.

(** C2 (as stated) fails beyond the 53-bit mantissa: for [x = 2^53 + 1] and
    [TPB = 1] the quotient and the sum both round to [2^53], so the result
    is neither [floor(x/TPB) + 1] nor enough blocks to cover [x]. *)
Lemma cuda_tpb_bpg_1d_rounds_above_2_53 :
  cuda_tpb_bpg_1d (2 ^ 53 + 1) 1 = Ok (2 ^ 53, 1)
  ∧ 2 ^ 53 ≠ (2 ^ 53 + 1) / 1 + 1
  ∧ 2 ^ 53 * 1 < 2 ^ 53 + 1.
Proof. by vm_compute. Qed.

End GridFacts.

(** ** Device assignment *)

Section DeviceFacts.
Local Open Scope Z_scope.

Lemma elem_of_range n i : i ∈ range n ↔ 0 ≤ i < n.
Proof.
  unfold range. rewrite list_elem_of_fmap. split.
  - intros (k & -> & Hk). apply elem_of_seq in Hk. lia.
  - intros Hi. exists (Z.to_nat i). split; [lia|]. apply elem_of_seq. lia.
Qed.

Lemma NoDup_range n : NoDup (range n).
Proof.
  unfold range. apply NoDup_fmap_2; [|apply NoDup_seq].
  intros a b. lia.
Qed.

Lemma length_range n : length (range n) = Z.to_nat n.
Proof. unfold range. by rewrite length_fmap, length_seq. Qed.

(** One round of the loop. *)
Lemma select_step n_gpus rank i_gpu p :
  n_gpus ≠ 0 →
  (r ← py_mod rank n_gpus;
   (if r =? i_gpu then select_device i_gpu else mret ());;
   barrier) p
  = (Ok (),
     {| selected := selected p ++
                    (if decide (rank mod n_gpus = i_gpu) then [i_gpu] else []);
        barriers := S (barriers p) |}).
Proof.
  intros Hn. rewrite bind_unfold. unfold py_mod.
  destruct (Z.eqb_spec n_gpus 0) as [|_]; [done|]. cbn [mret M_ret].
  rewrite bind_unfold.
  destruct (Z.eqb_spec (rank mod n_gpus) i_gpu) as [Heq|Hne].
  - by rewrite decide_True.
  - rewrite decide_False by done. cbn. by rewrite app_nil_r.
Qed.

(** The loop over any duplicate-free list of candidate devices selects the
    device [rank mod n_gpus] once if it is among them, and joins one barrier
    per candidate. *)
Lemma select_loop n_gpus rank l p :
  n_gpus ≠ 0 → NoDup l →
  for_each
    (λ i_gpu,
       r ← py_mod rank n_gpus;
       (if r =? i_gpu then select_device i_gpu else mret ());;
       barrier) l p
  = (Ok (),
     {| selected := selected p ++
                    (if decide (rank mod n_gpus ∈ l) then [rank mod n_gpus] else []);
        barriers := (barriers p + length l)%nat |}).
Proof.
  intros Hn. revert p. induction l as [|x l IH]; intros p Hnd.
  - cbn. destruct p. by rewrite app_nil_r, Nat.add_0_r.
  - apply NoDup_cons in Hnd as [Hx Hnd].
    cbn [for_each]. rewrite bind_unfold, select_step by done.
    rewrite IH by done. cbn [selected barriers length].
    do 2 f_equal; [|lia]. rewrite <- app_assoc. f_equal.
    destruct (decide (rank mod n_gpus = x)) as [<-|Hne].
    + rewrite decide_False by done. by rewrite decide_True by set_solver.
    + destruct (decide (rank mod n_gpus ∈ l)).
      * by rewrite decide_True by set_solver.
      * by rewrite decide_False by set_solver.
Qed.

Lemma mpi_select_gpus_spec n_gpus rank :
  1 ≤ n_gpus → 0 ≤ rank →
  mpi_select_gpus n_gpus rank fresh_process
  = (Ok (), {| selected := [rank mod n_gpus]; barriers := Z.to_nat n_gpus |}).
Proof.
  intros Hn Hr. unfold mpi_select_gpus.
  rewrite select_loop by (lia || apply NoDup_range).
  pose proof (Z.mod_pos_bound rank n_gpus ltac:(lia)).
  rewrite decide_True by (apply elem_of_range; lia).
  by rewrite length_range.
Qed.

Lemma assigned_device_spec n_gpus rank :
  1 ≤ n_gpus → 0 ≤ rank → assigned_device n_gpus rank = Some (rank mod n_gpus).
Proof.
  intros Hn Hr. unfold assigned_device. by rewrite mpi_select_gpus_spec.
Qed.

(** C6: for every rank [r >= 0] and device count [n_gpus >= 1],
    [mpi_select_gpus] selects exactly the device [r mod n_gpus] (one call of
    [select_device], [n_gpus] barriers); with two devices the ranks 0..4
    get the devices 0,1,0,1,0; every device is used by some rank below [P]
    when [P >= n_gpus]; and distinct ranks below [P] get distinct devices
    when [P <= n_gpus]. *)
Theorem mpi_select_gpus_round_robin (n_gpus rank : Z) :
  1 ≤ n_gpus → 0 ≤ rank →
  mpi_select_gpus n_gpus rank fresh_process
  = (Ok (), {| selected := [rank mod n_gpus]; barriers := Z.to_nat n_gpus |})
  ∧ assigned_device n_gpus rank = Some (rank mod n_gpus)
  ∧ assigned_device 2 <$> [0; 1; 2; 3; 4] = Some <$> [0; 1; 0; 1; 0]
  ∧ (∀ P d, n_gpus ≤ P → 0 ≤ d < n_gpus →
       ∃ r, 0 ≤ r < P ∧ assigned_device n_gpus r = Some d)
  ∧ (∀ P r1 r2, P ≤ n_gpus → 0 ≤ r1 < P → 0 ≤ r2 < P → r1 ≠ r2 →
       assigned_device n_gpus r1 ≠ assigned_device n_gpus r2).
Proof.
  intros Hn Hr. split; [by apply mpi_select_gpus_spec|].
  split; [by apply assigned_device_spec|].
  split; [done|]. split.
  - intros P d HP Hd. exists d. split; [lia|].
    rewrite assigned_device_spec by lia. by rewrite Z.mod_small.
  - intros P r1 r2 HP H1 H2 Hne.
    rewrite !assigned_device_spec by lia.
    rewrite !Z.mod_small by lia. congruence.
Qed.

Lemma mpi_select_gpus_round_robin_witness :
  mpi_select_gpus 2 3 fresh_process
  = (Ok (), {| selected := [3 mod 2]; barriers := Z.to_nat 2 |})
  ∧ assigned_device 2 3 = Some (3 mod 2)
  ∧ assigned_device 2 <$> [0; 1; 2; 3; 4] = Some <$> [0; 1; 0; 1; 0]
  ∧ (∀ P d, 2 ≤ P → 0 ≤ d < 2 →
       ∃ r, 0 ≤ r < P ∧ assigned_device 2 r = Some d)
  ∧ (∀ P r1 r2, P ≤ 2 → 0 ≤ r1 < P → 0 ≤ r2 < P → r1 ≠ r2 →
       assigned_device 2 r1 ≠ assigned_device 2 r2).
Proof. apply (mpi_select_gpus_round_robin 2 3); lia. Defined.

(** The loop alone raises nothing: over an empty range it selects no
    device and joins no barrier. *)
Lemma mpi_select_gpus_empty_loop (rank : Z) (p : cuda_process) :
  mpi_select_gpus 0 rank p = (Ok (), p).
Proof. done. Qed.




End DeviceFacts.

(** ** Host/device residency *)

Section ResidencyFacts.
Implicit Types (a : aggregate) (s : simulation) (l k : loc)
  (h : gmap loc aggregate).

Lemma send_to_gpu_idemp a : send_to_gpu (send_to_gpu a) = send_to_gpu a.
Proof. unfold send_to_gpu. by destruct a as [? [] ? ?]. Qed.

Lemma receive_from_gpu_idemp a :
  receive_from_gpu (receive_from_gpu a) = receive_from_gpu a.
Proof. unfold receive_from_gpu. by destruct a as [? [] ? ?]. Qed.

Lemma send_to_gpu_use_cuda a : use_cuda (send_to_gpu a) = use_cuda a.
Proof. unfold send_to_gpu. by destruct a as [? [] ? ?]. Qed.

Lemma send_to_gpu_on_gpu a : data_is_on_gpu (send_to_gpu a) = true.
Proof. unfold send_to_gpu. by destruct a as [? [] ? ?]. Qed.

Lemma receive_from_gpu_on_gpu a : data_is_on_gpu (receive_from_gpu a) = false.
Proof. unfold receive_from_gpu. by destruct a as [? [] ? ?]. Qed.

Lemma send_to_gpu_count a :
  to_device (send_to_gpu a)
  = (to_device a + if data_is_on_gpu a then 0 else 1)%nat.
Proof. unfold send_to_gpu. destruct a as [? [] ? ?]; cbn; lia. Qed.

Lemma set_species_id s : set_species (λ h, h) s = s.
Proof. by destruct s. Qed.

Lemma set_species_compose f g s :
  set_species f (set_species g s) = set_species (λ h, f (g h)) s.
Proof. done. Qed.

(** A loop that alters the objects selected by a fixed test [g], with an
    idempotent method [f]: every selected object ends up altered once, however
    often it is listed. *)
Lemma alter_loop_lookup (f : aggregate → aggregate) (g : loc → bool) L h l :
  (∀ a, f (f a) = f a) →
  foldl (λ h k, if g k then h else alter f k h) h L !! l
  = if decide (l ∈ L ∧ g l = false) then f <$> h !! l else h !! l.
Proof.
  intros Hf. revert h. induction L as [|k L IH]; intros h.
  - cbn. rewrite decide_False; [done|]. set_solver.
  - cbn [foldl]. rewrite IH.
    destruct (decide (l = k)) as [->|Hne].
    + destruct (g k) eqn:Hg.
      * rewrite !decide_False; [done|naive_solver..].
      * rewrite lookup_alter_eq.
        rewrite (decide_True (P := k ∈ k :: L ∧ _)) by set_solver.
        case_decide; [|done].
        destruct (h !! k); cbn; by rewrite ?Hf.
    + assert ((if g k then h else alter f k h) !! l = h !! l) as ->.
      { destruct (g k); [done|]. by rewrite lookup_alter_ne. }
      destruct (decide (l ∈ L ∧ g l = false)).
      * rewrite decide_True; [done|set_solver].
      * rewrite decide_False; [done|set_solver].
Qed.

(** The same for the loop of [send_data_to_gpu], whose test reads the
    object's own [use_cuda]. *)
Lemma cuda_loop_lookup (f : aggregate → aggregate) L h l :
  (∀ a, f (f a) = f a) → (∀ a, use_cuda (f a) = use_cuda a) →
  foldl (λ h k, if from_option use_cuda false (h !! k) then alter f k h else h)
        h L !! l
  = if decide (l ∈ L ∧ from_option use_cuda false (h !! l) = true)
    then f <$> h !! l else h !! l.
Proof.
  intros Hf Hu. revert h. induction L as [|k L IH]; intros h.
  - cbn. rewrite decide_False; [done|]. set_solver.
  - cbn [foldl]. rewrite IH.
    set (h' := if from_option use_cuda false (h !! k) then alter f k h else h).
    assert (from_option use_cuda false (h' !! l)
            = from_option use_cuda false (h !! l)) as Huse.
    { unfold h'. destruct (from_option use_cuda false (h !! k)); [|done].
      destruct (decide (l = k)) as [->|].
      - rewrite lookup_alter_eq. destruct (h !! k); cbn; by rewrite ?Hu.
      - by rewrite lookup_alter_ne. }
    rewrite Huse.
    destruct (decide (l = k)) as [->|Hne].
    + unfold h'. destruct (from_option use_cuda false (h !! k)) eqn:Hk.
      * rewrite lookup_alter_eq.
        rewrite (decide_True (P := k ∈ k :: L ∧ _)) by set_solver.
        case_decide; [|done].
        destruct (h !! k); cbn; by rewrite ?Hf.
      * rewrite !decide_False; [done|naive_solver..].
    + assert (h' !! l = h !! l) as ->.
      { unfold h'. destruct (from_option use_cuda false (h !! k)); [|done].
        by rewrite lookup_alter_ne. }
      destruct (decide (l ∈ L ∧ from_option use_cuda false (h !! l) = true)).
      * rewrite decide_True; [done|set_solver].
      * rewrite decide_False; [done|set_solver].
Qed.

(** The loops over the simulation act on its species store only. *)
Lemma send_loop_species (f : aggregate → aggregate) L s :
  foldl (λ s l, if species_use_cuda s l then set_species (alter f l) s else s) s L
  = set_species
      (λ h, foldl (λ h k, if from_option use_cuda false (h !! k)
                          then alter f k h else h) h L) s.
Proof.
  revert s. induction L as [|k L IH]; intros s; cbn [foldl].
  - by rewrite set_species_id.
  - rewrite IH. unfold species_use_cuda.
    destruct (from_option use_cuda false (species s !! k)) eqn:Hk.
    + rewrite set_species_compose. unfold set_species. cbn. by rewrite Hk.
    + unfold set_species. cbn. by rewrite Hk.
Qed.

Lemma guard_loop_species (f : aggregate → aggregate) (g : loc → bool) L s :
  foldl (λ s l, if g l then s else set_species (alter f l) s) s L
  = set_species (λ h, foldl (λ h k, if g k then h else alter f k h) h L) s.
Proof.
  revert s. induction L as [|k L IH]; intros s; cbn [foldl].
  - by rewrite set_species_id.
  - rewrite IH. destruct (g k); [done|]. by rewrite set_species_compose.
Qed.

Lemma send_data_to_gpu_lookup s l :
  species (send_data_to_gpu s) !! l
  = if decide (l ∈ ptcl s ∧ species_use_cuda s l = true)
    then send_to_gpu <$> species s !! l else species s !! l.
Proof.
  unfold send_data_to_gpu, send_particles_to_gpu.
  rewrite send_loop_species. cbn.
  apply cuda_loop_lookup; [apply send_to_gpu_idemp|apply send_to_gpu_use_cuda].
Qed.

Lemma send_data_to_gpu_frame s :
  sim_use_cuda (send_data_to_gpu s) = sim_use_cuda s
  ∧ ptcl (send_data_to_gpu s) = ptcl s
  ∧ fld (send_data_to_gpu s) = send_to_gpu (fld s).
Proof.
  unfold send_data_to_gpu, send_particles_to_gpu.
  by rewrite send_loop_species.
Qed.

Lemma send_data_to_gpu_use_cuda s l :
  species_use_cuda (send_data_to_gpu s) l = species_use_cuda s l.
Proof.
  unfold species_use_cuda at 1. rewrite send_data_to_gpu_lookup.
  case_decide; [|done]. unfold species_use_cuda.
  destruct (species s !! l); cbn; by rewrite ?send_to_gpu_use_cuda.
Qed.

Lemma simulation_eq s s' :
  sim_use_cuda s = sim_use_cuda s' → fld s = fld s' → ptcl s = ptcl s' →
  (∀ l, species s !! l = species s' !! l) → s = s'.
Proof.
  destruct s, s'; cbn. intros -> -> -> Hs. f_equal. by apply map_eq.
Qed.

(** C5 (as amended): after one call of [send_data_to_gpu] the field
    structure and every listed species whose [use_cuda] is set are on the
    device, each having made one transfer if it was on the host and none if
    it was already resident; a species whose [use_cuda] is unset, or that is
    not listed, is left as it was; and a second call in a row changes
    nothing, so it makes no transfer at all. *)
Theorem send_data_to_gpu_twice (s : simulation) :
  send_data_to_gpu (send_data_to_gpu s) = send_data_to_gpu s
  ∧ data_is_on_gpu (fld (send_data_to_gpu s)) = true
  ∧ to_device (fld (send_data_to_gpu s))
    = (to_device (fld s) + if data_is_on_gpu (fld s) then 0 else 1)%nat
  ∧ (∀ l a, species s !! l = Some a → l ∈ ptcl s → use_cuda a = true →
       ∃ a', species (send_data_to_gpu s) !! l = Some a'
             ∧ data_is_on_gpu a' = true
             ∧ to_device a'
               = (to_device a + if data_is_on_gpu a then 0 else 1)%nat)
  ∧ (∀ l a, species s !! l = Some a → l ∉ ptcl s ∨ use_cuda a = false →
       species (send_data_to_gpu s) !! l = Some a).
Proof.
  destruct (send_data_to_gpu_frame s) as (Hu & Hp & Hf).
  destruct (send_data_to_gpu_frame (send_data_to_gpu s)) as (Hu' & Hp' & Hf').
  split; [|split; [|split; [|split]]].
  - apply simulation_eq.
    + done.
    + by rewrite Hf', Hf, send_to_gpu_idemp.
    + done.
    + intros l. rewrite send_data_to_gpu_lookup at 1.
      rewrite Hp, send_data_to_gpu_use_cuda.
      case_decide as Hc; [|done].
      rewrite send_data_to_gpu_lookup, decide_True by done.
      destruct (species s !! l); cbn; by rewrite ?send_to_gpu_idemp.
  - rewrite Hf. apply send_to_gpu_on_gpu.
  - rewrite Hf. apply send_to_gpu_count.
  - intros l a Hl Hin Ha. exists (send_to_gpu a).
    rewrite send_data_to_gpu_lookup, decide_True, Hl.
    + by rewrite send_to_gpu_on_gpu, send_to_gpu_count.
    + split; [done|]. unfold species_use_cuda. by rewrite Hl.
  - intros l a Hl Hor. rewrite send_data_to_gpu_lookup, decide_False; [done|].
    unfold species_use_cuda. rewrite Hl. cbn. intros [? ?].
    destruct Hor; congruence.
Qed.

(** *** The context manager *)

(** When the recorded list lines up with the species listed, the loop of
    [__enter__] or [__exit__] does not raise and acts on the species
    recorded as host-resident. *)
Lemma guard_loop (act : loc → simulation → simulation) (g : loc → bool)
    (were : list bool) (i : nat) (L : list loc) s :
  (∀ j l, L !! j = Some l → were !! (i + j)%nat = Some (g l)) →
  for_enumerate
    (λ i l, w ← getitem were i; if negb w then modify (act l) else mret ())
    i L s
  = (Ok (), foldl (λ s l, if g l then s else act l s) s L).
Proof.
  revert i s. induction L as [|l L IH]; intros i s Hwere; [done|].
  cbn [for_enumerate foldl]. rewrite !bind_unfold. unfold getitem.
  pose proof (Hwere 0%nat l eq_refl) as H0. rewrite Nat.add_0_r in H0.
  rewrite H0. cbn [mret M_ret].
  assert (∀ j l', L !! j = Some l' → were !! (S i + j)%nat = Some (g l')) as HS.
  { intros j l' Hj. replace (S i + j)%nat with (i + S j)%nat by lia.
    by apply Hwere. }
  destruct (g l); cbn [negb modify mret M_ret]; by apply IH.
Qed.

(** With at least as many recorded flags as listed species the loop does
    not raise. *)
Lemma guard_loop_returns (act : loc → simulation → simulation)
    (were : list bool) (i : nat) (L : list loc) s :
  (i + length L ≤ length were)%nat →
  ∃ s', for_enumerate
          (λ i l, w ← getitem were i; if negb w then modify (act l) else mret ())
          i L s
        = (Ok (), s').
Proof.
  revert i s. induction L as [|l L IH]; intros i s Hlen; [by eexists|].
  cbn [for_enumerate]. rewrite !bind_unfold. unfold getitem.
  cbn [length] in Hlen.
  destruct (lookup_lt_is_Some_2 were i ltac:(lia)) as [w ->].
  cbn [mret M_ret].
  destruct w; cbn [negb modify mret M_ret]; apply IH; lia.
Qed.

Lemma init_lines_up s j l :
  ptcl s !! j = Some l →
  GpuMemoryManager.species_were_on_gpu (GpuMemoryManager.__init__ s) !! (0 + j)%nat
  = Some (species_on_gpu s l).
Proof. intros Hj. cbn. by rewrite list_lookup_fmap, Hj. Qed.

Lemma enter_spec s :
  GpuMemoryManager.__enter__ (GpuMemoryManager.__init__ s) s
  = (Ok (),
     if sim_use_cuda s then
       foldl (λ s' l, if species_on_gpu s l then s'
                      else send_particles_to_gpu l s')
             (if data_is_on_gpu (fld s) then s else send_fields_to_gpu s)
             (ptcl s)
     else s).
Proof.
  unfold GpuMemoryManager.__enter__. rewrite bind_unfold. cbn [get].
  destruct (sim_use_cuda s); [|done].
  rewrite bind_unfold. cbn [GpuMemoryManager.fields_were_on_gpu
    GpuMemoryManager.__init__].
  destruct (data_is_on_gpu (fld s)); cbn [negb modify mret M_ret];
    apply guard_loop, init_lines_up.
Qed.

Lemma exit_spec s0 s exc :
  ptcl s = ptcl s0 →
  GpuMemoryManager.__exit__ (GpuMemoryManager.__init__ s0) exc s
  = (Ok PyNone,
     if sim_use_cuda s then
       foldl (λ s' l, if species_on_gpu s0 l then s'
                      else receive_particles_from_gpu l s')
             (if data_is_on_gpu (fld s0) then s else receive_fields_from_gpu s)
             (ptcl s)
     else s).
Proof.
  intros Hp. unfold GpuMemoryManager.__exit__. rewrite bind_unfold. cbn [get].
  rewrite bind_unfold.
  destruct (sim_use_cuda s); [|done].
  rewrite bind_unfold. cbn [GpuMemoryManager.fields_were_on_gpu
    GpuMemoryManager.__init__].
  destruct (data_is_on_gpu (fld s0)); cbn [negb modify mret M_ret];
    (rewrite guard_loop with (g := species_on_gpu s0);
     [done|rewrite Hp; apply init_lines_up]).
Qed.

(** [__exit__] has no [return]: whenever it completes, it returns [None]. *)
Lemma exit_returns_None mgr exc s v s' :
  GpuMemoryManager.__exit__ mgr exc s = (Ok v, s') → v = PyNone.
Proof.
  unfold GpuMemoryManager.__exit__. rewrite bind_unfold. cbn [get].
  rewrite bind_unfold.
  match goal with |- context [match ?m s with _ => _ end] =>
    destruct (m s) as [[[]|e] s'']
  end; cbn; intros [=]; congruence.
Qed.

Lemma exit_returns s0 s exc :
  length (ptcl s) ≤ length (ptcl s0) →
  ∃ s', GpuMemoryManager.__exit__ (GpuMemoryManager.__init__ s0) exc s
        = (Ok PyNone, s').
Proof.
  intros Hlen. unfold GpuMemoryManager.__exit__. rewrite bind_unfold. cbn [get].
  rewrite bind_unfold.
  destruct (sim_use_cuda s); [|by eexists].
  rewrite bind_unfold.
  destruct (negb _); cbn [modify mret M_ret].
  - edestruct guard_loop_returns as [s' ->]; [|by eexists].
    cbn. rewrite length_fmap. unfold receive_fields_from_gpu. cbn. lia.
  - edestruct guard_loop_returns as [s' ->]; [|by eexists].
    cbn. rewrite length_fmap. lia.
Qed.

Lemma residency_inv s s' :
  residency s = residency s' →
  sim_use_cuda s = sim_use_cuda s'
  ∧ data_is_on_gpu (fld s) = data_is_on_gpu (fld s')
  ∧ ptcl s = ptcl s'
  ∧ ∀ l, data_is_on_gpu <$> species s !! l = data_is_on_gpu <$> species s' !! l.
Proof.
  unfold residency. intros [= Hu Hf Hp Hs]. repeat split; try done.
  intros l. by rewrite <- !lookup_fmap, Hs.
Qed.

Lemma residency_eq s s' :
  sim_use_cuda s = sim_use_cuda s' →
  data_is_on_gpu (fld s) = data_is_on_gpu (fld s') →
  ptcl s = ptcl s' →
  (∀ l, data_is_on_gpu <$> species s !! l = data_is_on_gpu <$> species s' !! l) →
  residency s = residency s'.
Proof.
  intros Hu Hf Hp Hs. unfold residency. rewrite Hu, Hf, Hp. f_equal.
  apply map_eq. intros l. by rewrite !lookup_fmap.
Qed.

(** What the guard leaves behind: if the body, started in the state
    [__enter__] produced, ends in [s2] with the residency it started with,
    then [__exit__] completes from [s2], in a state that has the residency
    of the state before [__enter__]. *)
Lemma exit_after_enter s s2 exc :
  residency s2
  = residency (GpuMemoryManager.__enter__ (GpuMemoryManager.__init__ s) s).2 →
  ∃ s3,
    GpuMemoryManager.__exit__ (GpuMemoryManager.__init__ s) exc s2 = (Ok PyNone, s3)
    ∧ residency s3 = residency s.
Proof.
  rewrite enter_spec. cbn [snd]. intros Hres.
  destruct (sim_use_cuda s) eqn:Hcuda.
  - unfold send_particles_to_gpu in Hres. rewrite guard_loop_species in Hres.
    apply residency_inv in Hres as (Hu & Hf & Hp & Hs).
    assert (sim_use_cuda s2 = true ∧ ptcl s2 = ptcl s) as [Hu2 Hp2]
      by (destruct (data_is_on_gpu (fld s)); cbn in *; split; congruence).
    eexists. split; [by apply exit_spec|]. rewrite Hu2, Hp2.
    unfold receive_particles_from_gpu. rewrite guard_loop_species.
    apply residency_eq.
    + by destruct (data_is_on_gpu (fld s)).
    + destruct (data_is_on_gpu (fld s)) eqn:Hfld; cbn in *; [congruence|].
      by rewrite receive_from_gpu_on_gpu.
    + by destruct (data_is_on_gpu (fld s)).
    + intros l. specialize (Hs l).
      assert (species (if data_is_on_gpu (fld s) then s2
                       else receive_fields_from_gpu s2) = species s2) as Hsp2
        by (by destruct (data_is_on_gpu (fld s))).
      assert (species (if data_is_on_gpu (fld s) then s
                       else send_fields_to_gpu s) = species s) as Hsp
        by (by destruct (data_is_on_gpu (fld s))).
      cbn [set_species species] in *. rewrite Hsp2. rewrite Hsp in Hs.
      rewrite alter_loop_lookup by apply receive_from_gpu_idemp.
      rewrite alter_loop_lookup in Hs by apply send_to_gpu_idemp.
      case_decide as Hc; [|done].
      destruct Hc as [_ Hg]. unfold species_on_gpu in Hg.
      destruct (species s !! l) as [a|], (species s2 !! l) as [a2|];
        cbn in *; try done.
      by rewrite receive_from_gpu_on_gpu, Hg.
  - apply residency_inv in Hres as (Hu & Hf & Hp & Hs).
    eexists. split; [by apply exit_spec|].
    rewrite Hu, Hcuda. by apply residency_eq.
Qed.

(** C4: for every simulation, whatever the residency flags of its field
    structure and species, and every guarded body that leaves residency as
    it finds it, whether it returns or raises, the [with GpuMemoryManager]
    statement ends in a state whose residency flags are those before the
    statement. *)
Theorem guard_restores_residency (s : simulation) (body : M simulation unit) :
  (∀ s1, residency (body s1).2 = residency s1) →
  residency (with_GpuMemoryManager body s).2 = residency s.
Proof.
  intros Hbody. unfold with_GpuMemoryManager, with_statement.
  destruct (GpuMemoryManager.__enter__ _ s) as [r1 s1] eqn:Henter.
  assert (r1 = Ok ()) as -> by (rewrite enter_spec in Henter; congruence).
  specialize (Hbody s1). destruct (body s1) as [r2 s2]. cbn [snd] in Hbody.
  assert (s1 = (GpuMemoryManager.__enter__ (GpuMemoryManager.__init__ s) s).2)
    as Hs1 by (by rewrite Henter).
  rewrite Hs1 in Hbody.
  destruct r2 as [[]|e].
  - destruct (exit_after_enter s s2 None Hbody) as (s3 & -> & Hres). done.
  - destruct (exit_after_enter s s2 (Some e) Hbody) as (s3 & -> & Hres). done.
Qed.

Lemma guard_restores_residency_witness :
  residency (with_GpuMemoryManager failing_body sample_simulation).2
  = residency sample_simulation.
Proof.
  apply (guard_restores_residency sample_simulation failing_body).
  intros s1. reflexivity.
Defined.

(** *** What the release moves *)

(** The loop of [__exit__] over a species list that the recorded flags
    cover: it completes, leaves everything but the species store alone, and
    has applied the receiving method to exactly the objects listed at a
    position whose flag is false. *)
Lemma release_loop (f : aggregate → aggregate) (were : list bool) :
  (∀ a, f (f a) = f a) →
  ∀ (L : list loc) (i : nat) s,
    (i + length L ≤ length were)%nat →
    ∃ s',
      for_enumerate
        (λ i l, w ← getitem were i;
                if negb w then modify (set_species (alter f l)) else mret ())
        i L s
      = (Ok (), s')
      ∧ sim_use_cuda s' = sim_use_cuda s ∧ fld s' = fld s ∧ ptcl s' = ptcl s
      ∧ ∀ l,
          ((∃ j, L !! j = Some l ∧ were !! (i + j)%nat = Some false)
           ∧ species s' !! l = f <$> species s !! l)
          ∨ ((∀ j, L !! j = Some l → were !! (i + j)%nat = Some true)
             ∧ species s' !! l = species s !! l).
Proof.
  intros Hf. induction L as [|x L IH]; intros i s Hlen.
  { exists s. repeat split; try done. intros l. right. by split. }
  cbn [length] in Hlen. cbn [for_enumerate]. rewrite !bind_unfold.
  unfold getitem.
  destruct (lookup_lt_is_Some_2 were i ltac:(lia)) as [w Hw]. rewrite Hw.
  cbn [mret M_ret].
  destruct w; cbn [negb modify mret M_ret].
  - destruct (IH (S i) s ltac:(lia)) as (s' & Hrun & Hu & Hfl & Hp & Hsp).
    exists s'. repeat split; try done.
    intros l. destruct (Hsp l) as [[(j & Hj & Hwj) Hl]|[Hall Hl]].
    + left. split; [|done]. exists (S j). split; [done|].
      by replace (i + S j)%nat with (S i + j)%nat by lia.
    + right. split; [|done]. intros [|j] Hj.
      * by rewrite Nat.add_0_r.
      * replace (i + S j)%nat with (S i + j)%nat by lia. by apply Hall.
  - destruct (IH (S i) (set_species (alter f x) s) ltac:(lia))
      as (s' & Hrun & Hu & Hfl & Hp & Hsp).
    exists s'. repeat split; try done.
    intros l. cbn [set_species species] in Hsp.
    destruct (decide (l = x)) as [->|Hne].
    + left. split; [exists 0%nat; by rewrite Nat.add_0_r|].
      destruct (Hsp x) as [[_ Hl]|[_ Hl]]; rewrite Hl, lookup_alter_eq.
      * destruct (species s !! x); cbn; by rewrite ?Hf.
      * done.
    + destruct (Hsp l) as [[(j & Hj & Hwj) Hl]|[Hall Hl]];
        rewrite lookup_alter_ne in Hl by done.
      * left. split; [|done]. exists (S j). split; [done|].
        by replace (i + S j)%nat with (S i + j)%nat by lia.
      * right. split; [|done]. intros [|j] Hj.
        -- cbn in Hj. congruence.
        -- replace (i + S j)%nat with (S i + j)%nat by lia. by apply Hall.
Qed.

(** [__exit__] is [exit_with] at the transfers that always complete. *)
Lemma exit_with_transfers mgr exc :
  GpuMemoryManager.__exit__ mgr exc
  = exit_with (modify receive_fields_from_gpu)
      (λ l, modify (receive_particles_from_gpu l)) mgr exc.
Proof. done. Qed.

(** Whatever the receiving methods do, an [__exit__] that completes returns
    [None]. *)
Lemma exit_with_returns_None receive_fields receive_particles mgr exc s v s' :
  exit_with receive_fields receive_particles mgr exc s = (Ok v, s') → v = PyNone.
Proof.
  unfold exit_with. rewrite bind_unfold. cbn [get].
  rewrite bind_unfold.
  match goal with |- context [match ?m s with _ => _ end] =>
    destruct (m s) as [[[]|e] s'']
  end; cbn; intros [=]; congruence.
Qed.

(** C10 (as amended): when the guarded body raises and the species list is
    no longer than it was at construction, [__exit__] completes, returning
    [None]: on a CUDA simulation it has received back the field structure
    if that was recorded as host-resident, and exactly the species listed
    at a position recorded as host-resident, and left the rest as the body
    left it (on another simulation it has moved nothing); if the body had
    kept the residency set up on entry, residency is now what it was before
    the guard; and the [with] statement raises the body's own exception
    from that state.  No [__exit__] that completes returns a true value,
    whatever the receiving methods; and if a receiving method raises, the
    [with] statement raises that exception in place of the body's. *)
Theorem guard_propagates_error (s : simulation) (body : M simulation unit)
    (e : exception) (s2 : simulation) :
  body (GpuMemoryManager.__enter__ (GpuMemoryManager.__init__ s) s).2
  = (Raise e, s2) →
  length (ptcl s2) ≤ length (ptcl s) →
  (∃ s3,
     GpuMemoryManager.__exit__ (GpuMemoryManager.__init__ s) (Some e) s2
     = (Ok PyNone, s3)
     ∧ with_GpuMemoryManager body s = (Raise e, s3)
     ∧ (sim_use_cuda s2 = false → s3 = s2)
     ∧ (sim_use_cuda s2 = true →
          sim_use_cuda s3 = true
          ∧ ptcl s3 = ptcl s2
          ∧ fld s3 = (if data_is_on_gpu (fld s) then fld s2
                      else receive_from_gpu (fld s2))
          ∧ (∀ i l, ptcl s2 !! i = Some l →
               species_on_gpu s <$> ptcl s !! i = Some false →
               species s3 !! l = receive_from_gpu <$> species s2 !! l)
          ∧ (∀ l, (∀ i, ptcl s2 !! i = Some l →
                        species_on_gpu s <$> ptcl s !! i = Some true) →
               species s3 !! l = species s2 !! l))
     ∧ (residency s2
        = residency (GpuMemoryManager.__enter__ (GpuMemoryManager.__init__ s) s).2 →
        residency s3 = residency s))
  ∧ (∀ receive_fields receive_particles mgr exc s v s',
       exit_with receive_fields receive_particles mgr exc s = (Ok v, s') →
       truthy v = false)
  ∧ (∀ receive_fields receive_particles e' s3,
       exit_with receive_fields receive_particles (GpuMemoryManager.__init__ s)
         (Some e) s2 = (Raise e', s3) →
       with_statement (GpuMemoryManager.__enter__ (GpuMemoryManager.__init__ s))
         (exit_with receive_fields receive_particles (GpuMemoryManager.__init__ s))
         body s
       = (Raise e', s3))
  ∧ GpuMemoryManager.__exit__ (GpuMemoryManager.__init__ s)
    = exit_with (modify receive_fields_from_gpu)
        (λ l, modify (receive_particles_from_gpu l)) (GpuMemoryManager.__init__ s).
Proof.
  intros Hbody Hlen. split; [|split; [|split]].
  - set (mgr := GpuMemoryManager.__init__ s).
    set (base := if negb (GpuMemoryManager.fields_were_on_gpu mgr)
                 then receive_fields_from_gpu s2 else s2).
    destruct (release_loop receive_from_gpu
                (GpuMemoryManager.species_were_on_gpu mgr)
                receive_from_gpu_idemp (ptcl s2) 0 base)
      as (s3 & Hloop & Hu & Hf & Hp & Hsp).
    { unfold mgr, base. cbn. rewrite length_fmap.
      destruct (negb _); cbn; lia. }
    assert (GpuMemoryManager.__exit__ mgr (Some e) s2
            = (Ok PyNone, if sim_use_cuda s2 then s3 else s2)) as Hexit.
    { unfold GpuMemoryManager.__exit__. rewrite bind_unfold. cbn [get].
      rewrite bind_unfold.
      destruct (sim_use_cuda s2); [|done].
      rewrite bind_unfold. unfold receive_particles_from_gpu.
      assert (ptcl base = ptcl s2) as Hpb by (unfold base; by destruct (negb _)).
      unfold base in Hloop, Hpb.
      destruct (negb (GpuMemoryManager.fields_were_on_gpu mgr));
        cbn [modify mret M_ret]; by rewrite Hloop. }
    exists (if sim_use_cuda s2 then s3 else s2).
    split; [exact Hexit|]. split; [|split; [|split]].
    + unfold with_GpuMemoryManager, with_statement. cbv zeta.
      unfold mgr in Hexit.
      rewrite enter_spec in *. cbn [snd] in Hbody. by rewrite Hbody, Hexit.
    + by intros ->.
    + intros Hcuda. rewrite Hcuda.
      assert (sim_use_cuda base = sim_use_cuda s2 ∧ ptcl base = ptcl s2
              ∧ species base = species s2
              ∧ fld base = (if data_is_on_gpu (fld s) then fld s2
                            else receive_from_gpu (fld s2)))
        as (Hub & Hpb & Hsb & Hfb).
      { unfold base, mgr. cbn. by destruct (data_is_on_gpu (fld s)). }
      split; [congruence|]. split; [congruence|]. split; [congruence|].
      rewrite Hsb in Hsp. unfold mgr in Hsp. cbn in Hsp.
      split.
      * intros i l Hi Hwere. rewrite <- list_lookup_fmap in Hwere.
        destruct (Hsp l) as [[_ Hl]|[Hall _]]; [done|].
        specialize (Hall i Hi). cbn in Hall. congruence.
      * intros l Hall.
        destruct (Hsp l) as [[(j & Hj & Hwj) _]|[_ Hl]]; [|done].
        specialize (Hall j Hj). rewrite <- list_lookup_fmap in Hall.
        cbn in Hwj. congruence.
    + intros Hres.
      destruct (exit_after_enter s s2 (Some e) Hres) as (s3' & Hexit' & Hres').
      fold mgr in Hexit'. rewrite Hexit in Hexit'. by injection Hexit' as ->.
  - intros receive_fields receive_particles mgr exc s0 v s' Hexit.
    by rewrite (exit_with_returns_None _ _ _ _ _ _ _ Hexit).
  - intros receive_fields receive_particles e' s3 Hexit.
    unfold with_statement. rewrite enter_spec in *. cbn [snd] in Hbody.
    by rewrite Hbody, Hexit.
  - done.
Qed.

Lemma guard_propagates_error_witness :
  let s := sample_simulation in
  let e := ValueError "diagnostic failed" in
  let s2 := (GpuMemoryManager.__enter__ (GpuMemoryManager.__init__ s) s).2 in
  (∃ s3,
     GpuMemoryManager.__exit__ (GpuMemoryManager.__init__ s) (Some e) s2
     = (Ok PyNone, s3)
     ∧ with_GpuMemoryManager failing_body s = (Raise e, s3)
     ∧ (sim_use_cuda s2 = false → s3 = s2)
     ∧ (sim_use_cuda s2 = true →
          sim_use_cuda s3 = true
          ∧ ptcl s3 = ptcl s2
          ∧ fld s3 = (if data_is_on_gpu (fld s) then fld s2
                      else receive_from_gpu (fld s2))
          ∧ (∀ i l, ptcl s2 !! i = Some l →
               species_on_gpu s <$> ptcl s !! i = Some false →
               species s3 !! l = receive_from_gpu <$> species s2 !! l)
          ∧ (∀ l, (∀ i, ptcl s2 !! i = Some l →
                        species_on_gpu s <$> ptcl s !! i = Some true) →
               species s3 !! l = species s2 !! l))
     ∧ (residency s2
        = residency (GpuMemoryManager.__enter__ (GpuMemoryManager.__init__ s) s).2 →
        residency s3 = residency s))
  ∧ (∀ receive_fields receive_particles mgr exc s v s',
       exit_with receive_fields receive_particles mgr exc s = (Ok v, s') →
       truthy v = false)
  ∧ (∀ receive_fields receive_particles e' s3,
       exit_with receive_fields receive_particles (GpuMemoryManager.__init__ s)
         (Some e) s2 = (Raise e', s3) →
       with_statement (GpuMemoryManager.__enter__ (GpuMemoryManager.__init__ s))
         (exit_with receive_fields receive_particles (GpuMemoryManager.__init__ s))
         failing_body s
       = (Raise e', s3))
  ∧ GpuMemoryManager.__exit__ (GpuMemoryManager.__init__ s)
    = exit_with (modify receive_fields_from_gpu)
        (λ l, modify (receive_particles_from_gpu l)) (GpuMemoryManager.__init__ s).
Proof.
  intros s e s2.
  apply (guard_propagates_error s failing_body e s2).
  - reflexivity.
  - vm_compute. lia.
Defined.

(** C10 (as stated) fails when the body adds a species before it raises:
    [__exit__] indexes the recorded flags past their end, and the [with]
    statement raises that [IndexError] in place of the body's exception;
    it fails likewise when a transfer back from the device raises. *)
Lemma guard_replaces_error_of_growing_body :
  let s1 := (GpuMemoryManager.__enter__ (GpuMemoryManager.__init__ host_simulation)
               host_simulation).2 in
  (growing_failing_body s1).1 = Raise (ValueError "diagnostic failed")
  ∧ (with_GpuMemoryManager growing_failing_body host_simulation).1
    = Raise (IndexError "list index out of range")
  ∧ (failing_body s1).1 = Raise (ValueError "diagnostic failed")
  ∧ (with_statement
       (GpuMemoryManager.__enter__ (GpuMemoryManager.__init__ host_simulation))
       (exit_with failing_receive (λ _, failing_receive)
          (GpuMemoryManager.__init__ host_simulation))
       failing_body host_simulation).1
    = Raise (ExternalError "cupy" "cudaErrorIllegalAddress").
Proof. by vm_compute. Qed.

(** C5 (as stated) fails on a species that does not use CUDA: it is listed
    and on the host, yet the call neither transfers it nor sets its flag. *)
Lemma send_data_to_gpu_skips_cpu_species :
  ptcl sample_simulation !! 2%nat = Some 3%positive
  ∧ data_is_on_gpu <$> species sample_simulation !! 3%positive = Some false
  ∧ data_is_on_gpu <$> species (send_data_to_gpu sample_simulation) !! 3%positive
    = Some false
  ∧ to_device <$> species (send_data_to_gpu sample_simulation) !! 3%positive
    = Some 0.
Proof. by vm_compute. Qed.

End ResidencyFacts.

(** ** [Simulation.deposit] *)

Section DepositFacts.

(** C9: for every [fieldtype] other than ['rho_prev'], ['rho_next'] and
    ['J'], [deposit] raises [ValueError] with the state it was called in,
    whatever the collaborating objects would do: no operation is dispatched
    to them. *)
Theorem deposit_unknown_fieldtype {field_state : Type}
    (perform : operation → M field_state unit) (n_species n_antennas : nat)
    (filter_currents : bool) (fieldtype : string) (st : field_state) :
  fieldtype ≠ "rho_prev" → fieldtype ≠ "rho_next" → fieldtype ≠ "J" →
  deposit perform n_species n_antennas filter_currents fieldtype st
  = (Raise (ValueError ("Unknown fieldtype: " +:+ fieldtype)), st)
  ∧ dispatched n_species n_antennas filter_currents fieldtype = [].
Proof.
  intros H1 H2 H3.
  assert (∀ {fs : Type} (pf : operation → M fs unit) (x : fs),
            deposit pf n_species n_antennas filter_currents fieldtype x
            = (Raise (ValueError ("Unknown fieldtype: " +:+ fieldtype)), x))
    as Hraise.
  { intros fs pf x. unfold deposit. rewrite bind_unfold.
    rewrite decide_False by (intros [?|?]; done).
    by rewrite decide_False. }
  split; [apply Hraise|].
  unfold dispatched. by rewrite Hraise.
Qed.

Lemma deposit_unknown_fieldtype_witness :
  deposit record_operation 2 1 true "E" []
  = (Raise (ValueError ("Unknown fieldtype: " +:+ "E")), [])
  ∧ dispatched 2 1 true "E" = [].
Proof. apply (deposit_unknown_fieldtype record_operation 2 1 true "E" []); done. Defined.

End DepositFacts.

(** ** Argument marshalling and the kernel cache *)

Section MarshallingFacts.
Local Open Scope Z_scope.

Lemma elem_of_concat {A} (x : A) (ls : list (list A)) :
  x ∈ concat ls ↔ ∃ l, x ∈ l ∧ l ∈ ls.
Proof.
  induction ls as [|l ls IH]; cbn [concat].
  - split; [by intros ?%elem_of_nil|]. by intros (l & _ & ?%elem_of_nil).
  - rewrite elem_of_app, IH. split.
    + intros [?|(l' & ? & ?)]; [exists l|exists l']; set_solver.
    + intros (l' & Hx & [->|?]%elem_of_cons); [by left|right; eauto].
Qed.

Lemma kernel_args_from (acc : list pyvalue) (args : list pyvalue) :
  foldl (λ kernel_args a,
           match a with
           | VArray arr =>
               kernel_args ++
                 ([VInt 0; VInt 0; VInt (array_size arr);
                   VInt (itemsize (array_dtype arr)); VArray arr]
                  ++ (VInt <$> shape arr) ++ (VInt <$> strides arr))
           | _ => kernel_args ++ [a]
           end)
        acc args
  = acc ++ concat (marshalled <$> args).
Proof.
  revert acc. induction args as [|a args IH]; intros acc; cbn [foldl].
  - cbn. by rewrite app_nil_r.
  - rewrite IH. cbn [fmap list_fmap concat]. rewrite app_assoc.
    by destruct a.
Qed.

Lemma kernel_args_concat args : kernel_args args = concat (marshalled <$> args).
Proof. unfold kernel_args. by rewrite kernel_args_from. Qed.

Lemma arg_types_from (acc : list type_entry) (args : list pyvalue) :
  foldl (λ types a,
           match a with
           | VArray arr => (types ++ [EDtype (array_dtype arr)]) ++ [ENdim (ndim arr)]
           | _ => types ++ [EType (type_of a)]
           end)
        acc args
  = acc ++ signature_types (signature args).
Proof.
  revert acc. induction args as [|a args IH]; intros acc; cbn [foldl].
  - cbn. by rewrite app_nil_r.
  - rewrite IH. unfold signature_types, signature.
    cbn [fmap list_fmap concat]. rewrite (app_assoc acc).
    destruct a; try done. cbn. by rewrite <- !app_assoc.
Qed.

(** The hashed tuple is a function of the signature. *)
Lemma arg_types_signature args : arg_types args = signature_types (signature args).
Proof. unfold arg_types. by rewrite arg_types_from. Qed.

Lemma elem_of_marshalled_array arr a : VArray arr ∈ marshalled a ↔ a = VArray arr.
Proof.
  destruct a as [| | | | |arr']; cbn; rewrite ?list_elem_of_singleton; try done.
  rewrite !elem_of_cons, elem_of_app, !list_elem_of_fmap. split.
  - intros [?|[?|[?|[?|[?|[(?&?&?)|(?&?&?)]]]]]]; congruence.
  - intros [= ->]. auto 10.
Qed.

End MarshallingFacts.

Lemma size_fresh_hash (k : Z) (X D : gset Z) :
  k ∉ D → size (({[k]} ∪ X) ∖ D) = S (size (X ∖ ({[k]} ∪ D))).
Proof.
  intros Hk.
  assert (({[k]} ∪ X) ∖ D = {[k]} ∪ X ∖ ({[k]} ∪ D)) as ->.
  { apply set_eq. intros j. destruct (decide (j = k)); set_solver. }
  rewrite size_union by set_solver. by rewrite size_singleton.
Qed.

Lemma size_known_hash (k : Z) (X D : gset Z) :
  k ∈ D → size (({[k]} ∪ X) ∖ D) = size (X ∖ ({[k]} ∪ D)).
Proof. intros Hk. f_equal. set_solver. Qed.

Lemma size_two_hashes (k1 k2 : Z) : k1 ≠ k2 → size ({[k1; k2]} : gset Z) = 2.
Proof.
  intros Hne. rewrite size_union by set_solver. by rewrite !size_singleton.
Qed.

Section CacheFacts.

Context {kernel_code memory : Type}.
Variable py_hash : list type_entry → Z.
Variable jit_specialize : list pyvalue → result kernel_code.
Variable run_kernel :
  kernel_code → geometry → list pyvalue → memory → result memory.

Local Abbreviation hash_of := (get_args_hash py_hash).
Local Abbreviation call := (call_kernel py_hash jit_specialize run_kernel).
Local Abbreviation run_calls := (call_sequence py_hash jit_specialize run_kernel).
Local Abbreviation launch_on := (launch run_kernel).

Implicit Types (self : @compile_cupy kernel_code memory).

Lemma same_signature_same_hash args1 args2 :
  signature args1 = signature args2 → hash_of args1 = hash_of args2.
Proof.
  intros Hsig. unfold get_args_hash.
  by rewrite !arg_types_signature, Hsig.
Qed.

(** A launch through a cached handle: the handle is taken from the
    dictionary, which is left as it is, and the kernel runs on the device
    memory. *)
Lemma launch_cached hash bt kargs self h :
  kernel_dict self !! hash = Some h →
  launch_on hash bt kargs self
  = match run_kernel (handle_code h) bt kargs (device_memory self) with
    | Raise e =>
        (Raise e, {| kernel_dict := kernel_dict self;
                     compilations := compilations self;
                     modules := modules self;
                     launches := launches self ++ [(h, bt, kargs)];
                     device_memory := device_memory self |})
    | Ok m =>
        (Ok (), {| kernel_dict := kernel_dict self;
                   compilations := compilations self;
                   modules := modules self;
                   launches := launches self ++ [(h, bt, kargs)];
                   device_memory := m |})
    end.
Proof. intros Hh. unfold launch. by rewrite Hh. Qed.

(** A call whose hash is in the dictionary compiles nothing. *)
Lemma call_kernel_hit bt args self h :
  kernel_dict self !! hash_of args = Some h →
  call bt args self
  = launch_on (hash_of args) bt (kernel_args args) self.
Proof.
  intros Hh. unfold call_kernel. rewrite bind_unfold. cbn [get].
  rewrite bind_unfold. by rewrite decide_True by (by rewrite Hh).
Qed.

(** A call whose hash is not in the dictionary goes to the compiler with
    the arguments as they are; a failure of the compiler is the failure of
    the call, and a success is cached under the hash and launched. *)
Lemma call_kernel_miss bt args self :
  kernel_dict self !! hash_of args = None →
  call bt args self
  = match jit_specialize args with
    | Raise e =>
        (Raise e, {| kernel_dict := kernel_dict self;
                     compilations := S (compilations self);
                     modules := modules self;
                     launches := launches self;
                     device_memory := device_memory self |})
    | Ok code =>
        launch_on (hash_of args) bt (kernel_args args)
          {| kernel_dict := <[hash_of args := Handle (modules self) code]>
                              (kernel_dict self);
             compilations := S (compilations self);
             modules := S (modules self);
             launches := launches self;
             device_memory := device_memory self |}
    end.
Proof.
  intros Hh. unfold call_kernel. rewrite bind_unfold. cbn [get].
  rewrite bind_unfold.
  rewrite decide_False by (rewrite Hh; by intros [? ?]).
  rewrite bind_unfold. unfold compile.
  by destruct (jit_specialize args).
Qed.

(** What a call that returns has done. *)
Lemma call_kernel_returns bt args self self' :
  call bt args self = (Ok (), self') →
  ∃ h,
    kernel_dict self' !! hash_of args = Some h
    ∧ launches self' = launches self ++ [(h, bt, kernel_args args)]
    ∧ run_kernel (handle_code h) bt (kernel_args args) (device_memory self)
      = Ok (device_memory self')
    ∧ match kernel_dict self !! hash_of args with
      | Some h0 =>
          h = h0 ∧ kernel_dict self' = kernel_dict self
          ∧ compilations self' = compilations self
          ∧ modules self' = modules self
      | None =>
          handle_id h = modules self
          ∧ jit_specialize args = Ok (handle_code h)
          ∧ kernel_dict self' = <[hash_of args := h]> (kernel_dict self)
          ∧ compilations self' = S (compilations self)
          ∧ modules self' = S (modules self)
      end.
Proof.
  destruct (kernel_dict self !! hash_of args) as [h0|] eqn:Hk.
  - rewrite (call_kernel_hit _ _ _ _ Hk), (launch_cached _ _ _ _ _ Hk).
    destruct (run_kernel _ _ _ _) as [m|e] eqn:Hrun; intros [= <-].
    exists h0. by cbn.
  - rewrite (call_kernel_miss _ _ _ Hk).
    destruct (jit_specialize args) as [code|e]; [|done].
    rewrite (launch_cached _ _ _ _ (Handle (modules self) code))
      by apply lookup_insert_eq.
    cbn. destruct (run_kernel _ _ _ _) as [m|e] eqn:Hrun; intros [= <-].
    exists (Handle (modules self) code). cbn.
    by rewrite lookup_insert_eq.
Qed.

Lemma cache_wf_new (m : memory) :
  cache_wf (new_kernel (kernel_code := kernel_code) m).
Proof. intros k h Hk. cbn in Hk. by rewrite lookup_empty in Hk. Qed.

Lemma call_kernel_wf bt args self self' :
  cache_wf self → call bt args self = (Ok (), self') → cache_wf self'.
Proof.
  intros Hwf Hcall.
  destruct (call_kernel_returns _ _ _ _ Hcall) as (h & Hh & _ & _ & Hcase).
  destruct (kernel_dict self !! hash_of args) as [h0|] eqn:Hk.
  - destruct Hcase as (-> & Hd & _ & Hm). intros k h Hkh.
    rewrite Hd in *. rewrite Hm. by apply Hwf.
  - destruct Hcase as (Hid & _ & Hd & _ & Hm). intros k1 h1 Hk1.
    rewrite Hd in *. rewrite Hm.
    assert (∀ k2 h2, kernel_dict self !! k2 = Some h2 →
              (handle_id h2 < modules self)%nat) as Hlt
      by (intros k2 h2 H2; by apply (Hwf k2 h2)).
    split.
    + apply lookup_insert_Some in Hk1 as [[_ <-]|[_ Hk1]]; [lia|].
      pose proof (Hlt _ _ Hk1). lia.
    + intros k2 h2 Hk2 Heq.
      apply lookup_insert_Some in Hk1 as [[<- <-]|[Hne1 Hk1]];
        apply lookup_insert_Some in Hk2 as [[<- <-]|[Hne2 Hk2]]; try done.
      * pose proof (Hlt _ _ Hk2). lia.
      * pose proof (Hlt _ _ Hk1). lia.
      * by apply (proj2 (Hwf k1 h1 Hk1) k2 h2).
Qed.

(** A sequence of calls that returns: every call was served by the handle
    the final dictionary holds for its hash, and the compiler ran once for
    every hash that was not in the dictionary before. *)
Lemma call_sequence_returns calls self self' :
  cache_wf self → run_calls calls self = (Ok (), self') →
  cache_wf self'
  ∧ kernel_dict self ⊆ kernel_dict self'
  ∧ (∃ new, launches self' = launches self ++ new
            ∧ Forall2 (λ c e, kernel_dict self' !! hash_of c.2 = Some e.1.1
                              ∧ e.1.2 = c.1 ∧ e.2 = kernel_args c.2)
                      calls new)
  ∧ compilations self'
    = compilations self
      + size (list_to_set ((λ c, hash_of c.2) <$> calls) ∖ dom (kernel_dict self)
              : gset Z).
Proof.
  revert self. induction calls as [|c calls IH]; intros self Hwf Hrun.
  - cbn in Hrun. injection Hrun as <-. split; [done|]. split; [done|].
    split; [exists []; by rewrite app_nil_r|].
    cbn [fmap list_fmap list_to_set].
    replace (∅ ∖ dom (kernel_dict self)) with (∅ : gset Z) by set_solver.
    rewrite size_empty. lia.
  - unfold call_sequence in *. cbn [for_each] in Hrun.
    rewrite bind_unfold in Hrun.
    destruct (call c.1 c.2 self) as [[[]|e] self1] eqn:Hcall; [|done].
    pose proof (call_kernel_wf _ _ _ _ Hwf Hcall) as Hwf1.
    destruct (IH self1 Hwf1 Hrun) as (Hwf' & Hsub & (new & Hnew & Hall) & Hcount).
    destruct (call_kernel_returns _ _ _ _ Hcall) as (h & Hh & Hl & _ & Hcase).
    assert (kernel_dict self ⊆ kernel_dict self1
            ∧ dom (kernel_dict self1) = {[hash_of c.2]} ∪ dom (kernel_dict self)
            ∧ compilations self1
              = compilations self
                + (if decide (hash_of c.2 ∈ dom (kernel_dict self)) then 0 else 1))
      as (Hsub1 & Hdom1 & Hcount1).
    { destruct (kernel_dict self !! hash_of c.2) as [h0|] eqn:Hk.
      - destruct Hcase as (-> & -> & -> & _).
        assert (hash_of c.2 ∈ dom (kernel_dict self)) by (by apply elem_of_dom).
        rewrite decide_True by done. split; [done|]. split; [set_solver|lia].
      - destruct Hcase as (_ & _ & -> & -> & _).
        assert (hash_of c.2 ∉ dom (kernel_dict self)) by (by apply not_elem_of_dom).
        rewrite decide_False by done.
        split; [by apply insert_subseteq|]. split; [by rewrite dom_insert_L|lia]. }
    split; [done|]. split; [by etrans|]. split.
    + exists ((h, c.1, kernel_args c.2) :: new). split.
      * by rewrite Hnew, Hl, <- app_assoc.
      * constructor; [|done]. cbn. split; [|done].
        by apply (lookup_weaken _ _ _ _ Hh).
    + rewrite Hcount, Hcount1, Hdom1. cbn [fmap list_fmap list_to_set].
      case_decide as Hin.
      * rewrite size_known_hash by done. lia.
      * rewrite size_fresh_hash by done. lia.
Qed.

(** Whatever a call does, the device memory is touched by the kernel run
    alone, which receives it as it was when the call was made, together
    with the marshalled arguments. *)
Lemma call_kernel_memory bt args self r self' :
  call bt args self = (r, self') →
  launches self' = launches self ∧ device_memory self' = device_memory self
  ∨ ∃ h, launches self' = launches self ++ [(h, bt, kernel_args args)]
         ∧ (device_memory self' = device_memory self
            ∨ run_kernel (handle_code h) bt (kernel_args args) (device_memory self)
              = Ok (device_memory self')).
Proof.
  destruct (kernel_dict self !! hash_of args) as [h0|] eqn:Hk.
  - rewrite (call_kernel_hit _ _ _ _ Hk), (launch_cached _ _ _ _ _ Hk).
    destruct (run_kernel _ _ _ _) as [m|e] eqn:Hrun; intros [= <- <-];
      right; exists h0; cbn; auto.
  - rewrite (call_kernel_miss _ _ _ Hk).
    destruct (jit_specialize args) as [code|e]; [|intros [= <- <-]; by left].
    rewrite (launch_cached _ _ _ _ (Handle (modules self) code))
      by apply lookup_insert_eq.
    cbn. destruct (run_kernel _ _ _ _) as [m|e] eqn:Hrun; intros [= <- <-];
      right; exists (Handle (modules self) code); cbn; auto.
Qed.

(** C3: the list handed to the kernel is the concatenation, in order, of
    the marshalled forms of the arguments: for an array two zeros, its
    size, its item size, the array itself, its shape and its strides (five
    slots and one per entry of shape and strides, hence [5 + 2*rank] when
    the two have the rank's length), and for any other argument the
    argument alone.  The arrays in the list are the arrays passed, and the
    device memory reaches the kernel run as it was when the call was made. *)
Theorem kernel_args_marshalling (args : list pyvalue) :
  kernel_args args = concat (marshalled <$> args)
  ∧ (∀ arr, marshalled (VArray arr)
            = [VInt 0; VInt 0; VInt (array_size arr);
               VInt (itemsize (array_dtype arr)); VArray arr]
              ++ (VInt <$> shape arr) ++ (VInt <$> strides arr))
  ∧ (∀ arr, length (marshalled (VArray arr))
            = 5 + length (shape arr) + length (strides arr))
  ∧ (∀ arr, length (strides arr) = length (shape arr) →
            Z.of_nat (length (marshalled (VArray arr))) = (5 + 2 * ndim arr)%Z)
  ∧ (∀ a, is_array a = false → marshalled a = [a])
  ∧ (∀ arr, VArray arr ∈ kernel_args args ↔ VArray arr ∈ args)
  ∧ (∀ bt self r self',
       call bt args self = (r, self') →
       launches self' = launches self ∧ device_memory self' = device_memory self
       ∨ ∃ h, launches self' = launches self ++ [(h, bt, kernel_args args)]
              ∧ (device_memory self' = device_memory self
                 ∨ run_kernel (handle_code h) bt (kernel_args args)
                     (device_memory self)
                   = Ok (device_memory self'))).
Proof.
  split; [apply kernel_args_concat|]. split; [done|].
  assert (∀ arr, length (marshalled (VArray arr))
                 = 5 + length (shape arr) + length (strides arr)) as Hlen.
  { intros arr. cbn. rewrite length_app, !length_fmap. lia. }
  split; [done|]. split.
  { intros arr Hs. rewrite Hlen, Hs. unfold ndim. lia. }
  split; [by intros []|]. split.
  - intros arr. rewrite kernel_args_concat, elem_of_concat. split.
    + intros (l & Harr & Hl). apply list_elem_of_fmap in Hl as (a & -> & Ha).
      apply elem_of_marshalled_array in Harr. by subst.
    + intros Harr. exists (marshalled (VArray arr)). split.
      * by apply elem_of_marshalled_array.
      * apply list_elem_of_fmap. eauto.
  - intros bt self r self'. apply call_kernel_memory.
Qed.

(** C7 (as amended): [call_kernel] checks nothing about its arguments.
    When the hash of their types is not cached, the compiler is called
    with them whatever their kinds; if it raises, that exception is the
    call's, and nothing is cached or launched; if it returns, the kernel
    is launched.  When the hash is cached, the call goes straight to the
    launch.  Every argument that is not an array is handed to the kernel
    as it is. *)
Theorem call_kernel_checks_nothing bt args self :
  kernel_dict self !! hash_of args = None →
  compilations (call bt args self).2 = S (compilations self)
  ∧ (∀ e, jit_specialize args = Raise e →
       (call bt args self).1 = Raise e
       ∧ kernel_dict (call bt args self).2 = kernel_dict self
       ∧ launches (call bt args self).2 = launches self)
  ∧ (∀ code, jit_specialize args = Ok code →
       launches (call bt args self).2
       = launches self ++ [(Handle (modules self) code, bt, kernel_args args)])
  ∧ (∀ self0 h, kernel_dict self0 !! hash_of args = Some h →
       call bt args self0 = launch_on (hash_of args) bt (kernel_args args) self0)
  ∧ (∀ a, a ∈ args → is_array a = false → a ∈ kernel_args args).
Proof.
  intros Hk. rewrite (call_kernel_miss _ _ _ Hk).
  split; [|split; [|split; [|split]]].
  - destruct (jit_specialize args) as [code|e]; [|done].
    rewrite (launch_cached _ _ _ _ (Handle (modules self) code))
      by apply lookup_insert_eq.
    cbn. by destruct (run_kernel _ _ _ _).
  - by intros e ->.
  - intros code ->.
    rewrite (launch_cached _ _ _ _ (Handle (modules self) code))
      by apply lookup_insert_eq.
    cbn. by destruct (run_kernel _ _ _ _).
  - intros self0 h Hh. by apply (call_kernel_hit _ _ _ h).
  - intros a Ha Harr. rewrite kernel_args_concat, elem_of_concat.
    exists [a]. split; [set_solver|].
    apply list_elem_of_fmap. exists a. split; [|done]. by destruct a.
Qed.

(** C1 (as amended): in a sequence of calls on a fresh kernel that runs to
    its end, two calls with the same signature are served by the same
    handle, two calls whose type tuples hash differently are served by
    different handles, the number of compilations is the number of distinct
    hash values, and it is 2 when the calls use two signatures whose hash
    values differ. *)
Theorem cache_keyed_by_hash (m : memory) (calls : list (geometry * list pyvalue))
    (self' : compile_cupy) :
  run_calls calls (new_kernel m) = (Ok (), self') →
  length (served self') = length calls
  ∧ (∀ i j ci cj hi hj,
       calls !! i = Some ci → calls !! j = Some cj →
       served self' !! i = Some hi → served self' !! j = Some hj →
       (signature ci.2 = signature cj.2 → hi = hj)
       ∧ (hash_of ci.2 ≠ hash_of cj.2 → handle_id hi ≠ handle_id hj))
  ∧ compilations self'
    = size (list_to_set ((λ c, hash_of c.2) <$> calls) : gset Z)
  ∧ (∀ a1 a2,
       hash_of a1 ≠ hash_of a2 →
       (∀ c, c ∈ calls →
          signature c.2 = signature a1 ∨ signature c.2 = signature a2) →
       (∃ c, c ∈ calls ∧ signature c.2 = signature a1) →
       (∃ c, c ∈ calls ∧ signature c.2 = signature a2) →
       compilations self' = 2).
Proof.
  intros Hrun.
  destruct (call_sequence_returns _ _ _ (cache_wf_new m) Hrun)
    as (Hwf & _ & (new & Hnew & Hall) & Hcount).
  cbn [new_kernel launches kernel_dict compilations] in Hnew, Hcount.
  rewrite app_nil_l in Hnew.
  assert (compilations self'
          = size (list_to_set ((λ c, hash_of c.2) <$> calls) : gset Z)) as Hsize.
  { rewrite Hcount, dom_empty_L. cbn. f_equal. set_solver. }
  assert (∀ i c h, calls !! i = Some c → served self' !! i = Some h →
            kernel_dict self' !! hash_of c.2 = Some h) as Hserved.
  { intros i c h Hc Hh. unfold served in Hh. rewrite Hnew in Hh.
    apply list_lookup_fmap_Some in Hh as (e & -> & He).
    by destruct (Forall2_lookup_lr _ _ _ _ _ _ Hall Hc He) as (? & _). }
  split; [|split; [|split]].
  - unfold served. rewrite length_fmap, Hnew. symmetry.
    by eapply Forall2_length.
  - intros i j ci cj hi hj Hci Hcj Hhi Hhj.
    pose proof (Hserved _ _ _ Hci Hhi) as Hi.
    pose proof (Hserved _ _ _ Hcj Hhj) as Hj. split.
    + intros Hsig. rewrite (same_signature_same_hash _ _ Hsig) in Hi. congruence.
    + intros Hne Hid. apply Hne. by apply (proj2 (Hwf _ _ Hj) _ _ Hi).
  - done.
  - intros a1 a2 Hne Hall2 (c1 & Hc1 & Hs1) (c2 & Hc2 & Hs2).
    rewrite Hsize, <- (size_two_hashes _ _ Hne). f_equal.
    apply set_eq. intros k. rewrite elem_of_list_to_set, list_elem_of_fmap.
    split.
    + intros (c & -> & Hc).
      destruct (Hall2 c Hc) as [Hs|Hs];
        rewrite (same_signature_same_hash _ _ Hs); set_solver.
    + rewrite elem_of_union, !elem_of_singleton.
      intros [Hk|Hk]; subst k; [exists c1|exists c2];
        (split; [|done]); symmetry; by apply same_signature_same_hash.
Qed.

(** Two calls whose type tuples hash alike share one handle and one
    compilation, whatever their signatures. *)
Lemma same_hash_same_kernel (m : memory) bt1 bt2 args1 args2 self' :
  hash_of args1 = hash_of args2 →
  run_calls [(bt1, args1); (bt2, args2)] (new_kernel m) = (Ok (), self') →
  compilations self' = 1
  ∧ ∃ h, served self' = [h; h].
Proof.
  intros Hhash Hrun.
  destruct (call_sequence_returns _ _ _ (cache_wf_new m) Hrun)
    as (_ & _ & (new & Hnew & Hall) & Hcount).
  cbn [new_kernel launches kernel_dict compilations] in Hnew, Hcount.
  rewrite app_nil_l in Hnew. split.
  - rewrite Hcount, dom_empty_L. cbn. rewrite Hhash.
    replace (({[hash_of args2]} ∪ ({[hash_of args2]} ∪ ∅)) ∖ ∅)
      with ({[hash_of args2]} : gset Z) by set_solver.
    by rewrite size_singleton.
  - apply Forall2_cons_inv_l in Hall as (e1 & new1 & (H1 & _) & Hall & ->).
    apply Forall2_cons_inv_l in Hall as (e2 & new2 & (H2 & _) & Hall & ->).
    apply Forall2_nil_inv_l in Hall as ->.
    cbn in H1, H2. rewrite Hhash in H1. exists e1.1.1.
    unfold served. rewrite Hnew. cbn. congruence.
Qed.

End CacheFacts.

(** ** The cache on sample data, and the limits of hashing *)

Section CacheSamples.
Local Open Scope Z_scope.

Lemma cache_keyed_by_hash_witness :
  let self' := (call_sequence sample_hash lenient_jit idle_run sample_calls
                  (new_kernel ())).2 in
  length (served self') = length sample_calls
  ∧ served self' !! 0%nat = served self' !! 1%nat
  ∧ compilations self' = 2%nat.
Proof.
  intros self'.
  assert (call_sequence sample_hash lenient_jit idle_run sample_calls
            (new_kernel ()) = (Ok (), self')) as Hrun by (by vm_compute).
  destruct (cache_keyed_by_hash sample_hash lenient_jit idle_run () sample_calls
              self' Hrun) as (Hlen & Hserved & Hcount & Htwo).
  split; [exact Hlen|]. split.
  - assert (is_Some (served self' !! 0%nat)) as [h0 H0] by (vm_compute; eauto).
    assert (is_Some (served self' !! 1%nat)) as [h1 H1] by (vm_compute; eauto).
    rewrite H0, H1. f_equal.
    apply (Hserved 0%nat 1%nat
             (launch_4x256, [VArray array_1000; VInt 1000])
             (launch_4x256, [VArray array_500; VInt 500]) h0 h1); done.
  - apply (Htwo [VArray array_1000; VInt 1000] [VArray array_10x10; VInt 100]).
    + by vm_compute.
    + intros c Hc. unfold sample_calls in Hc.
      clear -Hc.
      repeat (apply elem_of_cons in Hc as [->|Hc]);
        [left; reflexivity|left; reflexivity|right; reflexivity|].
      by apply elem_of_nil in Hc.
    + eexists. split; [apply list_elem_of_here|reflexivity].
    + eexists.
      split; [do 2 apply list_elem_of_further; apply list_elem_of_here|reflexivity].
Defined.

Lemma call_kernel_checks_nothing_witness :
  compilations
    (call_kernel sample_hash sample_jit idle_run launch_4x256 [a_string]
       (new_kernel ())).2
  = 1%nat.
Proof.
  exact (proj1 (call_kernel_checks_nothing sample_hash sample_jit idle_run
                  launch_4x256 [a_string] (new_kernel ()) (lookup_empty _))).
Defined.

(** C7 (as stated) fails: a string is neither a recognized scalar nor an
    array, yet the call on a fresh kernel goes to the compiler.  With a
    compiler that cannot type it the exception is the compiler's, raised in
    the one compilation the call made; with a compiler that accepts it the
    call returns and the string is among the arguments of the launch. *)
Lemma call_kernel_compiles_for_a_string :
  recognized_scalar a_string = false ∧ is_array a_string = false
  ∧ call_kernel sample_hash sample_jit idle_run launch_4x256 [a_string]
      (new_kernel ())
    = (Raise (ExternalError "numba" "cannot determine Numba type of argument"),
       {| kernel_dict := ∅; compilations := 1; modules := 0; launches := [];
          device_memory := () |})
  ∧ (call_kernel sample_hash lenient_jit idle_run launch_4x256 [a_string]
       (new_kernel ())).1 = Ok ()
  ∧ (λ l, l.2) <$>
      launches (call_kernel sample_hash lenient_jit idle_run launch_4x256
                  [a_string] (new_kernel ())).2
    = [[a_string]].
Proof. by vm_compute. Qed.

End CacheSamples.

(** ** Hash values are fewer than signatures *)

Section Collisions.
Local Open Scope Z_scope.

(** No function maps the numbers [0..N] one-to-one below [N]. *)
Lemma pigeonhole (N : nat) (g : nat → nat) :
  (∀ i, (i ≤ N)%nat → (g i < N)%nat) →
  (∀ i j, (i ≤ N)%nat → (j ≤ N)%nat → g i = g j → i = j) →
  False.
Proof.
  intros Hrange Hinj.
  assert (NoDup (g <$> seq 0 (S N))) as Hnd.
  { apply NoDup_fmap_2_strong; [|apply NoDup_seq].
    intros i j Hi%elem_of_seq Hj%elem_of_seq. apply Hinj; lia. }
  assert (g <$> seq 0 (S N) ⊆+ seq 0 N) as Hsub.
  { apply NoDup_submseteq; [done|].
    intros x (i & -> & Hi%elem_of_seq)%list_elem_of_fmap.
    apply elem_of_seq. pose proof (Hrange i ltac:(lia)). lia. }
  apply submseteq_length in Hsub.
  rewrite length_fmap, !length_seq in Hsub. lia.
Qed.

Lemma fmap_eq_elem {A B} (f g : A → B) (l : list A) :
  f <$> l = g <$> l → ∀ x, x ∈ l → f x = g x.
Proof.
  induction l as [|a l IH]; intros Heq x Hx; [by apply elem_of_nil in Hx|].
  injection Heq as Ha Hl.
  apply elem_of_cons in Hx as [->|Hx]; [done|by apply IH].
Qed.

Lemma testbit_above i k : 0 ≤ i < 2 ^ 65 → 65 ≤ k → Z.testbit i k = false.
Proof.
  intros Hi Hk. destruct (decide (i = 0)) as [->|Hne]; [apply Z.bits_0|].
  apply Z.bits_above_log2; [lia|].
  assert (Z.log2 i < 65) by (apply Z.log2_lt_pow2; lia). lia.
Qed.

(** Distinct numbers below [2^65] spell distinct signatures. *)
Lemma bit_arguments_inj i j :
  0 ≤ i < 2 ^ 65 → 0 ≤ j < 2 ^ 65 →
  signature (bit_arguments i) = signature (bit_arguments j) → i = j.
Proof.
  intros Hi Hj Hsig. apply Z.bits_inj'. intros k Hk.
  destruct (Z_lt_le_dec k 65) as [Hlt|Hge].
  - unfold signature, bit_arguments in Hsig. rewrite <- !list_fmap_compose in Hsig.
    pose proof (fmap_eq_elem _ _ _ Hsig k) as Hk'.
    specialize (Hk' ltac:(apply elem_of_range; lia)). cbn in Hk'.
    by destruct (Z.testbit i k), (Z.testbit j k).
  - by rewrite !testbit_above.
Qed.

(** On a compiler and a device that never fail, every sequence of calls
    runs to its end. *)
Lemma lenient_calls_return (py_hash : list type_entry → Z) calls self :
  ∃ self', call_sequence py_hash lenient_jit idle_run calls self = (Ok (), self').
Proof.
  revert self. induction calls as [|c calls IH]; intros self; [by eexists|].
  unfold call_sequence in *. cbn [for_each]. rewrite bind_unfold.
  destruct (kernel_dict self !! get_args_hash py_hash c.2) as [h|] eqn:Hk.
  - rewrite (call_kernel_hit _ _ _ _ _ _ _ Hk), (launch_cached _ _ _ _ _ _ Hk).
    cbn. apply IH.
  - rewrite (call_kernel_miss _ _ _ _ _ _ Hk). cbn [lenient_jit].
    erewrite launch_cached by apply lookup_insert_eq.
    cbn. apply IH.
Qed.

(** Any hash into [B] values collides on two of the first [B + 1] argument
    lists, whose signatures differ in element types only; the two calls
    then share one handle and one compilation. *)
Lemma hash_collision (py_hash : list type_entry → Z) (B : Z) :
  0 < B < 2 ^ 65 →
  (∀ types, - 2 ^ 63 ≤ py_hash types < B - 2 ^ 63) →
  ¬ ∀ args1 args2 self',
      signature args1 ≠ signature args2 →
      call_sequence py_hash lenient_jit idle_run
        [(launch_4x256, args1); (launch_4x256, args2)] (new_kernel ())
      = (Ok (), self') →
      compilations self' = 2%nat ∧ ∀ h1 h2, served self' = [h1; h2] → h1 ≠ h2.
Proof.
  intros HB Hrange Hclaim.
  apply (pigeonhole (Z.to_nat B)
           (λ i, Z.to_nat (get_args_hash py_hash (bit_arguments (Z.of_nat i))
                           + 2 ^ 63))).
  - intros i Hi. unfold get_args_hash.
    pose proof (Hrange (arg_types (bit_arguments (Z.of_nat i)))). lia.
  - intros i j Hi Hj Heq.
    destruct (decide (i = j)) as [|Hne]; [done|exfalso].
    assert (get_args_hash py_hash (bit_arguments (Z.of_nat i))
            = get_args_hash py_hash (bit_arguments (Z.of_nat j))) as Hhash.
    { unfold get_args_hash in *.
      pose proof (Hrange (arg_types (bit_arguments (Z.of_nat i)))).
      pose proof (Hrange (arg_types (bit_arguments (Z.of_nat j)))). lia. }
    destruct (lenient_calls_return py_hash
                [(launch_4x256, bit_arguments (Z.of_nat i));
                 (launch_4x256, bit_arguments (Z.of_nat j))] (new_kernel ()))
      as [self' Hrun].
    destruct (same_hash_same_kernel _ _ _ _ _ _ _ _ _ Hhash Hrun) as [Hone _].
    assert (signature (bit_arguments (Z.of_nat i))
            ≠ signature (bit_arguments (Z.of_nat j))) as Hsig.
    { intros Hsig. apply bit_arguments_inj in Hsig; lia. }
    destruct (Hclaim _ _ self' Hsig Hrun) as [Htwo _].
    lia.
Qed.

(** C1 (as stated) fails for every hash function with the range of
    [Py_hash_t]: there are always two signatures, differing in element
    types, whose calls share one compiled kernel, so that a sequence with
    exactly these two signatures compiles once. *)
Lemma no_hash_keeps_signatures_apart :
  ¬ ∃ py_hash : list type_entry → Z,
      (∀ types, - 2 ^ 63 ≤ py_hash types < 2 ^ 63)
      ∧ ∀ args1 args2 self',
          signature args1 ≠ signature args2 →
          call_sequence py_hash lenient_jit idle_run
            [(launch_4x256, args1); (launch_4x256, args2)] (new_kernel ())
          = (Ok (), self') →
          compilations self' = 2%nat
          ∧ ∀ h1 h2, served self' = [h1; h2] → h1 ≠ h2.
Proof.
  intros (py_hash & Hrange & Hclaim).
  apply (hash_collision py_hash (2 ^ 64)); [lia| |done].
  intros types. specialize (Hrange types). lia.
Qed.

End Collisions.

(** ** Residency: the way back, and the edges of the guard *)

Section ResidencyMore.
Implicit Types (a : aggregate) (s : simulation) (l k : loc).

Lemma receive_from_gpu_use_cuda a : use_cuda (receive_from_gpu a) = use_cuda a.
Proof. unfold receive_from_gpu. by destruct a as [? [] ? ?]. Qed.

Lemma receive_from_gpu_count a :
  to_host (receive_from_gpu a)
  = (to_host a + if data_is_on_gpu a then 1 else 0)%nat.
Proof. unfold receive_from_gpu. destruct a as [? [] ? ?]; cbn; lia. Qed.

Lemma receive_data_from_gpu_lookup s l :
  species (receive_data_from_gpu s) !! l
  = if decide (l ∈ ptcl s ∧ species_use_cuda s l = true)
    then receive_from_gpu <$> species s !! l else species s !! l.
Proof.
  unfold receive_data_from_gpu, receive_particles_from_gpu.
  rewrite send_loop_species. cbn.
  apply cuda_loop_lookup;
    [apply receive_from_gpu_idemp|apply receive_from_gpu_use_cuda].
Qed.

Lemma receive_data_from_gpu_frame s :
  sim_use_cuda (receive_data_from_gpu s) = sim_use_cuda s
  ∧ ptcl (receive_data_from_gpu s) = ptcl s
  ∧ fld (receive_data_from_gpu s) = receive_from_gpu (fld s).
Proof.
  unfold receive_data_from_gpu, receive_particles_from_gpu.
  by rewrite send_loop_species.
Qed.

Lemma receive_data_from_gpu_use_cuda s l :
  species_use_cuda (receive_data_from_gpu s) l = species_use_cuda s l.
Proof.
  unfold species_use_cuda at 1. rewrite receive_data_from_gpu_lookup.
  case_decide; [|done]. unfold species_use_cuda.
  destruct (species s !! l); cbn; by rewrite ?receive_from_gpu_use_cuda.
Qed.

(** X1: after [receive_data_from_gpu] the field structure and every listed
    species whose [use_cuda] is set are on the host, each having made one
    transfer back if it was on the device and none otherwise; a species
    whose [use_cuda] is unset, or that is not listed, is left as it was,
    on the device if it was there; the species list and the switches are
    unchanged, and a second call in a row changes nothing. *)
Theorem receive_data_from_gpu_brings_back (s : simulation) :
  data_is_on_gpu (fld (receive_data_from_gpu s)) = false
  ∧ to_host (fld (receive_data_from_gpu s))
    = (to_host (fld s) + if data_is_on_gpu (fld s) then 1 else 0)%nat
  ∧ ptcl (receive_data_from_gpu s) = ptcl s
  ∧ sim_use_cuda (receive_data_from_gpu s) = sim_use_cuda s
  ∧ (∀ l a, species s !! l = Some a → l ∈ ptcl s → use_cuda a = true →
       ∃ a', species (receive_data_from_gpu s) !! l = Some a'
             ∧ data_is_on_gpu a' = false
             ∧ use_cuda a' = true
             ∧ to_host a' = (to_host a + if data_is_on_gpu a then 1 else 0)%nat)
  ∧ (∀ l a, species s !! l = Some a → l ∉ ptcl s ∨ use_cuda a = false →
       species (receive_data_from_gpu s) !! l = Some a)
  ∧ receive_data_from_gpu (receive_data_from_gpu s) = receive_data_from_gpu s.
Proof.
  destruct (receive_data_from_gpu_frame s) as (Hu & Hp & Hf).
  destruct (receive_data_from_gpu_frame (receive_data_from_gpu s))
    as (Hu' & Hp' & Hf').
  split; [by rewrite Hf, receive_from_gpu_on_gpu|].
  split; [by rewrite Hf, receive_from_gpu_count|].
  split; [done|]. split; [done|]. split; [|split].
  - intros l a Hl Hin Ha. exists (receive_from_gpu a).
    rewrite receive_data_from_gpu_lookup, decide_True, Hl.
    + by rewrite receive_from_gpu_on_gpu, receive_from_gpu_use_cuda,
        receive_from_gpu_count.
    + split; [done|]. unfold species_use_cuda. by rewrite Hl.
  - intros l a Hl Hor.
    rewrite receive_data_from_gpu_lookup, decide_False; [done|].
    unfold species_use_cuda. rewrite Hl. cbn. intros [? ?].
    destruct Hor; congruence.
  - apply simulation_eq.
    + done.
    + by rewrite Hf', Hf, receive_from_gpu_idemp.
    + done.
    + intros l. rewrite receive_data_from_gpu_lookup at 1.
      rewrite Hp, receive_data_from_gpu_use_cuda.
      case_decide as Hc; [|done].
      rewrite receive_data_from_gpu_lookup, decide_True by done.
      destruct (species s !! l); cbn; by rewrite ?receive_from_gpu_idemp.
Qed.

(** The residency flag two transfers in a row leave is that of the last. *)
Lemma receive_after_send_flag a :
  data_is_on_gpu (receive_from_gpu (send_to_gpu a))
  = data_is_on_gpu (receive_from_gpu a).
Proof. by rewrite !receive_from_gpu_on_gpu. Qed.

(** X2: sending the data to the device and receiving them back, as a run
    of PIC cycles does around its loop, leaves a simulation whose field
    structure and listed CUDA species were on the host as resident as it
    was, each of these objects having made exactly one transfer in each
    direction, however often it is listed. *)
Theorem send_then_receive_round_trip (s : simulation) :
  data_is_on_gpu (fld s) = false →
  (∀ l, l ∈ ptcl s → species_use_cuda s l = true → species_on_gpu s l = false) →
  residency (receive_data_from_gpu (send_data_to_gpu s)) = residency s
  ∧ to_device (fld (receive_data_from_gpu (send_data_to_gpu s)))
    = S (to_device (fld s))
  ∧ to_host (fld (receive_data_from_gpu (send_data_to_gpu s)))
    = S (to_host (fld s))
  ∧ (∀ l a, species s !! l = Some a → l ∈ ptcl s → use_cuda a = true →
       ∃ a', species (receive_data_from_gpu (send_data_to_gpu s)) !! l = Some a'
             ∧ to_device a' = S (to_device a) ∧ to_host a' = S (to_host a)).
Proof.
  intros Hfld Hhost.
  destruct (send_data_to_gpu_frame s) as (Hu & Hp & Hf).
  destruct (receive_data_from_gpu_frame (send_data_to_gpu s)) as (Hu' & Hp' & Hf').
  assert (∀ l, species (receive_data_from_gpu (send_data_to_gpu s)) !! l
               = if decide (l ∈ ptcl s ∧ species_use_cuda s l = true)
                 then (λ a, receive_from_gpu (send_to_gpu a)) <$> species s !! l
                 else species s !! l) as Hlook.
  { intros l. rewrite receive_data_from_gpu_lookup, Hp, send_data_to_gpu_use_cuda.
    rewrite send_data_to_gpu_lookup.
    case_decide; [|done]. by rewrite <- option_fmap_compose. }
  split; [|split; [|split]].
  - apply residency_eq.
    + congruence.
    + by rewrite Hf', receive_from_gpu_on_gpu.
    + congruence.
    + intros l. rewrite Hlook. case_decide as Hc; [|done].
      destruct Hc as [Hin Hc]. specialize (Hhost l Hin Hc).
      unfold species_on_gpu in Hhost.
      destruct (species s !! l) as [a|]; [|done]. cbn in *.
      by rewrite receive_from_gpu_on_gpu, Hhost.
  - rewrite Hf', Hf. unfold receive_from_gpu, send_to_gpu.
    destruct (fld s) as [? [] ? ?]; cbn in *; congruence.
  - rewrite Hf', Hf. unfold receive_from_gpu, send_to_gpu.
    destruct (fld s) as [? [] ? ?]; cbn in *; congruence.
  - intros l a Hl Hin Ha.
    assert (species_use_cuda s l = true) as Hc
      by (unfold species_use_cuda; by rewrite Hl).
    specialize (Hhost l Hin Hc). unfold species_on_gpu in Hhost.
    rewrite Hl in Hhost. cbn in Hhost.
    exists (receive_from_gpu (send_to_gpu a)).
    rewrite Hlook, decide_True, Hl by done.
    unfold receive_from_gpu, send_to_gpu.
    destruct a as [? [] ? ?]; cbn in *; [congruence|done].
Qed.

Lemma send_then_receive_round_trip_witness :
  residency (receive_data_from_gpu (send_data_to_gpu host_simulation))
  = residency host_simulation
  ∧ to_device (fld (receive_data_from_gpu (send_data_to_gpu host_simulation)))
    = S (to_device (fld host_simulation))
  ∧ to_host (fld (receive_data_from_gpu (send_data_to_gpu host_simulation)))
    = S (to_host (fld host_simulation))
  ∧ (∀ l a, species host_simulation !! l = Some a → l ∈ ptcl host_simulation →
       use_cuda a = true →
       ∃ a', species (receive_data_from_gpu (send_data_to_gpu host_simulation))
               !! l = Some a'
             ∧ to_device a' = S (to_device a) ∧ to_host a' = S (to_host a)).
Proof.
  apply (send_then_receive_round_trip host_simulation); [reflexivity|].
  intros l Hl _. unfold host_simulation in Hl. cbn in Hl.
  repeat (apply elem_of_cons in Hl as [->|Hl]); try reflexivity.
  by apply elem_of_nil in Hl.
Defined.

(** *** The guard when there is nothing to move *)

Lemma with_statement_unfold (enter : M simulation unit)
    (exit : option exception → M simulation pyobject) (body : M simulation unit)
    s s1 :
  enter s = (Ok (), s1) →
  (∀ exc, exit exc (body s1).2 = (Ok PyNone, (body s1).2)) →
  with_statement enter exit body s = body s1.
Proof.
  intros Henter Hexit. unfold with_statement. rewrite Henter.
  destruct (body s1) as [[[]|e] s2] eqn:Hbody; cbn in Hexit.
  - by rewrite Hexit.
  - by rewrite Hexit.
Qed.

(** X3: on a simulation that does not use CUDA the guard is transparent:
    it moves nothing on entry or on exit, and the guarded body returns or
    raises exactly as it would unguarded, leaving the same state. *)
Theorem guard_is_transparent_without_cuda (s : simulation)
    (body : M simulation unit) :
  sim_use_cuda s = false → sim_use_cuda (body s).2 = false →
  with_GpuMemoryManager body s = body s.
Proof.
  intros Hs Hbody. unfold with_GpuMemoryManager. cbv zeta.
  apply with_statement_unfold.
  - by rewrite enter_spec, Hs.
  - intros exc. unfold GpuMemoryManager.__exit__.
    rewrite bind_unfold. cbn [get]. rewrite bind_unfold. by rewrite Hbody.
Qed.

Lemma guard_is_transparent_without_cuda_witness :
  with_GpuMemoryManager failing_body cpu_simulation = failing_body cpu_simulation.
Proof.
  apply (guard_is_transparent_without_cuda cpu_simulation failing_body);
    reflexivity.
Defined.

(** A loop of the guard over flags that are all true moves nothing. *)
Lemma guard_loop_idle (act : loc → simulation → simulation)
    (were : list bool) (i : nat) (L : list loc) s :
  (∀ j, (j < i + length L)%nat → were !! j = Some true) →
  for_enumerate
    (λ i l, w ← getitem were i; if negb w then modify (act l) else mret ())
    i L s
  = (Ok (), s).
Proof.
  revert i. induction L as [|l L IH]; intros i Hwere; [done|].
  cbn [for_enumerate]. rewrite !bind_unfold. unfold getitem.
  cbn [length] in Hwere. rewrite (Hwere i) by lia. cbn [mret M_ret negb].
  apply IH. intros j Hj. apply Hwere. lia.
Qed.

(** X4: when the field structure and every listed species are already on
    the device, as inside another guard, the guard is transparent: it
    records that nothing is to be moved back, so whatever the body does to
    residency is left as the body left it, provided the species list has
    not grown beyond the recorded flags. *)
Theorem guard_is_transparent_on_device (s : simulation)
    (body : M simulation unit) :
  data_is_on_gpu (fld s) = true →
  (∀ l, l ∈ ptcl s → species_on_gpu s l = true) →
  length (ptcl (body s).2) ≤ length (ptcl s) →
  with_GpuMemoryManager body s = body s.
Proof.
  intros Hfld Hsp Hlen. unfold with_GpuMemoryManager. cbv zeta.
  assert (∀ j, (j < length (ptcl s))%nat →
            GpuMemoryManager.species_were_on_gpu (GpuMemoryManager.__init__ s) !! j
            = Some true) as Hwere.
  { intros j Hj. cbn.
    destruct (lookup_lt_is_Some_2 (ptcl s) j Hj) as [l Hl].
    rewrite list_lookup_fmap, Hl. cbn. f_equal.
    apply Hsp. by eapply list_elem_of_lookup_2. }
  apply with_statement_unfold.
  - unfold GpuMemoryManager.__enter__. rewrite bind_unfold. cbn [get].
    destruct (sim_use_cuda s); [|done].
    rewrite bind_unfold.
    cbn [GpuMemoryManager.fields_were_on_gpu GpuMemoryManager.__init__].
    rewrite Hfld. cbn [negb mret M_ret].
    apply guard_loop_idle. intros j Hj. apply Hwere. lia.
  - intros exc. unfold GpuMemoryManager.__exit__.
    rewrite bind_unfold. cbn [get]. rewrite bind_unfold.
    destruct (sim_use_cuda (body s).2); [|done].
    rewrite bind_unfold.
    cbn [GpuMemoryManager.fields_were_on_gpu GpuMemoryManager.__init__].
    rewrite Hfld. cbn [negb mret M_ret].
    rewrite guard_loop_idle; [done|].
    intros j Hj. apply Hwere. lia.
Qed.

Lemma guard_is_transparent_on_device_witness :
  with_GpuMemoryManager failing_body (send_data_to_gpu host_simulation)
  = failing_body (send_data_to_gpu host_simulation).
Proof.
  apply (guard_is_transparent_on_device (send_data_to_gpu host_simulation)
           failing_body).
  - reflexivity.
  - intros l Hl. vm_compute in Hl.
    repeat (apply elem_of_cons in Hl as [->|Hl]); try reflexivity.
    by apply elem_of_nil in Hl.
  - vm_compute. lia.
Defined.

(** *** What the guard does on entry *)



(** *** A species list that grew during the body *)

(** Past the recorded flags the indexing in the loop raises. *)
Lemma guard_loop_raises (act : loc → simulation → simulation)
    (were : list bool) (i : nat) (L : list loc) s :
  (i ≤ length were)%nat → (length were < i + length L)%nat →
  (for_enumerate
     (λ i l, w ← getitem were i; if negb w then modify (act l) else mret ())
     i L s).1
  = Raise (IndexError "list index out of range").
Proof.
  revert i s. induction L as [|l L IH]; intros i s Hi Hlen.
  { cbn in Hlen. lia. }
  cbn [for_enumerate]. rewrite !bind_unfold. unfold getitem.
  cbn [length] in Hlen.
  destruct (were !! i) as [w|] eqn:Hw.
  - apply lookup_lt_Some in Hw. cbn [mret M_ret].
    destruct w; cbn [negb modify mret M_ret]; apply IH; lia.
  - done.
Qed.

(** X6: if the guarded body leaves more species listed than there were at
    construction, [__exit__] raises [IndexError] when it indexes the
    recorded flags, and this is what the [with] statement raises, whether
    the body returned or raised something else. *)
Theorem exit_raises_when_species_added (s : simulation)
    (body : M simulation unit) :
  let s1 := (GpuMemoryManager.__enter__ (GpuMemoryManager.__init__ s) s).2 in
  sim_use_cuda (body s1).2 = true →
  length (ptcl s) < length (ptcl (body s1).2) →
  (∀ exc,
     (GpuMemoryManager.__exit__ (GpuMemoryManager.__init__ s) exc (body s1).2).1
     = Raise (IndexError "list index out of range"))
  ∧ (with_GpuMemoryManager body s).1
    = Raise (IndexError "list index out of range").
Proof.
  intros s1 Hcuda Hlen.
  assert (∀ exc,
    (GpuMemoryManager.__exit__ (GpuMemoryManager.__init__ s) exc (body s1).2).1
    = Raise (IndexError "list index out of range")) as Hexit.
  { intros exc. unfold GpuMemoryManager.__exit__.
    rewrite bind_unfold. cbn [get]. rewrite bind_unfold. rewrite Hcuda.
    rewrite bind_unfold.
    pose proof (guard_loop_raises receive_particles_from_gpu
                  (GpuMemoryManager.species_were_on_gpu
                     (GpuMemoryManager.__init__ s)) 0 (ptcl (body s1).2)) as Hloop.
    cbn [GpuMemoryManager.species_were_on_gpu GpuMemoryManager.__init__
           GpuMemoryManager.fields_were_on_gpu] in *.
    rewrite length_fmap in Hloop.
    destruct (negb (data_is_on_gpu (fld s))); cbn [modify mret M_ret].
    - specialize (Hloop (receive_fields_from_gpu (body s1).2)
                    ltac:(lia) ltac:(cbn; lia)).
      cbn [ptcl receive_fields_from_gpu set_fld] in Hloop.
      destruct (for_enumerate _ _ _ _) as [[[]|e] s3]; cbn in *; congruence.
    - specialize (Hloop (body s1).2 ltac:(lia) ltac:(cbn; lia)).
      destruct (for_enumerate _ _ _ _) as [[[]|e] s3]; cbn in *; congruence.
  }
  split; [exact Hexit|].
  unfold with_GpuMemoryManager. cbv zeta. unfold with_statement.
  rewrite enter_spec. fold s1.
  assert (s1 = (if sim_use_cuda s then
       foldl (λ s' l, if species_on_gpu s l then s'
                      else send_particles_to_gpu l s')
             (if data_is_on_gpu (fld s) then s else send_fields_to_gpu s)
             (ptcl s)
     else s)) as <- by (unfold s1; by rewrite enter_spec).
  destruct (body s1) as [[[]|e] s2] eqn:Hbody; cbn [snd] in *.
  - specialize (Hexit None).
    destruct (GpuMemoryManager.__exit__ _ None s2) as [[v|e'] s3]; cbn in *;
      congruence.
  - specialize (Hexit (Some e)).
    destruct (GpuMemoryManager.__exit__ _ (Some e) s2) as [[v|e'] s3]; cbn in *;
      congruence.
Qed.

Lemma exit_raises_when_species_added_witness :
  (∀ exc,
     (GpuMemoryManager.__exit__ (GpuMemoryManager.__init__ host_simulation) exc
        (adding_body
           (GpuMemoryManager.__enter__ (GpuMemoryManager.__init__ host_simulation)
              host_simulation).2).2).1
     = Raise (IndexError "list index out of range"))
  ∧ (with_GpuMemoryManager adding_body host_simulation).1
    = Raise (IndexError "list index out of range").
Proof.
  apply (exit_raises_when_species_added host_simulation adding_body).
  - reflexivity.
  - vm_compute. lia.
Defined.

End ResidencyMore.
(** ** The launch geometry: both axes, and the edges *)

Section GridMore.
Import Float64 Float64Facts.
Local Open Scope Z_scope.

(** The 2D helper applies the 1D rule to the first axis, then to the
    second. *)
Lemma cuda_tpb_bpg_2d_by_axis (x y TPBx TPBy : Z) :
  cuda_tpb_bpg_2d x y TPBx TPBy
  = match cuda_tpb_bpg_1d x TPBx with
    | Raise e => Raise e
    | Ok bx =>
        match cuda_tpb_bpg_1d y TPBy with
        | Raise e => Raise e
        | Ok by_ => Ok ((bx.1, by_.1), (TPBx, TPBy))
        end
    end.
Proof.
  unfold cuda_tpb_bpg_2d, cuda_tpb_bpg_1d.
  destruct (int_truediv x TPBx) as [qx|e]; [|done].
  destruct (to_int (add_int qx 1)) as [BPGx|e]; [|done].
  destruct (int_truediv y TPBy) as [qy|e]; [|done].
  by destruct (to_int (add_int qy 1)) as [BPGy|e].
Qed.

(** X7: on each axis of a 2D grid with positive sizes and
    [size + 2*TPB <= 2^52] the number of blocks is [floor(size/TPB) + 1];
    the blocks hold more threads than the axis needs, and at most one
    block more. *)
Theorem cuda_tpb_bpg_2d_covers (x y TPBx TPBy : Z) :
  0 < x → 0 < y → 0 < TPBx → 0 < TPBy →
  x + 2 * TPBx ≤ 2 ^ 52 → y + 2 * TPBy ≤ 2 ^ 52 →
  cuda_tpb_bpg_2d x y TPBx TPBy
  = Ok ((x / TPBx + 1, y / TPBy + 1), (TPBx, TPBy))
  ∧ x < (x / TPBx + 1) * TPBx ≤ x + TPBx
  ∧ y < (y / TPBy + 1) * TPBy ≤ y + TPBy.
Proof.
  intros Hx Hy HTx HTy Hbx Hby.
  rewrite cuda_tpb_bpg_2d_by_axis, !blocks_exact by done. cbn [fst].
  pose proof (Z.div_mod x TPBx ltac:(lia)).
  pose proof (Z.mod_pos_bound x TPBx HTx).
  pose proof (Z.div_mod y TPBy ltac:(lia)).
  pose proof (Z.mod_pos_bound y TPBy HTy).
  split; [done|]. lia.
Qed.

Lemma cuda_tpb_bpg_2d_covers_witness :
  cuda_tpb_bpg_2d 300 4096 1 128
  = Ok ((300 / 1 + 1, 4096 / 128 + 1), (1, 128))
  ∧ 300 < (300 / 1 + 1) * 1 ≤ 300 + 1
  ∧ 4096 < (4096 / 128 + 1) * 128 ≤ 4096 + 128.
Proof. apply (cuda_tpb_bpg_2d_covers 300 4096 1 128); lia. Defined.

(** X8: for zero threads the helper still asks for one block, whatever the
    nonzero block size. *)
Theorem cuda_tpb_bpg_1d_zero_threads (TPB : Z) :
  TPB ≠ 0 → cuda_tpb_bpg_1d 0 TPB = Ok (1, TPB).
Proof.
  intros HT. unfold cuda_tpb_bpg_1d, int_truediv.
  destruct (Z.eqb_spec TPB 0) as [|_]; [done|].
  rewrite Z.mul_0_l. by vm_compute.
Qed.

Lemma cuda_tpb_bpg_1d_zero_threads_witness :
  cuda_tpb_bpg_1d 0 256 = Ok (1, 256).
Proof. apply (cuda_tpb_bpg_1d_zero_threads 256). lia. Defined.

(** X9: a block size of zero makes the division raise [ZeroDivisionError],
    for every number of threads; in two dimensions the first axis is
    computed first, so its error wins, and a zero block size on the second
    axis raises once the first axis is computed. *)
Theorem cuda_tpb_bpg_zero_block_size (x y TPBx TPBy : Z) :
  0 < x → 0 < TPBx → x + 2 * TPBx ≤ 2 ^ 52 →
  cuda_tpb_bpg_1d y 0 = Raise (ZeroDivisionError "division by zero")
  ∧ cuda_tpb_bpg_2d y x 0 TPBy = Raise (ZeroDivisionError "division by zero")
  ∧ cuda_tpb_bpg_2d x y TPBx 0 = Raise (ZeroDivisionError "division by zero").
Proof.
  intros Hx HT Hb.
  assert (∀ z, cuda_tpb_bpg_1d z 0 = Raise (ZeroDivisionError "division by zero"))
    as Hzero by done.
  split; [apply Hzero|]. split.
  - by rewrite cuda_tpb_bpg_2d_by_axis, Hzero.
  - by rewrite cuda_tpb_bpg_2d_by_axis, blocks_exact, Hzero.
Qed.

Lemma cuda_tpb_bpg_zero_block_size_witness :
  cuda_tpb_bpg_1d (-7) 0 = Raise (ZeroDivisionError "division by zero")
  ∧ cuda_tpb_bpg_2d (-7) 1000 0 128 = Raise (ZeroDivisionError "division by zero")
  ∧ cuda_tpb_bpg_2d 1000 (-7) 256 0 = Raise (ZeroDivisionError "division by zero").
Proof. apply (cuda_tpb_bpg_zero_block_size 1000 (-7) 256 128); lia. Defined.

End GridMore.
(** ** The kernel cache under failures *)

Section CacheMore.

Context {kernel_code memory : Type}.
Variable py_hash : list type_entry → Z.
Variable jit_specialize : list pyvalue → result kernel_code.
Variable run_kernel :
  kernel_code → geometry → list pyvalue → memory → result memory.

Local Abbreviation hash_of := (get_args_hash py_hash).
Local Abbreviation call := (call_kernel py_hash jit_specialize run_kernel).
Local Abbreviation run_calls := (call_sequence py_hash jit_specialize run_kernel).

Implicit Types (self : @compile_cupy kernel_code memory).

(** One call, whatever its outcome, keeps every cached kernel and compiles
    at most once. *)
Lemma call_kernel_grows bt args self :
  kernel_dict self ⊆ kernel_dict (call bt args self).2
  ∧ (compilations self ≤ compilations (call bt args self).2
     ≤ S (compilations self))%nat.
Proof.
  destruct (kernel_dict self !! hash_of args) as [h|] eqn:Hk.
  - rewrite (call_kernel_hit _ _ _ _ _ _ _ Hk), (launch_cached _ _ _ _ _ _ Hk).
    destruct (run_kernel _ _ _ _); cbn; split; (done || lia).
  - rewrite (call_kernel_miss _ _ _ _ _ _ Hk).
    destruct (jit_specialize args) as [code|e]; [|cbn; split; (done || lia)].
    erewrite launch_cached by apply lookup_insert_eq.
    destruct (run_kernel _ _ _ _); cbn;
      (split; [by apply insert_subseteq|lia]).
Qed.

(** X10: a compiled kernel is never evicted or replaced: after any sequence
    of calls, completed or cut short by an exception of the compiler or of
    a launch, the cache still holds every kernel it held before; and the
    calls compiled at most once each. *)
Theorem call_sequence_keeps_cache (calls : list (geometry * list pyvalue))
    (self : compile_cupy) :
  kernel_dict self ⊆ kernel_dict (run_calls calls self).2
  ∧ (compilations self ≤ compilations (run_calls calls self).2
     ≤ compilations self + length calls)%nat.
Proof.
  revert self. induction calls as [|c calls IH]; intros self.
  { cbn. split; [done|lia]. }
  unfold call_sequence in *. cbn [for_each length]. rewrite bind_unfold.
  destruct (call_kernel_grows c.1 c.2 self) as [Hsub Hcount].
  destruct (call c.1 c.2 self) as [[[]|e] self1]; cbn [snd] in *.
  - destruct (IH self1) as [Hsub' Hcount']. split; [by etrans|lia].
  - split; [done|lia].
Qed.

(** X11: when the first launch of a freshly compiled kernel fails, the
    exception of the launch is raised, but the kernel stays cached: a later
    call whose types hash alike compiles nothing and launches that
    kernel. *)
Theorem failed_launch_keeps_kernel (bt : geometry) (args : list pyvalue)
    (self : compile_cupy) (code : kernel_code) (e : exception) :
  kernel_dict self !! hash_of args = None →
  jit_specialize args = Ok code →
  run_kernel code bt (kernel_args args) (device_memory self) = Raise e →
  let self' := (call bt args self).2 in
  (call bt args self).1 = Raise e
  ∧ kernel_dict self' !! hash_of args = Some (Handle (modules self) code)
  ∧ compilations self' = S (compilations self)
  ∧ ∀ bt2 args2, hash_of args2 = hash_of args →
      compilations (call bt2 args2 self').2 = compilations self'
      ∧ launches (call bt2 args2 self').2
        = launches self' ++ [(Handle (modules self) code, bt2, kernel_args args2)].
Proof.
  intros Hk Hjit Hrun self'. unfold self'.
  rewrite (call_kernel_miss _ _ _ _ _ _ Hk), Hjit.
  erewrite launch_cached by apply lookup_insert_eq.
  cbn [handle_code device_memory]. rewrite Hrun. cbn [fst snd kernel_dict].
  split; [done|]. split; [apply lookup_insert_eq|]. split; [done|].
  intros bt2 args2 Hhash.
  set (self1 := {| kernel_dict := _ |}).
  assert (kernel_dict self1 !! hash_of args2 = Some (Handle (modules self) code))
    as Hk2 by (rewrite Hhash; apply lookup_insert_eq).
  rewrite (call_kernel_hit _ _ _ _ _ _ _ Hk2), (launch_cached _ _ _ _ _ _ Hk2).
  cbn [handle_code device_memory].
  by destruct (run_kernel code bt2 _ _).
Qed.

End CacheMore.

Lemma failed_launch_keeps_kernel_witness :
  let args := [VArray array_1000; VInt 1000%Z] in
  let self' := (call_kernel sample_hash lenient_jit faulty_run launch_4x256 args
                  (new_kernel ())).2 in
  (call_kernel sample_hash lenient_jit faulty_run launch_4x256 args
     (new_kernel ())).1
  = Raise (ExternalError "cupy" "CUDA_ERROR_LAUNCH_FAILED")
  ∧ kernel_dict self' !! get_args_hash sample_hash args
    = Some (Handle 0 (arg_types args))
  ∧ compilations self' = 1%nat
  ∧ ∀ bt2 args2,
      get_args_hash sample_hash args2 = get_args_hash sample_hash args →
      compilations
        (call_kernel sample_hash lenient_jit faulty_run bt2 args2 self').2
      = compilations self'
      ∧ launches
          (call_kernel sample_hash lenient_jit faulty_run bt2 args2 self').2
        = launches self' ++ [(Handle 0 (arg_types args), bt2, kernel_args args2)].
Proof.
  intros args.
  apply (failed_launch_keeps_kernel sample_hash lenient_jit faulty_run
           launch_4x256 args (new_kernel ()) (arg_types args)
           (ExternalError "cupy" "CUDA_ERROR_LAUNCH_FAILED"));
    reflexivity.
Defined.
(** ** What [deposit] dispatches *)

Section DepositMore.

Context {St : Type}.

(** A loop of calls that each append one entry to a log kept in the
    state. *)
Lemma for_each_logged {A B} (put : B → St → St) (f : A → B) (l : list A) s :
  for_each (λ x, modify (put (f x))) l s
  = (Ok (), foldl (λ s x, put (f x) s) s l).
Proof.
  revert s. induction l as [|x l IH]; intros s; [done|].
  cbn [for_each foldl]. rewrite bind_unfold. cbn [modify]. apply IH.
Qed.

End DepositMore.

Lemma foldl_log {A B} (f : A → B) (l : list A) (log : list B) :
  foldl (λ log x, log ++ [f x]) log l = log ++ (f <$> l).
Proof.
  revert log. induction l as [|x l IH]; intros log; cbn [foldl fmap list_fmap].
  - by rewrite app_nil_r.
  - rewrite IH. by rewrite <- app_assoc.
Qed.

(** With collaborators that only log, a deposit on a known field type
    returns, having appended its operations to the log. *)
Lemma deposit_logged (n_species n_antennas : nat) (filter_currents : bool)
    (fieldtype : string) (log : list operation) :
  fieldtype = "rho_prev" ∨ fieldtype = "rho_next" ∨ fieldtype = "J" →
  deposit record_operation n_species n_antennas filter_currents fieldtype log
  = (Ok (), log ++ deposit_ops n_species n_antennas filter_currents fieldtype).
Proof.
  intros Hft. unfold deposit, deposit_ops, record_operation.
  assert (∀ (f : nat → operation) l (lg : list operation),
            for_each (λ i, modify (λ log, log ++ [f i])) l lg
            = (Ok (), lg ++ (f <$> l))) as Hloop.
  { intros f l lg.
    rewrite (for_each_logged (λ op log, log ++ [op]) f). by rewrite foldl_log. }
  destruct (decide (fieldtype = "rho_prev" ∨ fieldtype = "rho_next")) as [Hrho|Hn].
  - rewrite (decide_False (P := fieldtype = "J")) by (by destruct Hrho as [->| ->]).
    destruct filter_currents;
      repeat first [rewrite bind_unfold | rewrite Hloop
                   | progress cbn [modify mret M_ret]];
      unfold modify, mret, M_ret; by rewrite <- ?app_assoc.
  - assert (fieldtype = "J") as -> by tauto.
    rewrite !(decide_True (P := "J" = "J")) by done.
    destruct filter_currents;
      repeat first [rewrite bind_unfold | rewrite Hloop
                   | progress cbn [modify mret M_ret]];
      unfold modify, mret, M_ret; by rewrite <- ?app_assoc.
Qed.

(** X12: on the three field types it knows, [deposit] dispatches in this
    order: erase the grid quantity, every species' deposit, every antenna's
    deposit, the division by the cell volume, the guard-cell exchange, and
    the transform to the spectral grid, followed by the filter when
    [filter_currents] is set.  [rho_prev] and [rho_next] differ in the
    spectral target only; for [J] the grid quantity is [J], except that
    the antennas are asked to deposit [rho]. *)
Theorem deposit_dispatch_order (n_species n_antennas : nat)
    (filter_currents : bool) :
  let spectral ft :=
    Interp2Spect ft :: (if filter_currents then [FilterSpect ft] else []) in
  let charge :=
    [Erase "rho"]
    ++ ((λ i, SpeciesDeposit i "rho") <$> seq 0 n_species)
    ++ ((λ i, AntennaDeposit i "rho") <$> seq 0 n_antennas)
    ++ [DivideByVolume "rho"; ExchangeFields "rho"] in
  dispatched n_species n_antennas filter_currents "rho_prev"
  = charge ++ spectral "rho_prev"
  ∧ dispatched n_species n_antennas filter_currents "rho_next"
    = charge ++ spectral "rho_next"
  ∧ dispatched n_species n_antennas filter_currents "J"
    = [Erase "J"]
      ++ ((λ i, SpeciesDeposit i "J") <$> seq 0 n_species)
      ++ ((λ i, AntennaDeposit i "rho") <$> seq 0 n_antennas)
      ++ [DivideByVolume "J"; ExchangeFields "J"] ++ spectral "J"
  ∧ ∀ ft, ft = "rho_prev" ∨ ft = "rho_next" ∨ ft = "J" →
      (deposit record_operation n_species n_antennas filter_currents ft []).1
      = Ok ().
Proof.
  intros spectral charge. unfold dispatched.
  rewrite !deposit_logged by tauto. unfold deposit_ops, charge, spectral.
  rewrite !(decide_False (P := _ = "J")) by done.
  rewrite (decide_True (P := "J" = "J")) by done.
  cbn [snd app]. rewrite <- !app_assoc. cbn [app].
  repeat split; try done.
  intros ft Hft. by rewrite deposit_logged.
Qed.
(** ** Reasoning about stateful code *)

Section Triples.

Context {St : Type}.
Implicit Types (P I : St → Prop) (E : exception → St → Prop).

Lemma triple_ret {A} P (a : A) (Q : A → St → Prop) E :
  (∀ s, P s → Q a s) → triple P (mret a) Q E.
Proof. intros HQ s Hs. by apply HQ. Qed.

Lemma triple_raise {A} P e (Q : A → St → Prop) E :
  (∀ s, P s → E e s) → triple P (raise e) Q E.
Proof. intros HE s Hs. by apply HE. Qed.

Lemma triple_modify P (f : St → St) (Q : unit → St → Prop) E :
  (∀ s, P s → Q () (f s)) → triple P (modify f) Q E.
Proof. intros HQ s Hs. by apply HQ. Qed.

Lemma triple_bind {A B} P (m : M St A) (k : A → M St B)
    (R : A → St → Prop) (Q : B → St → Prop) E :
  triple P m R E → (∀ a, triple (R a) (k a) Q E) → triple P (m ≫= k) Q E.
Proof.
  intros Hm Hk s Hs. rewrite bind_unfold. specialize (Hm s Hs).
  destruct (m s) as [[a|e] s']; [by apply Hk|done].
Qed.

(** Sequencing after a step that keeps the invariant. *)
Lemma triple_seq {A B} I (m : M St A) (k : A → M St B)
    (Q : B → St → Prop) E :
  triple I m (λ _, I) E → (∀ a, triple I (k a) Q E) → triple I (m ≫= k) Q E.
Proof. intros Hm Hk. by apply (triple_bind _ _ _ (λ _, I)). Qed.

Lemma triple_weaken {A} P (m : M St A) (Q Q' : A → St → Prop) E E' :
  triple P m Q E → (∀ a s, Q a s → Q' a s) → (∀ e s, E e s → E' e s) →
  triple P m Q' E'.
Proof.
  intros Hm HQ HE s Hs. specialize (Hm s Hs).
  destruct (m s) as [[a|e] s']; [by apply HQ|by apply HE].
Qed.

Lemma triple_get {B} I (k : St → M St B) (Q : B → St → Prop) E :
  (∀ s0, triple I (k s0) Q E) → triple I (get ≫= k) Q E.
Proof. intros Hk s Hs. rewrite bind_unfold. cbn [get]. by apply Hk. Qed.

Lemma triple_for_each {A} I (body : A → M St unit) (l : list A) E :
  (∀ x, triple I (body x) (λ _, I) E) →
  triple I (for_each body l) (λ _, I) E.
Proof.
  intros Hbody. induction l as [|x l IH]; cbn [for_each].
  - by apply triple_ret.
  - apply triple_seq; [apply Hbody|]. intros _. apply IH.
Qed.

Lemma triple_py_mod {B} I (a b : Z) (k : Z → M St B) (Q : B → St → Prop) E :
  (∀ s msg, I s → E (ZeroDivisionError msg) s) →
  (∀ r, triple I (k r) Q E) → triple I (py_mod a b ≫= k) Q E.
Proof.
  intros HE Hk. apply (triple_bind _ _ _ (λ _, I)); [|done].
  unfold py_mod. destruct (b =? 0)%Z.
  - apply triple_raise. intros s Hs. by apply HE.
  - by apply triple_ret.
Qed.

Lemma triple_xrange {B} I (N : Z) (k : list Z → M St B) (Q : B → St → Prop) E :
  (∀ s msg, I s → E (OverflowError msg) s) →
  triple I (k (range N)) Q E → triple I (xrange N ≫= k) Q E.
Proof.
  intros HE Hk s Hs. rewrite bind_unfold. unfold xrange.
  destruct (_ || _); cbn; [by apply HE|by apply Hk].
Qed.

Lemma triple_deposit I (perform : operation → M St unit)
    (n_species n_antennas : nat) (filter_currents : bool) (fieldtype : string) E :
  (∀ op, triple I (perform op) (λ _, I) E) →
  (∀ s msg, I s → E (ValueError msg) s) →
  triple I (deposit perform n_species n_antennas filter_currents fieldtype)
    (λ _, I) E.
Proof.
  intros Hop HE. unfold deposit.
  apply triple_seq.
  - repeat case_decide.
    + repeat (apply triple_seq; [first [apply Hop|apply triple_for_each; intros ?; apply Hop]|intros _]).
      apply Hop.
    + repeat (apply triple_seq; [first [apply Hop|apply triple_for_each; intros ?; apply Hop]|intros _]).
      apply Hop.
    + apply triple_raise. intros s Hs. by apply HE.
  - intros _. apply triple_seq; [apply Hop|]. intros _.
    destruct filter_currents; [apply Hop|by apply triple_ret].
Qed.

End Triples.

(** Walks a chain of statements that each keep an invariant; [atom] proves
    the single calls. *)
Ltac walk atom :=
  repeat lazymatch goal with
  | |- triple _ (get ≫= _) _ _ => apply triple_get; intros ?
  | |- triple _ (py_mod _ _ ≫= _) _ _ =>
      apply triple_py_mod; [by intros|intros ?]
  | |- triple _ (deposit _ _ _ _ _) _ _ =>
      apply triple_deposit; [intros ?|by intros]
  | |- triple _ (for_each _ _) _ _ => apply triple_for_each; intros ?
  | |- triple _ (mret _) _ _ => apply triple_ret; by intros
  | |- triple _ (if ?b then _ else _) _ _ => destruct b
  | |- triple _ (modify _ ≫= _) _ _ => atom
  | |- triple _ (_ ≫= _) _ _ => apply triple_seq; [|intros ?]
  | |- triple _ _ _ _ => atom
  end.

(** ** [Simulation.step]: the clock *)

Section StepClock.

Context {T W : Type}.
Variable float_add : T → T → T.
Variable perform : pic_operation T → M W unit.
Variable exchange_period : W → Z.
Variable moving_win : W → bool.
Variable rank : W → Z.
Variable self_use_cuda : bool.
Variable dt : T.
Variable filter_currents : bool.
Variable n_species n_antennas n_diags n_external_fields : nat.

Local Abbreviation do := (act perform).
Local Abbreviation cycle :=
  (pic_cycle float_add perform exchange_period moving_win dt filter_currents
     n_species n_antennas n_diags n_external_fields).
Local Abbreviation run :=
  (step float_add perform exchange_period moving_win rank self_use_cuda dt
     filter_currents n_species n_antennas n_diags n_external_fields).

Implicit Types (s : pic_state T W) (i N : Z) (t : T).

(** A call on a collaborator leaves the clock alone. *)
Lemma act_clock i t op :
  triple (at_clock i t) (do op) (λ _, at_clock i t) (λ _, at_clock i t).
Proof.
  intros s Hs. unfold act. by destruct (perform op (collaborators s)) as [[[]|e] w].
Qed.

Lemma tick_clock i t :
  triple (at_clock i t)
    (modify (λ self : pic_state T W,
               {| iteration := iteration self;
                  time := float_add (time self) dt;
                  collaborators := collaborators self |});;
     modify (λ self : pic_state T W,
               {| iteration := iteration self + 1;
                  time := time self;
                  collaborators := collaborators self |}))
    (λ _, at_clock (i + 1) (float_add t dt)) (λ _, at_clock i t).
Proof. intros [i' t' w] [Hi Ht]. cbn in *. by subst. Qed.

(** A cycle that completes advances the clock by one step; one that raises
    leaves it where it was. *)
Lemma cycle_clock i t N pf cc utr mp mm sp i_step :
  triple (at_clock i t) (cycle N pf cc utr mp mm sp i_step)
    (λ _, at_clock (i + 1) (float_add t dt)) (λ _, at_clock i t).
Proof.
  unfold pic_cycle, self_deposit.
  walk ltac:(first [apply act_clock | apply tick_clock]).
Qed.

Lemma loop_clock N pf cc utr mp mm sp (l : list Z) i t :
  triple (at_clock i t) (for_each (cycle N pf cc utr mp mm sp) l)
    (λ _, at_clock (i + Z.of_nat (length l))
                   (Nat.iter (length l) (λ t, float_add t dt) t))
    (λ _ s, (i ≤ iteration s ≤ i + Z.of_nat (length l))%Z).
Proof.
  revert i t. induction l as [|x l IH]; intros i t; cbn [for_each length].
  - apply triple_ret. intros s [Hi Ht]. split; [lia|done].
  - apply (triple_bind _ _ _ (λ _, at_clock (i + 1) (float_add t dt))).
    + eapply triple_weaken; [apply cycle_clock|done|].
      intros ? s [Hi _]. cbn beta. lia.
    + intros _. eapply triple_weaken; [apply IH| |].
      * intros ? s [Hi Ht]. rewrite Nat.iter_succ_r. split; [lia|done].
      * intros ? s Hi. cbn beta in *. lia.
Qed.

(** X13: [step] counts the cycles it completes: whatever the collaborators
    do, [self.iteration] never decreases and grows by at most [max(N, 0)];
    when [step] returns it has grown by exactly [max(N, 0)], and
    [self.time] is the old time with [self.dt] added that many times. *)
Theorem step_counts_cycles N pf cc utr mp mm sp s :
  let out := run N pf cc utr mp mm sp s in
  (iteration s ≤ iteration out.2 ≤ iteration s + Z.max N 0)%Z
  ∧ (out.1 = Ok () →
       iteration out.2 = (iteration s + Z.max N 0)%Z
       ∧ time out.2 = Nat.iter (Z.to_nat N) (λ t, float_add t dt) (time s)).
Proof.
  assert (triple (at_clock (iteration s) (time s)) (run N pf cc utr mp mm sp)
            (λ _, at_clock (iteration s + Z.max N 0)
                           (Nat.iter (Z.to_nat N) (λ t, float_add t dt) (time s)))
            (λ _ s', (iteration s ≤ iteration s' ≤ iteration s + Z.max N 0)%Z))
    as Hrun.
  { unfold step.
    apply (triple_bind _ _ _ (λ _, at_clock (iteration s) (time s))).
    { destruct self_use_cuda.
      - eapply triple_weaken; [apply act_clock|done|].
        intros ? s' [Hi _]. cbn beta. lia.
      - by apply triple_ret. }
    intros _. apply triple_xrange.
    { intros s' msg [Hi _]. lia. }
    apply (triple_bind _ _ _
             (λ _, at_clock (iteration s + Z.max N 0)
                     (Nat.iter (Z.to_nat N) (λ t, float_add t dt) (time s)))).
    { eapply triple_weaken; [apply loop_clock| |].
      - intros ? s'. rewrite length_range. intros [Hi Ht]. split; [lia|done].
      - intros ? s'. rewrite length_range. cbn beta. lia. }
    intros _.
    assert (∀ (m : M (pic_state T W) unit),
              triple
                (at_clock (iteration s + Z.max N 0)
                   (Nat.iter (Z.to_nat N) (λ t, float_add t dt) (time s)))
                m
                (λ _, at_clock (iteration s + Z.max N 0)
                        (Nat.iter (Z.to_nat N) (λ t, float_add t dt) (time s)))
                (λ _, at_clock (iteration s + Z.max N 0)
                        (Nat.iter (Z.to_nat N) (λ t, float_add t dt) (time s))) →
              triple
                (at_clock (iteration s + Z.max N 0)
                   (Nat.iter (Z.to_nat N) (λ t, float_add t dt) (time s)))
                m
                (λ _, at_clock (iteration s + Z.max N 0)
                        (Nat.iter (Z.to_nat N) (λ t, float_add t dt) (time s)))
                (λ _ s', (iteration s ≤ iteration s' ≤ iteration s + Z.max N 0)%Z))
      as Hweak.
    { intros m Hm. eapply triple_weaken; [apply Hm|done|].
      intros ? s' [Hi _]. cbn beta. lia. }
    apply Hweak. walk ltac:(apply act_clock). }
  intros out. specialize (Hrun s (conj eq_refl eq_refl)). fold out in Hrun.
  destruct out as [[[]|e] s']; cbn [fst snd].
  - destruct Hrun as [Hi Ht]. split; [lia|done].
  - split; [done|]. intros [=].
Qed.

End StepClock.

(** ** [Simulation.step]: what is dispatched *)

Section CountFacts.

Context {A : Type}.
Implicit Types (p : A → bool) (l : list A).

Lemma count_ops_app p l1 l2 :
  count_ops p (l1 ++ l2) = (count_ops p l1 + count_ops p l2)%nat.
Proof. unfold count_ops. by rewrite List.filter_app, length_app. Qed.

Lemma count_ops_nil p : count_ops p [] = 0%nat.
Proof. done. Qed.

Lemma count_ops_cons p x l :
  count_ops p (x :: l) = ((if p x then 1 else 0) + count_ops p l)%nat.
Proof. unfold count_ops. cbn. by destruct (p x). Qed.

Lemma count_ops_none {B} p (f : B → A) (l : list B) :
  (∀ x, p (f x) = false) → count_ops p (f <$> l) = 0%nat.
Proof.
  intros Hp. induction l as [|x l IH]; [done|].
  cbn [fmap list_fmap]. by rewrite count_ops_cons, Hp, IH.
Qed.

Lemma count_ops_all {B} p (f : B → A) (l : list B) :
  (∀ x, p (f x) = true) → count_ops p (f <$> l) = length l.
Proof.
  intros Hp. induction l as [|x l IH]; [done|].
  cbn [fmap list_fmap length]. by rewrite count_ops_cons, Hp, IH.
Qed.

Lemma count_ops_ext p q l : (∀ x, p x = q x) → count_ops p l = count_ops q l.
Proof.
  intros Hpq. induction l as [|x l IH]; [done|].
  by rewrite !count_ops_cons, Hpq, IH.
Qed.

End CountFacts.

Lemma count_ops_fmap {A B} (p : A → bool) (f : B → A) (l : list B) :
  count_ops p (f <$> l) = count_ops (λ x, p (f x)) l.
Proof.
  induction l as [|x l IH]; [done|].
  cbn [fmap list_fmap].
  rewrite (count_ops_cons p), (count_ops_cons (λ x, p (f x))). by rewrite IH.
Qed.

Lemma exchange_cycles_S (period it : Z) (n : nat) :
  exchange_cycles period it (S n)
  = ((if (it mod period =? 0)%Z then 1 else 0)
     + exchange_cycles period (it + 1) n)%nat.
Proof.
  unfold exchange_cycles.
  change (length (List.filter ?q ?l)) with (count_ops q l).
  cbn [seq]. rewrite count_ops_cons, <- fmap_S_seq, count_ops_fmap.
  rewrite Z.add_0_r. f_equal. apply count_ops_ext. intros j.
  by replace (it + Z.of_nat (S j))%Z with (it + 1 + Z.of_nat j)%Z by lia.
Qed.

Section StepLog.

Context {T : Type}.
Variable float_add : T → T → T.
Variable fails : pic_operation T → option exception.
Variable exchange_period : list (pic_operation T) → Z.
Variable moving_win : list (pic_operation T) → bool.
Variable rank : list (pic_operation T) → Z.
Variable self_use_cuda : bool.
Variable dt : T.
Variable filter_currents : bool.
Variable n_species n_antennas n_diags n_external_fields : nat.

Local Abbreviation do := (act (record_unless fails)).
Local Abbreviation cycle :=
  (pic_cycle float_add (record_unless fails) exchange_period moving_win dt
     filter_currents n_species n_antennas n_diags n_external_fields).
Local Abbreviation run :=
  (step float_add (record_unless fails) exchange_period moving_win rank
     self_use_cuda dt filter_currents n_species n_antennas n_diags
     n_external_fields).

Implicit Types (s : pic_state T (list (pic_operation T))) (N : Z)
  (p : pic_operation T → bool) (k : nat).

(** A call that returns is logged; one that fails leaves the log as it
    was. *)
Lemma act_logged op s :
  do op s
  = match fails op with
    | Some e => (Raise e, s)
    | None => (Ok (), {| iteration := iteration s; time := time s;
                         collaborators := collaborators s ++ [op] |})
    end.
Proof. unfold act, record_unless. destruct (fails op), s; done. Qed.

Lemma act_count p k op :
  p op = false →
  triple (counted p k) (do op) (λ _, counted p k) (λ _, counted p k).
Proof.
  intros Hp s Hs. rewrite act_logged. destruct (fails op); [done|].
  unfold counted in *. cbn [collaborators].
  by rewrite count_ops_app, count_ops_cons, Hp, Hs, count_ops_nil, !Nat.add_0_r.
Qed.

Lemma tick_count p k :
  triple (counted p k)
    (modify (λ self : pic_state T (list (pic_operation T)),
               {| iteration := iteration self;
                  time := float_add (time self) dt;
                  collaborators := collaborators self |});;
     modify (λ self : pic_state T (list (pic_operation T)),
               {| iteration := iteration self + 1;
                  time := time self;
                  collaborators := collaborators self |}))
    (λ _, counted p k) (λ _, counted p k).
Proof. by intros s Hs. Qed.

(** A cycle never asks for the data back from the device, nor for them to
    be sent. *)
Lemma cycle_keeps_transfers p k N pf cc utr mp mm sp i_step :
  p = is_receive ∨ p = is_send →
  triple (counted p k) (cycle N pf cc utr mp mm sp i_step)
    (λ _, counted p k) (λ _, counted p k).
Proof.
  intros Hp. unfold pic_cycle, self_deposit.
  walk ltac:(first [apply tick_count
                   | apply act_count; by destruct Hp as [-> | ->]]).
Qed.

(** With [move_positions] unset a cycle makes no position push, and with
    [move_momenta] unset no momentum push. *)
Lemma cycle_frozen_positions k N pf cc utr mm sp i_step :
  triple (counted is_halfpush k) (cycle N pf cc utr false mm sp i_step)
    (λ _, counted is_halfpush k) (λ _, counted is_halfpush k).
Proof.
  unfold pic_cycle, self_deposit. cbv beta iota.
  walk ltac:(first [apply tick_count | by apply act_count]).
Qed.

Lemma cycle_frozen_momenta k N pf cc utr mp sp i_step :
  triple (counted is_push_p k) (cycle N pf cc utr mp false sp i_step)
    (λ _, counted is_push_p k) (λ _, counted is_push_p k).
Proof.
  unfold pic_cycle, self_deposit. cbv beta iota.
  walk ltac:(first [apply tick_count | by apply act_count]).
Qed.

(** What keeps a count over every cycle keeps it over [step], up to the
    transfers around the loop and the final message. *)
Lemma run_count p k N pf cc utr mp mm sp :
  p SendDataToGpu = false → p ReceiveDataFromGpu = false →
  p PrintDuration = false →
  (∀ i_step, triple (counted p k) (cycle N pf cc utr mp mm sp i_step)
               (λ _, counted p k) (λ _, counted p k)) →
  triple (counted p k) (run N pf cc utr mp mm sp)
    (λ _, counted p k) (λ _, counted p k).
Proof.
  intros Hsend Hrecv Hprint Hcycle. unfold step.
  apply triple_seq; [destruct self_use_cuda;
                       [by apply act_count|by apply triple_ret]|].
  intros _. apply triple_xrange; [done|].
  apply triple_seq; [by apply triple_for_each|]. intros _.
  apply triple_seq; [destruct self_use_cuda;
                       [by apply act_count|by apply triple_ret]|].
  intros _. apply triple_get. intros ?.
  destruct (_ && _); [by apply act_count|by apply triple_ret].
Qed.

(** X14: with [move_positions] unset, [step] never calls [halfpush_x] on a
    species, and with [move_momenta] unset it never calls [push_p],
    whatever the other options and whichever calls fail. *)
Theorem step_freezes_particles N pf cc utr sp s :
  (∀ mm, count_ops is_halfpush (collaborators (run N pf cc utr false mm sp s).2)
         = count_ops is_halfpush (collaborators s))
  ∧ (∀ mp, count_ops is_push_p (collaborators (run N pf cc utr mp false sp s).2)
           = count_ops is_push_p (collaborators s)).
Proof.
  split.
  - intros mm.
    pose proof (run_count is_halfpush (count_ops is_halfpush (collaborators s))
                  N pf cc utr false mm sp eq_refl eq_refl eq_refl
                  (λ i, cycle_frozen_positions _ N pf cc utr mm sp i) s eq_refl)
      as Hrun.
    by destruct (run _ _ _ _ _ _ _ s) as [[[]|e] s'].
  - intros mp.
    pose proof (run_count is_push_p (count_ops is_push_p (collaborators s))
                  N pf cc utr mp false sp eq_refl eq_refl eq_refl
                  (λ i, cycle_frozen_momenta _ N pf cc utr mp sp i) s eq_refl)
      as Hrun.
    by destruct (run _ _ _ _ _ _ _ s) as [[[]|e] s'].
Qed.

(** X15: [step] has no handler around its loop: on a simulation that uses
    CUDA, if [step] raises (and [receive_data_from_gpu] and the final
    message themselves do not fail), the data have been sent to the device
    once and not been asked back; if it returns, they have been sent once
    and received once. *)
Theorem step_failure_leaves_data_on_device N pf cc utr mp mm sp s :
  fails SendDataToGpu = None →
  fails ReceiveDataFromGpu = None →
  fails PrintDuration = None →
  self_use_cuda = true →
  let out := run N pf cc utr mp mm sp s in
  count_ops is_send (collaborators out.2)
  = S (count_ops is_send (collaborators s))
  ∧ (out.1 = Ok () →
       count_ops is_receive (collaborators out.2)
       = S (count_ops is_receive (collaborators s)))
  ∧ (out.1 ≠ Ok () →
       count_ops is_receive (collaborators out.2)
       = count_ops is_receive (collaborators s)).
Proof.
  intros Hsend Hrecv Hprint Hcuda.
  set (ks := count_ops is_send (collaborators s)).
  set (kr := count_ops is_receive (collaborators s)).
  assert (triple (λ s', counted is_send ks s' ∧ counted is_receive kr s')
            (run N pf cc utr mp mm sp)
            (λ _ s', counted is_send (S ks) s' ∧ counted is_receive (S kr) s')
            (λ _ s', counted is_send (S ks) s' ∧ counted is_receive kr s'))
    as Hrun.
  { unfold step. rewrite Hcuda.
    apply (triple_bind _ _ _
             (λ _ s', counted is_send (S ks) s' ∧ counted is_receive kr s')).
    { intros s0 [Hs Hr]. rewrite act_logged, Hsend. unfold counted in *.
      cbn [collaborators].
      rewrite !count_ops_app, !count_ops_cons, !count_ops_nil, Hs, Hr.
      cbn [is_send is_receive]. split; lia. }
    intros _. apply triple_xrange; [done|].
    apply (triple_bind _ _ _
             (λ _ s', counted is_send (S ks) s' ∧ counted is_receive kr s')).
    { apply triple_for_each. intros i_step s0 [Hs Hr].
      pose proof (cycle_keeps_transfers is_send (S ks) N pf cc utr mp mm sp i_step
                    (or_intror eq_refl) s0 Hs) as H1.
      pose proof (cycle_keeps_transfers is_receive kr N pf cc utr mp mm sp i_step
                    (or_introl eq_refl) s0 Hr) as H2.
      by destruct (cycle _ _ _ _ _ _ _ _ s0) as [[[]|e] s']. }
    intros _.
    apply (triple_bind _ _ _
             (λ _ s', counted is_send (S ks) s' ∧ counted is_receive (S kr) s')).
    { intros s0 [Hs Hr]. rewrite act_logged, Hrecv. unfold counted in *.
      cbn [collaborators].
      rewrite !count_ops_app, !count_ops_cons, !count_ops_nil, Hs, Hr.
      cbn [is_send is_receive]. split; lia. }
    intros _. apply triple_get. intros s0.
    destruct (_ && _); [|by apply triple_ret].
    intros s1 [Hs Hr]. rewrite act_logged, Hprint. unfold counted in *.
    cbn [collaborators].
    rewrite !count_ops_app, !count_ops_cons, !count_ops_nil, Hs, Hr.
    cbn [is_send is_receive]. split; lia. }
  intros out. specialize (Hrun s (conj eq_refl eq_refl)). fold out in Hrun.
  destruct out as [[[]|e] s']; cbn [fst snd]; destruct Hrun as [Hs Hr];
    (split; [exact Hs|]); (split; [intros ?; try done|intros ?; try done]).
Qed.

End StepLog.

Lemma step_failure_leaves_data_on_device_witness :
  let s := {| iteration := 0%Z; time := 0%Z; collaborators := [] |} in
  let out :=
    step Z.add (record_unless failing_diagnostics) (λ _, 10%Z) (λ _, false)
      (λ _, 0%Z) true 1%Z true 1 0 1 0 3%Z true true false true true true s in
  count_ops is_send (collaborators out.2)
  = S (count_ops is_send (collaborators s))
  ∧ (out.1 = Ok () →
       count_ops is_receive (collaborators out.2)
       = S (count_ops is_receive (collaborators s)))
  ∧ (out.1 ≠ Ok () →
       count_ops is_receive (collaborators out.2)
       = count_ops is_receive (collaborators s)).
Proof.
  intros s.
  apply (step_failure_leaves_data_on_device Z.add failing_diagnostics
           (λ _, 10%Z) (λ _, false) (λ _, 0%Z) true 1%Z true 1 0 1 0
           3%Z true true false true true true s); reflexivity.
Defined.

(** ** [Simulation.step]: the calls of a run in which nothing fails *)

Section StepTrace.

Context {T : Type}.
Variable float_add : T → T → T.
(** A communicator whose exchange period, moving window and rank do not
    change, and collaborators that log every call. *)
Variable period : Z.
Variable window : bool.
Variable comm_rank : Z.
Variable self_use_cuda : bool.
Variable dt : T.
Variable filter_currents : bool.
Variable n_species n_antennas n_diags n_external_fields : nat.

Local Abbreviation log_all := (record_unless (λ _ : pic_operation T, None)).
Local Abbreviation do := (act log_all).
Local Abbreviation cycle :=
  (pic_cycle float_add log_all (λ _, period) (λ _, window) dt
     filter_currents n_species n_antennas n_diags n_external_fields).
Local Abbreviation run :=
  (step float_add log_all (λ _, period) (λ _, window) (λ _, comm_rank)
     self_use_cuda dt filter_currents n_species n_antennas n_diags
     n_external_fields).
Local Abbreviation ops_of_cycle :=
  (cycle_ops dt period window filter_currents n_species n_antennas n_diags
     n_external_fields).
Local Abbreviation ops_of_loop :=
  (loop_ops float_add dt period window filter_currents n_species n_antennas
     n_diags n_external_fields).

Implicit Types (s : pic_state T (list (pic_operation T))) (it N : Z) (t : T)
  (m : M (pic_state T (list (pic_operation T))) unit)
  (l : list (pic_operation T)).

Lemma logs_act it t op : logs it t (do op) it t [op].
Proof. intros [i' t' w] Hi Ht. cbn in *. by subst. Qed.

Lemma logs_ret it t : logs (A := pic_operation T) it t (mret ()) it t [].
Proof. intros [i' t' w] Hi Ht. cbn in *. subst. by rewrite app_nil_r. Qed.

Lemma logs_then it t m1 m2 it1 t1 it' t' l1 l2 :
  logs it t m1 it1 t1 l1 → logs it1 t1 m2 it' t' l2 →
  logs it t (m1;; m2) it' t' (l1 ++ l2).
Proof.
  intros H1 H2 s Hi Ht. rewrite bind_unfold, (H1 s Hi Ht).
  rewrite H2 by done. cbn. by rewrite app_assoc.
Qed.

Lemma logs_seq it t m1 m2 it' t' l1 l2 :
  logs it t m1 it t l1 → logs it t m2 it' t' l2 →
  logs it t (m1;; m2) it' t' (l1 ++ l2).
Proof. apply logs_then. Qed.

Lemma logs_get it t (k : pic_state T (list (pic_operation T)) →
                         M (pic_state T (list (pic_operation T))) unit)
    it' t' l :
  (∀ s0, iteration s0 = it → time s0 = t → logs it t (k s0) it' t' l) →
  logs it t (get ≫= k) it' t' l.
Proof. intros Hk s Hi Ht. rewrite bind_unfold. cbn [get]. by apply Hk. Qed.

Lemma logs_if it t (b : bool) m l :
  logs it t m it t l →
  logs it t (if b then m else mret ()) it t (if b then l else []).
Proof. intros Hm. destruct b; [done|apply logs_ret]. Qed.

Lemma logs_for_each {A} it t (body : A → M _ unit)
    (f : A → pic_operation T) (xs : list A) :
  (∀ x, logs it t (body x) it t [f x]) →
  logs it t (for_each body xs) it t (f <$> xs).
Proof.
  intros Hbody. induction xs as [|x xs IH]; cbn [for_each fmap list_fmap].
  - apply logs_ret.
  - apply (logs_seq _ _ _ _ _ _ [f x]); [apply Hbody|apply IH].
Qed.

Lemma logs_py_mod it t (a b : Z) (k : Z → M _ unit) it' t' l :
  b ≠ 0%Z → logs it t (k (a mod b)%Z) it' t' l →
  logs it t (py_mod a b ≫= k) it' t' l.
Proof.
  intros Hb Hk s Hi Ht. rewrite bind_unfold. unfold py_mod.
  destruct (Z.eqb_spec b 0) as [|_]; [done|]. by apply Hk.
Qed.

Lemma logs_xrange it t (N : Z) (k : list Z → M _ unit) it' t' l :
  (- sys_maxint - 1 ≤ N ≤ sys_maxint)%Z →
  logs it t (k (range N)) it' t' l → logs it t (xrange N ≫= k) it' t' l.
Proof.
  intros HN Hk s Hi Ht. rewrite bind_unfold. unfold xrange.
  destruct (Z.ltb_spec sys_maxint N); [lia|].
  destruct (Z.ltb_spec N (- sys_maxint - 1)); [lia|]. by apply Hk.
Qed.

Lemma logs_tick it t :
  logs it t
    (modify (λ self : pic_state T (list (pic_operation T)),
               {| iteration := iteration self;
                  time := float_add (time self) dt;
                  collaborators := collaborators self |});;
     modify (λ self : pic_state T (list (pic_operation T)),
               {| iteration := iteration self + 1;
                  time := time self;
                  collaborators := collaborators self |}))
    (it + 1) (float_add t dt) [].
Proof. intros [i' t' w] Hi Ht. cbn in *. subst. by rewrite app_nil_r. Qed.

Lemma logs_eq it t m it' t' l l' :
  logs it t m it' t' l → l = l' → logs it t m it' t' l'.
Proof. by intros H <-. Qed.

(** A deposit on a known field type. *)
Lemma logs_deposit it t (fieldtype : string) :
  fieldtype = "rho_prev" ∨ fieldtype = "rho_next" ∨ fieldtype = "J" →
  logs it t
    (deposit (λ op, do (FieldOp op)) n_species n_antennas filter_currents
       fieldtype)
    it t (FieldOp <$> deposit_ops n_species n_antennas filter_currents fieldtype).
Proof.
  clear float_add dt period window comm_rank self_use_cuda n_diags
    n_external_fields.
  intros Hft. unfold deposit, deposit_ops.
  assert (∀ (g : nat → operation) xs,
            logs it t (for_each (λ i, do (FieldOp (g i))) xs) it t
              (FieldOp <$> (g <$> xs))) as Hloop.
  { intros g xs. rewrite <- list_fmap_compose.
    apply (logs_for_each _ _ _ (λ i, FieldOp (g i))). intros x. apply logs_act. }
  destruct (decide (fieldtype = "rho_prev" ∨ fieldtype = "rho_next")) as [Hrho|Hn].
  - rewrite (decide_False (P := fieldtype = "J")) by (by destruct Hrho as [->| ->]).
    eapply logs_eq.
    + apply logs_seq.
      { repeat (apply logs_seq; [first [apply logs_act|apply Hloop]|]).
        apply logs_act. }
      apply logs_seq; [apply logs_act|].
      apply logs_if, logs_act.
    + rewrite !fmap_app. cbn [fmap list_fmap app]. rewrite <- !app_assoc.
      cbn [app]. by destruct filter_currents.
  - assert (fieldtype = "J") as -> by tauto.
    rewrite !(decide_True (P := "J" = "J")) by done.
    eapply logs_eq.
    + apply logs_seq.
      { repeat (apply logs_seq; [first [apply logs_act|apply Hloop]|]).
        apply logs_act. }
      apply logs_seq; [apply logs_act|].
      apply logs_if, logs_act.
    + rewrite !fmap_app. cbn [fmap list_fmap app]. rewrite <- !app_assoc.
      cbn [app]. by destruct filter_currents.
Qed.

(** A cycle in which nothing fails. *)
Lemma logs_cycle it t N pf cc utr mp mm sp i_step :
  period ≠ 0%Z →
  logs it t (cycle N pf cc utr mp mm sp i_step) (it + 1) (float_add t dt)
    (ops_of_cycle N pf cc utr mp mm sp i_step it t).
Proof.
  intros Hperiod. unfold pic_cycle, self_deposit, cycle_ops.
  eapply logs_eq.
  - apply logs_seq; [apply logs_if, logs_act|].
    apply logs_seq.
    { apply (logs_for_each _ _ _ (λ d, DiagWrite d it)). intros d.
      apply logs_get. intros s0 -> _. apply logs_act. }
    apply logs_seq; [apply logs_act|].
    apply logs_get. intros s0 Hi0 Ht0.
    apply logs_py_mod; [done|].
    apply logs_seq.
    { rewrite Hi0. apply logs_if.
      apply logs_seq.
      { apply logs_get. intros s1 Hi1 Ht1. apply logs_if.
        apply logs_seq; [apply logs_act|].
        apply logs_seq; [|apply logs_act].
        apply logs_get. intros s2 Hi2 ->. apply logs_act. }
      apply logs_seq.
      { apply (logs_for_each _ _ _ (λ i, ExchangeParticles i t)). intros i.
        apply logs_get. intros s1 _ ->. apply logs_act. }
      apply logs_deposit. tauto. }
    apply logs_seq.
    { apply (logs_for_each _ _ _ Gather). intros i. apply logs_act. }
    apply logs_seq.
    { apply (logs_for_each _ _ _ (λ j, ApplyExpression j t)). intros j.
      apply logs_get. intros s1 _ ->. apply logs_act. }
    apply logs_seq.
    { apply logs_if. apply (logs_for_each _ _ _ PushP). intros i. apply logs_act. }
    apply logs_seq.
    { apply logs_if. apply (logs_for_each _ _ _ HalfpushX). intros i.
      apply logs_act. }
    apply logs_seq; [apply logs_deposit; tauto|].
    apply logs_seq.
    { apply logs_if. apply (logs_for_each _ _ _ HalfpushX). intros i.
      apply logs_act. }
    apply logs_seq; [apply logs_deposit; tauto|].
    apply logs_seq; [apply logs_if, logs_act|].
    do 6 (apply logs_seq; [apply logs_act|]).
    apply logs_tick.
  - cbn [app]. by rewrite <- ?app_assoc.
Qed.

(** The cycles of a loop in which nothing fails. *)
Lemma logs_loop N pf cc utr mp mm sp (steps : list Z) it t :
  period ≠ 0%Z →
  logs it t (for_each (cycle N pf cc utr mp mm sp) steps)
    (it + Z.of_nat (length steps))
    (Nat.iter (length steps) (λ t, float_add t dt) t)
    (ops_of_loop N pf cc utr mp mm sp steps it t).
Proof.
  intros Hperiod. revert it t.
  induction steps as [|i_step steps IH]; intros it t;
    cbn [for_each length loop_ops].
  - rewrite Z.add_0_r. apply logs_ret.
  - rewrite Nat.iter_succ_r.
    replace (it + Z.of_nat (S (length steps)))%Z
      with (it + 1 + Z.of_nat (length steps))%Z by lia.
    eapply logs_then; [by apply logs_cycle|apply IH].
Qed.

(** A whole run in which nothing fails. *)
Lemma logs_run N pf cc utr mp mm sp it t :
  period ≠ 0%Z → (- sys_maxint - 1 ≤ N ≤ sys_maxint)%Z →
  logs it t (run N pf cc utr mp mm sp)
    (it + Z.max N 0) (Nat.iter (Z.to_nat N) (λ t, float_add t dt) t)
    ((if self_use_cuda then [SendDataToGpu] else [])
     ++ ops_of_loop N pf cc utr mp mm sp (range N) it t
     ++ (if self_use_cuda then [ReceiveDataFromGpu] else [])
     ++ (if sp && (comm_rank =? 0)%Z then [PrintDuration] else [])).
Proof.
  intros Hperiod HN. unfold step.
  apply logs_seq; [apply logs_if, logs_act|].
  apply logs_xrange; [done|].
  eapply logs_then.
  { pose proof (logs_loop N pf cc utr mp mm sp (range N) it t Hperiod) as Hloop.
    rewrite length_range in Hloop.
    replace (it + Z.of_nat (Z.to_nat N))%Z with (it + Z.max N 0)%Z in Hloop by lia.
    exact Hloop. }
  apply logs_seq; [apply logs_if, logs_act|].
  apply logs_get. intros s0 _ _. apply logs_if, logs_act.
Qed.

(** What the deposits and the other calls of a cycle count for. *)
Lemma count_deposit_spectral (g fieldtype : string) :
  count_ops (is_spectral_deposit (T := T) g)
    (FieldOp <$> deposit_ops n_species n_antennas filter_currents fieldtype)
  = if bool_decide (fieldtype = g) then 1%nat else 0%nat.
Proof.
  unfold deposit_ops. rewrite !fmap_app, <- !list_fmap_compose, !count_ops_app.
  rewrite (count_ops_none _ (FieldOp ∘ (λ i, SpeciesDeposit i _))) by done.
  rewrite (count_ops_none _ (FieldOp ∘ (λ i, AntennaDeposit i "rho"))) by done.
  cbn [fmap list_fmap]. rewrite !count_ops_cons, !count_ops_nil.
  cbn [is_spectral_deposit].
  destruct filter_currents; cbn [fmap list_fmap];
    rewrite ?count_ops_cons, ?count_ops_nil; cbn [is_spectral_deposit];
    destruct (bool_decide (fieldtype = g)); lia.
Qed.

Lemma count_cycle_spectral (g : string) N pf cc utr mp mm sp i_step it t :
  g = "J" ∨ g = "rho_next" ∨ g = "rho_prev" →
  count_ops (is_spectral_deposit g)
    (ops_of_cycle N pf cc utr mp mm sp i_step it t)
  = if bool_decide (g = "rho_prev")
    then (if (it mod period =? 0)%Z then 1%nat else 0%nat)
    else 1%nat.
Proof.
  intros Hg. unfold cycle_ops.
  rewrite !count_ops_app, !count_deposit_spectral.
  rewrite !(count_ops_none _ (λ d, DiagWrite d it)),
    !(count_ops_none _ Gather), !(count_ops_none _ (λ j, ApplyExpression j t))
    by done.
  assert (count_ops (is_spectral_deposit (T := T) g)
            (if sp then [ProgressionBar i_step N] else []) = 0%nat) as ->
    by (by destruct sp).
  assert (count_ops (is_spectral_deposit (T := T) g)
            (if mm then PushP <$> seq 0 n_species else []) = 0%nat) as ->
    by (destruct mm; [by apply count_ops_none|done]).
  assert (count_ops (is_spectral_deposit (T := T) g)
            (if mp then HalfpushX <$> seq 0 n_species else []) = 0%nat) as ->
    by (destruct mp; [by apply count_ops_none|done]).
  assert (count_ops (is_spectral_deposit (T := T) g)
            (if cc then [CorrectCurrents] else []) = 0%nat) as ->
    by (by destruct cc).
  assert (count_ops (is_spectral_deposit (T := T) g)
            [FieldOp (ExchangeFields "EB")] = 0%nat) as -> by done.
  assert (count_ops (is_spectral_deposit (T := T) g)
            [DampGuardEB; FieldOp (Interp2Spect "E"); FieldOp (Interp2Spect "B");
             FieldPush pf utr; Spect2Interp "E"; Spect2Interp "B"] = 0%nat) as ->
    by (by destruct Hg as [->|[->| ->]]).
  assert (count_ops (is_spectral_deposit (T := T) g)
            (if (it mod period =? 0)%Z
             then (if window
                   then [DampGuardEB; MoveGrids dt t; FieldOp (ExchangeFields "EB")]
                   else [])
                  ++ ((λ i, ExchangeParticles i t) <$> seq 0 n_species)
                  ++ (FieldOp <$> deposit_ops n_species n_antennas filter_currents
                                    "rho_prev")
             else [])
          = if (it mod period =? 0)%Z
            then (if bool_decide (g = "rho_prev") then 1%nat else 0%nat)
            else 0%nat) as ->.
  { destruct (it mod period =? 0)%Z; [|done].
    rewrite !count_ops_app, count_deposit_spectral.
    rewrite (count_ops_none _ (λ i, ExchangeParticles i t)) by done.
    assert (count_ops (is_spectral_deposit (T := T) g)
              (if window
               then [DampGuardEB; MoveGrids dt t; FieldOp (ExchangeFields "EB")]
               else []) = 0%nat) as -> by (by destruct window).
    rewrite (bool_decide_ext ("rho_prev" = g) (g = "rho_prev")) by done. lia. }
  destruct Hg as [->|[->| ->]]; destruct (it mod period =? 0)%Z; by vm_compute.
Qed.

Lemma count_cycle_exchange N pf cc utr mp mm sp i_step it t :
  count_ops is_particle_exchange (ops_of_cycle N pf cc utr mp mm sp i_step it t)
  = if (it mod period =? 0)%Z then n_species else 0%nat.
Proof.
  unfold cycle_ops.
  rewrite !count_ops_app, !(count_ops_none _ FieldOp) by done.
  rewrite !(count_ops_none _ (λ d, DiagWrite d it)),
    !(count_ops_none _ Gather), !(count_ops_none _ (λ j, ApplyExpression j t))
    by done.
  assert (count_ops (is_particle_exchange (T := T))
            (if sp then [ProgressionBar i_step N] else []) = 0%nat) as ->
    by (by destruct sp).
  assert (count_ops (is_particle_exchange (T := T))
            (if mm then PushP <$> seq 0 n_species else []) = 0%nat) as ->
    by (destruct mm; [by apply count_ops_none|done]).
  assert (count_ops (is_particle_exchange (T := T))
            (if mp then HalfpushX <$> seq 0 n_species else []) = 0%nat) as ->
    by (destruct mp; [by apply count_ops_none|done]).
  assert (count_ops (is_particle_exchange (T := T))
            (if cc then [CorrectCurrents] else []) = 0%nat) as ->
    by (by destruct cc).
  assert (count_ops (is_particle_exchange (T := T))
            (if (it mod period =? 0)%Z
             then (if window
                   then [DampGuardEB; MoveGrids dt t; FieldOp (ExchangeFields "EB")]
                   else [])
                  ++ ((λ i, ExchangeParticles i t) <$> seq 0 n_species)
                  ++ (FieldOp <$> deposit_ops n_species n_antennas filter_currents
                                    "rho_prev")
             else [])
          = if (it mod period =? 0)%Z then n_species else 0%nat) as ->.
  { destruct (it mod period =? 0)%Z; [|done].
    rewrite !count_ops_app, (count_ops_none _ FieldOp) by done.
    rewrite (count_ops_all _ (λ i, ExchangeParticles i t)) by done.
    rewrite length_seq.
    assert (count_ops (is_particle_exchange (T := T))
              (if window
               then [DampGuardEB; MoveGrids dt t; FieldOp (ExchangeFields "EB")]
               else []) = 0%nat) as -> by (by destruct window).
    lia. }
  cbn. lia.
Qed.

Lemma count_loop N pf cc utr mp mm sp (steps : list Z) it t :
  count_ops (is_spectral_deposit "J") (ops_of_loop N pf cc utr mp mm sp steps it t)
  = length steps
  ∧ count_ops (is_spectral_deposit "rho_next")
      (ops_of_loop N pf cc utr mp mm sp steps it t)
    = length steps
  ∧ count_ops (is_spectral_deposit "rho_prev")
      (ops_of_loop N pf cc utr mp mm sp steps it t)
    = exchange_cycles period it (length steps)
  ∧ count_ops is_particle_exchange (ops_of_loop N pf cc utr mp mm sp steps it t)
    = (n_species * exchange_cycles period it (length steps))%nat.
Proof.
  revert it t. induction steps as [|i_step steps IH]; intros it t.
  { cbn. unfold exchange_cycles. cbn. repeat split; lia. }
  destruct (IH (it + 1)%Z (float_add t dt)) as (HJ & Hnext & Hprev & Hex).
  cbn [loop_ops length]. rewrite !count_ops_app, exchange_cycles_S.
  rewrite !count_cycle_spectral by tauto. rewrite count_cycle_exchange.
  rewrite HJ, Hnext, Hprev, Hex. cbn.
  destruct (it mod period =? 0)%Z; repeat split; lia.
Qed.

(** X16: in a run of [N] cycles in which no call fails, with an exchange
    period that is not zero, every cycle puts the current [J] and the
    charge [rho_next] on the spectral grid exactly once; the charge
    [rho_prev] is deposited again, and every species exchanged between
    domains, exactly in the cycles that start at an iteration number which
    is a multiple of the exchange period. *)
Theorem step_redeposits_on_exchange N pf cc utr mp mm sp s :
  period ≠ 0%Z → (0 ≤ N ≤ sys_maxint)%Z →
  ∃ L,
    run N pf cc utr mp mm sp s
    = (Ok (), {| iteration := iteration s + N;
                 time := Nat.iter (Z.to_nat N) (λ t, float_add t dt) (time s);
                 collaborators := collaborators s ++ L |})
    ∧ count_ops (is_spectral_deposit "J") L = Z.to_nat N
    ∧ count_ops (is_spectral_deposit "rho_next") L = Z.to_nat N
    ∧ count_ops (is_spectral_deposit "rho_prev") L
      = exchange_cycles period (iteration s) (Z.to_nat N)
    ∧ count_ops is_particle_exchange L
      = (n_species * exchange_cycles period (iteration s) (Z.to_nat N))%nat.
Proof.
  intros Hperiod HN.
  pose proof (logs_run N pf cc utr mp mm sp (iteration s) (time s) Hperiod
                ltac:(unfold sys_maxint in *; lia) s eq_refl eq_refl) as Hrun.
  rewrite Z.max_l in Hrun by lia.
  eexists. split; [exact Hrun|].
  destruct (count_loop N pf cc utr mp mm sp (range N) (iteration s) (time s))
    as (HJ & Hnext & Hprev & Hex).
  rewrite length_range in *.
  assert (∀ g, count_ops (is_spectral_deposit (T := T) g)
                 (if self_use_cuda then [SendDataToGpu] else []) = 0%nat) as Hs
    by (intros g; by destruct self_use_cuda).
  assert (∀ g, count_ops (is_spectral_deposit (T := T) g)
                 (if self_use_cuda then [ReceiveDataFromGpu] else []) = 0%nat) as Hr
    by (intros g; by destruct self_use_cuda).
  assert (∀ g, count_ops (is_spectral_deposit (T := T) g)
                 (if sp && (comm_rank =? 0)%Z then [PrintDuration] else [])
               = 0%nat) as Hp
    by (intros g; by destruct (_ && _)).
  rewrite !count_ops_app, !Hs, !Hr, !Hp, HJ, Hnext, Hprev, Hex.
  assert (count_ops (is_particle_exchange (T := T))
            (if self_use_cuda then [SendDataToGpu] else []) = 0%nat) as ->
    by (by destruct self_use_cuda).
  assert (count_ops (is_particle_exchange (T := T))
            (if self_use_cuda then [ReceiveDataFromGpu] else []) = 0%nat) as ->
    by (by destruct self_use_cuda).
  assert (count_ops (is_particle_exchange (T := T))
            (if sp && (comm_rank =? 0)%Z then [PrintDuration] else [])
          = 0%nat) as ->
    by (by destruct (_ && _)).
  repeat split; lia.
Qed.

(** *** An exchange period of zero *)

Lemma raises_after it t m1 m2 e l1 l2 :
  logs it t m1 it t l1 → logs_and_raises it t m2 e l2 →
  logs_and_raises it t (m1;; m2) e (l1 ++ l2).
Proof.
  intros H1 H2 s Hi Ht. rewrite bind_unfold, (H1 s Hi Ht).
  rewrite H2 by done. cbn. by rewrite app_assoc.
Qed.

Lemma raises_bind {B} it t m (k : unit → M _ B) e l :
  logs_and_raises it t m e l →
  ∀ s, iteration s = it → time s = t →
    (m ≫= k) s = (Raise e, {| iteration := it; time := t;
                              collaborators := collaborators s ++ l |}).
Proof. intros Hm s Hi Ht. by rewrite bind_unfold, (Hm s Hi Ht). Qed.

Lemma cycle_raises N pf cc utr mp mm sp i_step it t :
  period = 0%Z →
  logs_and_raises it t (cycle N pf cc utr mp mm sp i_step)
    (ZeroDivisionError "integer division or modulo by zero")
    ((if sp then [ProgressionBar i_step N] else [])
     ++ ((λ d, DiagWrite d it) <$> seq 0 n_diags)
     ++ [FieldOp (ExchangeFields "EB")]).
Proof.
  intros Hperiod. unfold pic_cycle.
  apply raises_after; [apply logs_if, logs_act|].
  apply raises_after.
  { apply (logs_for_each _ _ _ (λ d, DiagWrite d it)). intros d.
    apply logs_get. intros s0 -> _. apply logs_act. }
  replace [FieldOp (T := T) (ExchangeFields "EB")]
    with ([FieldOp (T := T) (ExchangeFields "EB")] ++ []) by done.
  apply raises_after; [apply logs_act|].
  intros [i' t' w] Hi Ht. cbn in Hi, Ht. subst i' t'.
  rewrite bind_unfold. cbn [get]. rewrite bind_unfold. unfold py_mod.
  rewrite Hperiod. cbn. by rewrite app_nil_r.
Qed.

(** X17: with an exchange period of zero, a run of at least one cycle
    raises [ZeroDivisionError] in its first cycle, when it tests the
    iteration number against the period: the diagnostics have been written
    and the fields exchanged, but no particle has been gathered or pushed,
    the clock has not moved, and data sent to the device are not received
    back. *)
Theorem step_zero_exchange_period N pf cc utr mp mm sp s :
  period = 0%Z → (1 ≤ N ≤ sys_maxint)%Z →
  run N pf cc utr mp mm sp s
  = (Raise (ZeroDivisionError "integer division or modulo by zero"),
     {| iteration := iteration s; time := time s;
        collaborators :=
          collaborators s
          ++ (if self_use_cuda then [SendDataToGpu] else [])
          ++ (if sp then [ProgressionBar 0 N] else [])
          ++ ((λ d, DiagWrite d (iteration s)) <$> seq 0 n_diags)
          ++ [FieldOp (ExchangeFields "EB")] |}).
Proof.
  intros Hperiod HN. unfold step. rewrite bind_unfold.
  rewrite (logs_if (iteration s) (time s) self_use_cuda _ _
             (logs_act _ _ SendDataToGpu) s eq_refl eq_refl).
  rewrite bind_unfold. unfold xrange.
  destruct (Z.ltb_spec sys_maxint N); [lia|].
  destruct (Z.ltb_spec N (- sys_maxint - 1)); [unfold sys_maxint in *; lia|].
  cbn [orb mret M_ret].
  assert (∃ rest, range N = 0%Z :: rest) as [rest ->].
  { unfold range. destruct (Z.to_nat N) as [|n] eqn:Hn; [lia|].
    cbn. by eexists. }
  cbn [for_each]. rewrite bind_unfold.
  rewrite (raises_bind _ _ _ _ _ _
             (cycle_raises N pf cc utr mp mm sp 0 (iteration s) (time s) Hperiod))
    by done.
  cbn [collaborators]. by rewrite <- !app_assoc.
Qed.

(** X18: a run of no cycle ([N] zero or negative) in which no call fails
    still sends the data to the device and receives them back when the
    simulation uses CUDA, and does nothing else but print the time taken;
    the clock does not move. *)
Theorem step_without_cycles N pf cc utr mp mm sp s :
  (- sys_maxint - 1 ≤ N ≤ 0)%Z →
  run N pf cc utr mp mm sp s
  = (Ok (),
     {| iteration := iteration s; time := time s;
        collaborators :=
          collaborators s
          ++ (if self_use_cuda then [SendDataToGpu; ReceiveDataFromGpu] else [])
          ++ (if sp && (comm_rank =? 0)%Z then [PrintDuration] else []) |}).
Proof.
  intros HN.
  assert (logs (iteration s) (time s) (run N pf cc utr mp mm sp)
            (iteration s) (time s)
            ((if self_use_cuda then [SendDataToGpu] else [])
             ++ []
             ++ (if self_use_cuda then [ReceiveDataFromGpu] else [])
             ++ (if sp && (comm_rank =? 0)%Z then [PrintDuration] else [])))
    as Hrun.
  { unfold step. apply logs_seq; [apply logs_if, logs_act|].
    apply logs_xrange; [unfold sys_maxint in *; lia|].
    assert (range N = []) as ->
      by (unfold range; by replace (Z.to_nat N) with 0%nat by lia).
    apply logs_seq; [apply logs_ret|].
    apply logs_seq; [apply logs_if, logs_act|].
    apply logs_get. intros s0 _ _. apply logs_if, logs_act. }
  rewrite (Hrun s eq_refl eq_refl). do 3 f_equal. by destruct self_use_cuda.
Qed.

End StepTrace.

Lemma step_redeposits_on_exchange_witness :
  let s := {| iteration := 8%Z; time := 0%Z; collaborators := [] |} in
  ∃ L,
    step Z.add (record_unless (λ _, None)) (λ _, 5%Z) (λ _, true) (λ _, 0%Z)
      true 1%Z true 2 1 1 0 4%Z true true false true true false s
    = (Ok (), {| iteration := iteration s + 4;
                 time := Nat.iter (Z.to_nat 4) (λ t, Z.add t 1) (time s);
                 collaborators := collaborators s ++ L |})
    ∧ count_ops (is_spectral_deposit "J") L = Z.to_nat 4
    ∧ count_ops (is_spectral_deposit "rho_next") L = Z.to_nat 4
    ∧ count_ops (is_spectral_deposit "rho_prev") L
      = exchange_cycles 5 (iteration s) (Z.to_nat 4)
    ∧ count_ops is_particle_exchange L
      = (2 * exchange_cycles 5 (iteration s) (Z.to_nat 4))%nat.
Proof.
  intros s.
  apply (step_redeposits_on_exchange Z.add 5%Z true 0%Z true 1%Z true 2 1 1 0
           4%Z true true false true true false s); [lia|by vm_compute].
Defined.

Lemma step_zero_exchange_period_witness :
  let s := {| iteration := 0%Z; time := 0%Z; collaborators := [] |} in
  step Z.add (record_unless (λ _, None)) (λ _, 0%Z) (λ _, false) (λ _, 0%Z)
    true 1%Z true 1 0 2 0 3%Z true true false true true true s
  = (Raise (ZeroDivisionError "integer division or modulo by zero"),
     {| iteration := iteration s; time := time s;
        collaborators :=
          collaborators s
          ++ [SendDataToGpu]
          ++ [ProgressionBar 0 3]
          ++ ((λ d, DiagWrite d (iteration s)) <$> seq 0 2)
          ++ [FieldOp (ExchangeFields "EB")] |}).
Proof.
  intros s.
  apply (step_zero_exchange_period Z.add 0%Z false 0%Z true 1%Z true 1 0 2 0
           3%Z true true false true true true s); [reflexivity|by vm_compute].
Defined.

Lemma step_without_cycles_witness :
  let s := {| iteration := 7%Z; time := 0%Z; collaborators := [] |} in
  step Z.add (record_unless (λ _, None)) (λ _, 5%Z) (λ _, false) (λ _, 0%Z)
    true 1%Z true 1 0 2 0 0%Z true true false true true true s
  = (Ok (),
     {| iteration := iteration s; time := time s;
        collaborators :=
          collaborators s ++ [SendDataToGpu; ReceiveDataFromGpu]
          ++ [PrintDuration] |}).
Proof.
  intros s.
  apply (step_without_cycles Z.add 5%Z false 0%Z true 1%Z true 1 0 2 0
           0%Z true true false true true true s). by vm_compute.
Defined.
